(** * Pragmatic.js: a shallow embedding of the reactive store, the condition
    language, the DOM bindings, the router and the group validator.

    The repository ships the library in two builds which share their
    structure but differ in a few guards:
    - [Standalone], the script-include build [pragmatic-standalone.js];
    - [UMD], the universal-module build (the second source file).
    Functions that differ take the build as their first argument.

    Modelling conventions.
    - A JavaScript string is a [string] whose characters are read as code
      units below 256.
    - A JavaScript number is a binary64 [float].
    - An object is the ordered list of its own properties and inherits the
      members of [Object.prototype]: [get] reads an own property or else
      the inherited member, and the table of subscribers, a plain object
      too, is read in the same way.  The prototype of an object is never
      replaced: an assignment to [__proto__] is taken for the creation of
      an own property, and what is stated about the effect of a write on
      the elements or the subscribers excludes that key.  The own
      properties are visited in the order of the list, which is the order
      of the engine when no key is an array index.
    - A stored record that is an array is taken for the object of its
      index properties.
    - Browser and engine services that the repository only calls
      ([JSON.parse], [JSON.stringify], [new RegExp], [parseFloat], number
      conversions, the selection by a selector text that is not of the
      plain form, the functions kept in the store) are the fields of a
      [Platform]; every theorem holds for every platform, and
      [ref_platform] is an executable one.
    - Effects are threaded through a [World]; a computation either returns
      or throws, and in both cases hands back the world it reached.
    - The script of the library runs once on a page.  A name is read as
      the file has defined it by then, and the page defines none of the
      names of the library.  The standalone file calls
      [reactive] in the constructor, before the statement that assigns it
      to [window]: [reactive_ref] throws the ReferenceError.  In both files
      the constant [State] is uninitialised until the constructor has
      returned, and the functions that the constructor itself can set off
      read it through [State_ref].
    - A key or a group name that the library pastes between the double
      quotes of a selector is read as the selector parser reads it
      ([paste]): as it is, as a text that is no selector, or as a text
      whose selection is left to the platform.
    - An element keeps of a text assigned to its [value] what its
      [value_setter] keeps; checking a radio button unchecks the buttons
      of its group.
    - Persistent storage has no quota, and values are finite trees
      without conversion methods of their own: [localStorage.setItem],
      [JSON.stringify] and the conversions of a value to a string or a
      number always return.
    - The functions that the page hands to the library (subscribers,
      [valid-if] and [show-if] functions) read the store and do not call
      back into the library. *)

From Stdlib Require Import Floats Uint63 ZArith String Ascii List Bool Lia.
From stdpp Require Import base list strings gmap pretty.
Import ListNotations.
Open Scope string_scope.

(* ===================================================================== *)
(** ** Strings *)
(* ===================================================================== *)

Module JsString.

Definition chars (s : string) : list ascii := list_ascii_of_string s.
Definition of_chars (l : list ascii) : string := string_of_list_ascii l.

Definition code (c : ascii) : nat := nat_of_ascii c.

(** [\s] of regular expressions and the characters removed by [trim]:
    TAB, LF, VT, FF, CR, SPACE and NBSP (the others lie above 255). *)
Definition is_space (c : ascii) : bool :=
  let n := code c in
  (Nat.leb 9 n && Nat.leb n 13) || Nat.eqb n 32 || Nat.eqb n 160.

(** [.] of regular expressions: anything but a line terminator. *)
Definition is_dot (c : ascii) : bool :=
  negb (Nat.eqb (code c) 10 || Nat.eqb (code c) 13).

Definition is_digit (c : ascii) : bool :=
  Nat.leb 48 (code c) && Nat.leb (code c) 57.

(** [[a-zA-Z0-9_]] *)
Definition is_word (c : ascii) : bool :=
  let n := code c in
  (Nat.leb 97 n && Nat.leb n 122) || (Nat.leb 65 n && Nat.leb n 90)
  || is_digit c || Nat.eqb n 95.

Fixpoint prefix_chars (p s : list ascii) : bool :=
  match p, s with
  | [], _ => true
  | _ :: _, [] => false
  | a :: p', b :: s' => Ascii.eqb a b && prefix_chars p' s'
  end.

(** [s.startsWith(p)] *)
Definition startsWith (s p : string) : bool := prefix_chars (chars p) (chars s).

Fixpoint includes_chars (p s : list ascii) : bool :=
  prefix_chars p s ||
  match s with
  | [] => false
  | _ :: s' => includes_chars p s'
  end.

(** [s.includes(p)] *)
Definition includes (s p : string) : bool := includes_chars (chars p) (chars s).

Fixpoint drop_while (f : ascii -> bool) (l : list ascii) : list ascii :=
  match l with
  | [] => []
  | c :: l' => if f c then drop_while f l' else l
  end.

(** [s.trim()] *)
Definition trim (s : string) : string :=
  of_chars (rev (drop_while is_space (rev (drop_while is_space (chars s))))).

(** [s.substring(n)] *)
Definition substring_from (n : nat) (s : string) : string :=
  of_chars (drop n (chars s)).

(** The index of the first occurrence of [p] in [s], as [s.indexOf(p)]. *)
Fixpoint index_of_chars (p s : list ascii) (i : nat) : option nat :=
  if prefix_chars p s then Some i
  else match s with
       | [] => None
       | _ :: s' => index_of_chars p s' (S i)
       end.

(** [s.replace(p, r)] with a string pattern: the first occurrence only. *)
Definition replace_first (s p r : string) : string :=
  match index_of_chars (chars p) (chars s) 0 with
  | None => s
  | Some i =>
      of_chars (take i (chars s) ++ chars r
                ++ drop (i + List.length (chars p)) (chars s))
  end.

(** [s.split(sep)] with a non-empty string separator. *)
Fixpoint split_chars (sep : list ascii) (cur : list ascii) (s : list ascii)
    (skip : nat) : list (list ascii) :=
  match s with
  | [] => [rev cur]
  | c :: s' =>
      match skip with
      | S k => split_chars sep cur s' k
      | O =>
          if prefix_chars sep s
          then rev cur :: split_chars sep [] s' (List.length sep - 1)
          else split_chars sep (c :: cur) s' 0
      end
  end.

Definition split (s sep : string) : list string :=
  map of_chars (split_chars (chars sep) [] (chars s) 0).

(** The text between double quotes, as a template pastes it. *)
Definition quoted (s : string) : string :=
  String (ascii_of_nat 34) (s ++ String (ascii_of_nat 34) "").

End JsString.

(* ===================================================================== *)
(** ** Regular expressions

    A backtracking matcher with the priorities of the ECMAScript one
    (alternatives left to right, greedy repetition, an iteration of a
    repetition must consume input), for the constructs that the regular
    expression literals of the library use. *)
(* ===================================================================== *)

Module Regex.

Inductive regex : Type :=
| Eps
| Chr (p : ascii -> bool)
| Seq (r1 r2 : regex)
| Alt (r1 r2 : regex)
| Star (r : regex)
| Group (n : nat) (r : regex)
| Bol
| Eol.

Definition Plus (r : regex) : regex := Seq r (Star r).

Definition lit_char (c : ascii) : regex := Chr (Ascii.eqb c).

Fixpoint lit_chars (l : list ascii) : regex :=
  match l with
  | [] => Eps
  | [c] => lit_char c
  | c :: l' => Seq (lit_char c) (lit_chars l')
  end.

Definition lit (s : string) : regex := lit_chars (JsString.chars s).

Definition one_of (s : string) : regex :=
  Chr (fun c => existsb (Ascii.eqb c) (JsString.chars s)).

Definition space : regex := Chr JsString.is_space.
Definition dot : regex := Chr JsString.is_dot.

(** The matcher runs on the characters still to read; the position of a
    state is recovered from the length of the whole subject. *)
Definition captures : Type := list (nat * list ascii).

Definition set_capture (n : nat) (v : list ascii) (cs : captures) : captures :=
  (n, v) :: List.filter (fun c => negb (Nat.eqb (fst c) n)) cs.

Fixpoint get_capture (n : nat) (cs : captures) : option (list ascii) :=
  match cs with
  | [] => None
  | (m, v) :: cs' => if Nat.eqb m n then Some v else get_capture n cs'
  end.

Section Matcher.
Context {R : Type}.
Variable total : nat.

Fixpoint run (r : regex) (s : list ascii) (cs : captures)
    (k : list ascii -> captures -> option R) : option R :=
  match r with
  | Eps => k s cs
  | Chr p =>
      match s with
      | c :: s' => if p c then k s' cs else None
      | [] => None
      end
  | Seq r1 r2 => run r1 s cs (fun s' cs' => run r2 s' cs' k)
  | Alt r1 r2 =>
      match run r1 s cs k with
      | Some x => Some x
      | None => run r2 s cs k
      end
  | Star r' =>
      (fix star (fuel : nat) (s : list ascii) (cs : captures) : option R :=
         match fuel with
         | O => k s cs
         | S fuel' =>
             match run r' s cs
                     (fun s' cs' =>
                        if Nat.ltb (List.length s') (List.length s)
                        then star fuel' s' cs' else None) with
             | Some x => Some x
             | None => k s cs
             end
         end) (List.length s) s cs
  | Group n r' =>
      run r' s cs
        (fun s' cs' =>
           k s' (set_capture n (take (List.length s - List.length s') s) cs'))
  | Bol => if Nat.eqb (List.length s) total then k s cs else None
  | Eol => match s with [] => k s cs | _ => None end
  end.

End Matcher.

(** One attempt at position [q] of [subject]: the end position and the
    captures of the match, as a sticky [exec]. *)
Definition exec_at (r : regex) (subject : list ascii) (q : nat)
    : option (nat * captures) :=
  let total := List.length subject in
  run total r (drop q subject) []
    (fun s' cs => Some (total - List.length s', cs)).

(** The leftmost match at or after position [q]: its start, its end and
    its captures. *)
Fixpoint search_from (r : regex) (subject : list ascii) (fuel q : nat)
    : option (nat * nat * captures) :=
  match exec_at r subject q with
  | Some (e, cs) => Some (q, e, cs)
  | None =>
      match fuel with
      | O => None
      | S fuel' => search_from r subject fuel' (S q)
      end
  end.

Definition search (r : regex) (s : string) : option (nat * nat * captures) :=
  let l := JsString.chars s in
  search_from r l (List.length l) 0.

(** [r.test(s)] *)
Definition test (r : regex) (s : string) : bool :=
  match search r s with Some _ => true | None => false end.

(** [s.match(r)] for group [n] of a successful match. *)
Definition group (n : nat) (cs : captures) : string :=
  match get_capture n cs with
  | Some v => JsString.of_chars v
  | None => ""
  end.

(** [s.split(r)] for a regular expression without capture groups: the loop
    of RegExp.prototype[Symbol.split], with [p] the end of the last
    separator and [q] the position tried next. *)
Fixpoint split_loop (r : regex) (subject : list ascii) (fuel p q : nat)
    : list (list ascii) :=
  let size := List.length subject in
  match fuel with
  | O => [drop p subject]
  | S fuel' =>
      if Nat.ltb q size then
        match exec_at r subject q with
        | None => split_loop r subject fuel' p (S q)
        | Some (e0, _) =>
            let e := Nat.min e0 size in
            if Nat.eqb e p then split_loop r subject fuel' p (S q)
            else take (q - p) (drop p subject)
                 :: split_loop r subject fuel' e e
        end
      else [drop p subject]
  end.

Definition split (r : regex) (s : string) : list string :=
  let l := JsString.chars s in
  match l with
  | [] => match exec_at r [] 0 with Some _ => [] | None => [""] end
  | _ => map JsString.of_chars (split_loop r l (S (List.length l)) 0 0)
  end.

(** [s.replace(r, "")] for a regular expression with the [g] flag: every
    match is deleted; after an empty match the scan advances by one. *)
Fixpoint delete_loop (r : regex) (subject : list ascii) (fuel next q : nat)
    : list ascii :=
  match fuel with
  | O => drop next subject
  | S fuel' =>
      if Nat.leb q (List.length subject) then
        match search_from r subject (List.length subject - q) q with
        | None => drop next subject
        | Some (b, e, _) =>
            let q' := if Nat.eqb e b then S e else e in
            if Nat.leb next b
            then take (b - next) (drop next subject)
                 ++ delete_loop r subject fuel' e q'
            else delete_loop r subject fuel' next q'
        end
      else drop next subject
  end.

Definition delete_all (r : regex) (s : string) : string :=
  let l := JsString.chars s in
  JsString.of_chars (delete_loop r l (S (S (List.length l))) 0 0).

End Regex.

(* ===================================================================== *)
(** ** The regular expression literals of the library *)
(* ===================================================================== *)

Import Regex.

(** [/\s*\|\|\s*/] *)
Definition re_or : regex :=
  Seq (Star space) (Seq (lit "||") (Star space)).

(** [/\s*&&\s*/] *)
Definition re_and : regex :=
  Seq (Star space) (Seq (lit "&&") (Star space)).

(** [/[=<>!~]|matches/] *)
Definition re_operator_char : regex :=
  Alt (one_of "=<>!~") (lit "matches").

(** [/^\/|\/$/g] *)
Definition re_slashes : regex :=
  Alt (Seq Bol (lit "/")) (Seq (lit "/") Eol).

(** [/([a-zA-Z0-9_]+)\s*(==|!=|~=|>=|<=|>|<|matches)\s*(\/.*\/|.+)/] *)
Definition re_condition : regex :=
  Seq (Group 1 (Plus (Chr JsString.is_word)))
 (Seq (Star space)
 (Seq (Group 2 (Alt (lit "==") (Alt (lit "!=") (Alt (lit "~=")
        (Alt (lit ">=") (Alt (lit "<=") (Alt (lit ">") (Alt (lit "<")
        (lit "matches")))))))))
 (Seq (Star space)
      (Group 3 (Alt (Seq (lit "/") (Seq (Star dot) (lit "/")))
                    (Plus dot)))))).

(** [parseCondition]: the key, the operator and the expected value of a
    comparison, or the whole condition with two empty strings. *)
Definition parseCondition (condition : string) : string * string * string :=
  match search re_condition condition with
  | Some (_, _, cs) => (group 1 cs, group 2 cs, group 3 cs)
  | None => (condition, "", "")
  end.

(* ===================================================================== *)
(** ** Values *)
(* ===================================================================== *)

(** Objects, arrays and functions carry the identity [id] of the heap cell
    they denote: [===] compares identities, never contents. *)
#[warnings="-register-all"]
Inductive value : Type :=
| VUndefined
| VNull
| VBool (b : bool)
| VNum (n : float)
| VStr (s : string)
| VObject (id : nat) (props : list (string * value))
| VArray (id : nat) (items : list value)
| VFunction (id : nat).

(** The own properties of an object, in insertion order. *)
Abbreviation obj := (list (string * value)).

Fixpoint own (o : obj) (key : string) : option value :=
  match o with
  | [] => None
  | (k, v) :: o' => if String.eqb k key then Some v else own o' key
  end.

(** The functions that every object inherits from [Object.prototype], with
    the identities the model gives them. *)
Definition Object_prototype_functions : obj :=
  [("constructor", VFunction 0); ("hasOwnProperty", VFunction 1);
   ("isPrototypeOf", VFunction 2); ("propertyIsEnumerable", VFunction 3);
   ("toLocaleString", VFunction 4); ("toString", VFunction 5);
   ("valueOf", VFunction 6); ("__defineGetter__", VFunction 7);
   ("__defineSetter__", VFunction 8); ("__lookupGetter__", VFunction 9);
   ("__lookupSetter__", VFunction 10)].

(** [Object.prototype] itself, which has no enumerable property. *)
Definition Object_prototype : value := VObject 0 [].

(** What an object that has no property [key] of its own reads under
    [key]: a function of [Object.prototype], [Object.prototype] itself
    under [__proto__], and [undefined] under any other name. *)
Definition inherited (key : string) : value :=
  if String.eqb key "__proto__" then Object_prototype
  else match own Object_prototype_functions key with
       | Some f => f
       | None => VUndefined
       end.

(** [o[key]] *)
Definition get (o : obj) (key : string) : value :=
  match own o key with Some v => v | None => inherited key end.

(** [o[key] = v]: an existing property keeps its place, a new one is
    appended. *)
Fixpoint put (o : obj) (key : string) (v : value) : obj :=
  match o with
  | [] => [(key, v)]
  | (k, x) :: o' =>
      if String.eqb k key then (k, v) :: o' else (k, x) :: put o' key v
  end.

(** An array index: a decimal numeral without leading zero, below
    [2^32 - 1]. *)
Definition array_index (key : string) : option N :=
  match JsString.chars key with
  | [] => None
  | c :: r =>
      if forallb JsString.is_digit (c :: r)
         && (negb (Ascii.eqb c "0") || match r with [] => true | _ => false end)
         && Nat.leb (List.length (c :: r)) 10
      then
        let n := fold_left
                   (fun acc d => (acc * 10 + N.of_nat (JsString.code d) - 48)%N)
                   (c :: r) 0%N in
        if (n <? 4294967295)%N then Some n else None
      else None
  end.

(** Insertion into a list of indexed keys sorted by index. *)
Fixpoint insert_index (n : N) (key : string) (l : list (N * string))
    : list (N * string) :=
  match l with
  | [] => [(n, key)]
  | (m, k) :: l' =>
      if (n <? m)%N then (n, key) :: l else (m, k) :: insert_index n key l'
  end.

(** [Object.keys(o)]: the array indices in ascending order, then the other
    keys in insertion order. *)
Definition Object_keys (o : obj) : list string :=
  let keys := map fst o in
  let indices :=
    fold_left (fun acc k => match array_index k with
                            | Some n => insert_index n k acc
                            | None => acc
                            end) keys [] in
  (map snd indices
   ++ List.filter (fun k => match array_index k with
                            | Some _ => false
                            | None => true
                            end) keys)%list.

(** [delete o[key]] *)
Definition remove (o : obj) (key : string) : obj :=
  List.filter (fun kv => negb (String.eqb (fst kv) key)) o.

(** [a === b] *)
Definition strict_eq (a b : value) : bool :=
  match a, b with
  | VUndefined, VUndefined => true
  | VNull, VNull => true
  | VBool x, VBool y => Bool.eqb x y
  | VNum x, VNum y => PrimFloat.eqb x y
  | VStr x, VStr y => String.eqb x y
  | VObject i _, VObject j _ => Nat.eqb i j
  | VArray i _, VArray j _ => Nat.eqb i j
  | VFunction i, VFunction j => Nat.eqb i j
  | _, _ => false
  end.

(** ToBoolean *)
Definition truthy (v : value) : bool :=
  match v with
  | VUndefined | VNull => false
  | VBool b => b
  | VNum n => negb (PrimFloat.eqb n 0%float || PrimFloat.is_nan n)
  | VStr s => negb (String.eqb s "")
  | VObject _ _ | VArray _ _ | VFunction _ => true
  end.

Definition is_string (v : value) : bool :=
  match v with VStr _ => true | _ => false end.

Definition is_nullish (v : value) : bool :=
  match v with VUndefined | VNull => true | _ => false end.

Fixpoint join (sep : string) (l : list string) : string :=
  match l with
  | [] => ""
  | [x] => x
  | x :: l' => x ++ sep ++ join sep l'
  end.

(* ===================================================================== *)
(** ** The document *)
(* ===================================================================== *)

(** An element, with the attributes and properties the library reads or
    writes.  [el_path] is its position in the tree (child indices from the
    root): [a] is an ancestor of [e] when the path of [a] is a proper
    prefix of the path of [e].  [validIf] and [showIf] are the functions
    the page attached to the element; they read the store and return a
    value or throw ([None]).  [value_setter] is what the element does with
    an assignment to its [value]: the text that [value] reads afterwards
    (the text itself for a hidden field, the text without its line breaks
    for a text field, the value of the option that the text selects for a
    [select], and the empty string when no option has the text), or
    nothing when the assignment throws an InvalidStateError, as it does
    for a file field.  [form_owner] is the form the element belongs to, if
    any.  [attributes] are the content attributes other than [class] and
    [style], which are kept in [classList] and [style_display].
    [textContent] is the text of the element itself: that the text of an
    element includes that of its descendants, and that an assignment of
    text removes the descendants from the document, is not part of the
    model, and what is stated about the text of an element is stated for
    elements of which none that is written contains another. *)
Record element : Type := {
  el_path : list nat;
  tagName : string;
  attributes : list (string * string);
  el_type : string;
  el_value : value;
  checked : bool;
  textContent : string;
  style_display : string;
  classList : list string;
  validIf : option (obj -> option value);
  showIf : option (obj -> option value);
  onShowObserver : bool;
  value_setter : string -> option string;
  form_owner : option nat;
}.

Definition with_value (x : value) (e : element) : element :=
  {| el_path := el_path e; tagName := tagName e; attributes := attributes e;
     el_type := el_type e; el_value := x; checked := checked e;
     textContent := textContent e; style_display := style_display e;
     classList := classList e; validIf := validIf e; showIf := showIf e;
     onShowObserver := onShowObserver e; value_setter := value_setter e;
     form_owner := form_owner e |}.

Definition with_checked (x : bool) (e : element) : element :=
  {| el_path := el_path e; tagName := tagName e; attributes := attributes e;
     el_type := el_type e; el_value := el_value e; checked := x;
     textContent := textContent e; style_display := style_display e;
     classList := classList e; validIf := validIf e; showIf := showIf e;
     onShowObserver := onShowObserver e; value_setter := value_setter e;
     form_owner := form_owner e |}.

Definition with_textContent (x : string) (e : element) : element :=
  {| el_path := el_path e; tagName := tagName e; attributes := attributes e;
     el_type := el_type e; el_value := el_value e; checked := checked e;
     textContent := x; style_display := style_display e;
     classList := classList e; validIf := validIf e; showIf := showIf e;
     onShowObserver := onShowObserver e; value_setter := value_setter e;
     form_owner := form_owner e |}.

Definition with_display (x : string) (e : element) : element :=
  {| el_path := el_path e; tagName := tagName e; attributes := attributes e;
     el_type := el_type e; el_value := el_value e; checked := checked e;
     textContent := textContent e; style_display := x;
     classList := classList e; validIf := validIf e; showIf := showIf e;
     onShowObserver := onShowObserver e; value_setter := value_setter e;
     form_owner := form_owner e |}.

Definition with_classList (x : list string) (e : element) : element :=
  {| el_path := el_path e; tagName := tagName e; attributes := attributes e;
     el_type := el_type e; el_value := el_value e; checked := checked e;
     textContent := textContent e; style_display := style_display e;
     classList := x; validIf := validIf e; showIf := showIf e;
     onShowObserver := onShowObserver e; value_setter := value_setter e;
     form_owner := form_owner e |}.

Definition with_onShowObserver (x : bool) (e : element) : element :=
  {| el_path := el_path e; tagName := tagName e; attributes := attributes e;
     el_type := el_type e; el_value := el_value e; checked := checked e;
     textContent := textContent e; style_display := style_display e;
     classList := classList e; validIf := validIf e; showIf := showIf e;
     onShowObserver := x; value_setter := value_setter e;
     form_owner := form_owner e |}.

(** [e.getAttribute(name)] *)
Fixpoint getAttribute (name : string) (attrs : list (string * string))
    : option string :=
  match attrs with
  | [] => None
  | (n, v) :: attrs' =>
      if String.eqb n name then Some v else getAttribute name attrs'
  end.

(** The truthiness test [if (attr)] on the result of [getAttribute]. *)
Definition nonempty_attr (a : option string) : option string :=
  match a with
  | Some s => if String.eqb s "" then None else Some s
  | None => None
  end.

Definition is_radio (e : element) : bool :=
  String.eqb (tagName e) "INPUT" && String.eqb (el_type e) "radio".

(** [a] and [e] are radio buttons of one group: they have the same form
    owner, or none, and the same non-empty [name]. *)
Definition same_radio_group (a e : element) : bool :=
  is_radio a && is_radio e
  && match form_owner a, form_owner e with
     | Some x, Some y => Nat.eqb x y
     | None, None => true
     | _, _ => false
     end
  && match getAttribute "name" (attributes a),
           getAttribute "name" (attributes e) with
     | Some n, Some m => negb (String.eqb n "") && String.eqb n m
     | _, _ => false
     end.

(** The document after [element.checked = x] on the element at position
    [i]: checking a radio button unchecks the other buttons of its
    group. *)
Definition set_checked (i : nat) (x : bool) (doc : list element)
    : list element :=
  match doc !! i with
  | None => doc
  | Some e =>
      imap (fun j a =>
              if Nat.eqb j i then with_checked x a
              else if x && same_radio_group e a then with_checked false a
              else a) doc
  end.

Fixpoint proper_prefix (p q : list nat) : bool :=
  match p, q with
  | [], _ :: _ => true
  | a :: p', b :: q' => Nat.eqb a b && proper_prefix p' q'
  | _, _ => false
  end.

Definition is_ancestor (a e : element) : bool :=
  proper_prefix (el_path a) (el_path e).

(** The selectors the library passes to [querySelector] and
    [querySelectorAll], by their syntax tree.  Type selectors are written
    with the upper-case tag name they match in an HTML document. *)
Inductive selector : Type :=
| SAttr (name : string)
| SAttrEq (name val : string)
| STag (tag : string)
| SAnd (a b : selector)
| SOr (a b : selector)
| SDesc (anc s : selector).

Fixpoint matches_simple (s : selector) (e : element) : bool :=
  match s with
  | SAttr n => match getAttribute n (attributes e) with Some _ => true | None => false end
  | SAttrEq n v =>
      match getAttribute n (attributes e) with
      | Some x => String.eqb x v
      | None => false
      end
  | STag t => String.eqb (tagName e) t
  | SAnd a b => matches_simple a e && matches_simple b e
  | SOr a b => matches_simple a e || matches_simple b e
  | SDesc _ _ => false
  end.

(** [e.matches(s)] in the document [doc]. *)
Fixpoint matches (doc : list element) (s : selector) (e : element) : bool :=
  match s with
  | SAnd a b => matches doc a e && matches doc b e
  | SOr a b => matches doc a e || matches doc b e
  | SDesc anc s' =>
      matches doc s' e
      && existsb (fun a => matches doc anc a && is_ancestor a e) doc
  | _ => matches_simple s e
  end.

(** The positions, in document order, of the elements selected by a
    selector list. *)
Fixpoint select_from (doc : list element) (sels : list selector)
    (rest : list element) (i : nat) : list nat :=
  match rest with
  | [] => []
  | e :: rest' =>
      if existsb (fun s => matches doc s e) sels
      then i :: select_from doc sels rest' (S i)
      else select_from doc sels rest' (S i)
  end.

(** [document.querySelectorAll(sels)] *)
Definition querySelectorAll (doc : list element) (sels : list selector)
    : list nat :=
  select_from doc sels doc 0.


(** [wrapper.querySelectorAll(sels)]: the selected descendants of the
    element at position [w]. *)
Definition querySelectorAll_in (doc : list element) (w : nat)
    (sels : list selector) : list nat :=
  match doc !! w with
  | None => []
  | Some a =>
      List.filter (fun i => match doc !! i with
                       | Some e => is_ancestor a e
                       | None => false
                       end)
             (querySelectorAll doc sels)
  end.

(** How the selector parser reads a text pasted between the double quotes
    of an attribute selector, as the key in [[data-bind="${key}"]].  A text
    without double quote, backslash, line break and NUL is the value that
    the attribute is compared with.  When a line break (LF, FF or CR) comes
    before any of the others, the string is not closed and the whole text
    is no selector.  Otherwise the quote or the escape changes what the
    selector is, and the parser of the platform decides. *)
Inductive pasted : Type := Plain | Broken | Other.

Fixpoint paste_chars (l : list ascii) : pasted :=
  match l with
  | [] => Plain
  | c :: l' =>
      let n := JsString.code c in
      if Nat.eqb n 10 || Nat.eqb n 12 || Nat.eqb n 13 then Broken
      else if Nat.eqb n 34 || Nat.eqb n 92 || Nat.eqb n 0 then Other
      else paste_chars l'
  end.

Definition paste (text : string) : pasted := paste_chars (JsString.chars text).

(** [[...new Set(l)]]: the first occurrence of each element is kept. *)
Fixpoint dedupe (l : list nat) (seen : list nat) : list nat :=
  match l with
  | [] => []
  | i :: l' =>
      if existsb (Nat.eqb i) seen then dedupe l' seen
      else i :: dedupe l' (i :: seen)
  end.

Definition has_class (token : string) (l : list string) : bool :=
  existsb (String.eqb token) l.

Definition is_ascii_whitespace (c : ascii) : bool :=
  let n := JsString.code c in
  Nat.eqb n 9 || Nat.eqb n 10 || Nat.eqb n 12 || Nat.eqb n 13 || Nat.eqb n 32.

(** The DOMException that [classList.toggle(token, force)] throws for a
    token that is empty or contains white space. *)
Definition token_error (token : string) : option string :=
  if String.eqb token "" then Some "SyntaxError"
  else if existsb is_ascii_whitespace (JsString.chars token)
  then Some "InvalidCharacterError"
  else None.

(** The class list after [classList.toggle(token, force)]. *)
Definition classList_toggle (token : string) (force : option bool)
    (l : list string) : list string :=
  let add := if has_class token l then l else (l ++ [token])%list in
  let del := List.filter (fun t => negb (String.eqb t token)) l in
  match force with
  | Some true => add
  | Some false => del
  | None => if has_class token l then del else add
  end.

(* ===================================================================== *)
(** ** The platform *)
(* ===================================================================== *)

(** The services of the engine that the library calls and does not define. *)
Record Platform : Type := {
  (** [JSON.parse(text)]; [None] when it throws a SyntaxError. *)
  JSON_parse : string -> option value;
  (** [JSON.stringify(o)] of the object with the given properties. *)
  JSON_stringify : obj -> string;
  (** [new RegExp(pattern).test(subject)]; [None] when the constructor
      throws a SyntaxError. *)
  RegExp_test : string -> string -> option bool;
  (** [parseFloat(text)] *)
  parseFloat : string -> float;
  (** ToNumber of a string *)
  StringToNumber : string -> float;
  (** ToString of a number *)
  Number_toString : float -> string;
  (** ToString of a function: its source text *)
  Function_toString : nat -> string;
  (** The call, without arguments, of a function kept in the store, which
      reads the store and returns a value or throws ([None]). *)
  Function_call : nat -> obj -> option value;
  (** [document.querySelectorAll(text)] for a selector text that the model
      does not read itself: the positions of the selected elements in
      document order, or [None] when the text is no selector and the call
      throws a SyntaxError. *)
  querySelectorAll_text : string -> list element -> option (list nat);
}.

Section Conversions.
Variable P : Platform.

(** ToString *)
Fixpoint ToString (v : value) : string :=
  match v with
  | VUndefined => "undefined"
  | VNull => "null"
  | VBool true => "true"
  | VBool false => "false"
  | VNum n => Number_toString P n
  | VStr s => s
  | VObject _ _ => "[object Object]"
  | VArray _ items =>
      join "," (map (fun x => if is_nullish x then "" else ToString x) items)
  | VFunction id => Function_toString P id
  end.

(** [v == s] for a string [s] *)
Definition loose_eq_string (v : value) (s : string) : bool :=
  match v with
  | VUndefined | VNull => false
  | VBool b => PrimFloat.eqb (if b then 1%float else 0%float) (StringToNumber P s)
  | VNum n => PrimFloat.eqb n (StringToNumber P s)
  | VStr t => String.eqb t s
  | VObject _ _ | VArray _ _ | VFunction _ => String.eqb (ToString v) s
  end.

(** The string stored by a DOM attribute of type DOMString that treats
    [null] as the empty string ([value]), and by a nullable one
    ([textContent]). *)
Definition dom_string (v : value) : string :=
  match v with VNull => "" | _ => ToString v end.

Definition dom_string_nullable (v : value) : string :=
  if is_nullish v then "" else ToString v.

End Conversions.

(* ===================================================================== *)
(** ** The world and the effect monad *)
(* ===================================================================== *)

Inductive build : Type := Standalone | UMD.

(** The callbacks handed to [requestAnimationFrame]. *)
Inductive frame_task : Type :=
| InitialRender
| UpdateVisibility
| UpdateClasses
| TrackOnShowElements.

(** The listeners the library registers while the store is constructed. *)
Inductive handler : Type :=
| BindInputs
| BeforeInstallPrompt
| AppInstalled
| TrackInteraction
| RegisterOnLoad.

(** What the library does to its surroundings, most recent first. *)
Inductive event : Type :=
| GetItem (key : string)
| SetItem (key val : string)
| ConsoleError (msg : string) (args : list value)
| ConsoleLog (msg : string)
| ConsoleWarn (msg : string)
| RequestAnimationFrame (t : frame_task)
| ScrollTo (x y : Z)
| PushState (path : string)
| ReplaceState (path : string)
| Callback (id : nat) (arg : value)
| RegisterServiceWorker (url : string)
| PreventDefault.

Inductive exn : Type :=
| SyntaxError
| TypeError
| ReferenceError
| DOMException (name : string)
| Thrown.

(** [target] is the object behind the proxy [State.data]; [instance] tells
    whether [StateSingleton.instance] is set, and [State_const] whether the
    constant [State] is initialised, which it is once the statement
    [const State = new StateSingleton()] has completed; [subscribers] maps
    a key to the identities of the callbacks subscribed to it; [pathname]
    and [hash] are those of [window.location]; [deferredPrompt] is
    [window.deferredPrompt]; [interactionCount] is the counter of
    [trackUserEngagement]; [display_standalone], [serviceWorker] and
    [enablePWA] are the answers of the browser to the tests of [initPWA]. *)
Record World : Type := {
  instance : bool;
  State_const : bool;
  target : obj;
  subscribers : gmap string (list nat);
  localStorage : gmap string string;
  document : list element;
  listeners : list (string * handler);
  pathname : string;
  hash : string;
  deferredPrompt : option value;
  interactionCount : float;
  display_standalone : bool;
  serviceWorker : bool;
  enablePWA : bool;
  trace : list event;
}.

Definition set_instance (x : bool) (w : World) : World :=
  {| instance := x; State_const := State_const w; target := target w;
     subscribers := subscribers w; localStorage := localStorage w;
     document := document w; listeners := listeners w;
     pathname := pathname w; hash := hash w;
     deferredPrompt := deferredPrompt w;
     interactionCount := interactionCount w;
     display_standalone := display_standalone w;
     serviceWorker := serviceWorker w; enablePWA := enablePWA w;
     trace := trace w |}.

Definition set_State_const (x : bool) (w : World) : World :=
  {| instance := instance w; State_const := x; target := target w;
     subscribers := subscribers w; localStorage := localStorage w;
     document := document w; listeners := listeners w;
     pathname := pathname w; hash := hash w;
     deferredPrompt := deferredPrompt w;
     interactionCount := interactionCount w;
     display_standalone := display_standalone w;
     serviceWorker := serviceWorker w; enablePWA := enablePWA w;
     trace := trace w |}.

Definition set_target (x : obj) (w : World) : World :=
  {| instance := instance w; State_const := State_const w; target := x;
     subscribers := subscribers w; localStorage := localStorage w;
     document := document w; listeners := listeners w;
     pathname := pathname w; hash := hash w;
     deferredPrompt := deferredPrompt w;
     interactionCount := interactionCount w;
     display_standalone := display_standalone w;
     serviceWorker := serviceWorker w; enablePWA := enablePWA w;
     trace := trace w |}.

Definition set_subscribers (x : gmap string (list nat)) (w : World) : World :=
  {| instance := instance w; State_const := State_const w;
     target := target w; subscribers := x; localStorage := localStorage w;
     document := document w; listeners := listeners w;
     pathname := pathname w; hash := hash w;
     deferredPrompt := deferredPrompt w;
     interactionCount := interactionCount w;
     display_standalone := display_standalone w;
     serviceWorker := serviceWorker w; enablePWA := enablePWA w;
     trace := trace w |}.

Definition set_localStorage (x : gmap string string) (w : World) : World :=
  {| instance := instance w; State_const := State_const w;
     target := target w; subscribers := subscribers w; localStorage := x;
     document := document w; listeners := listeners w;
     pathname := pathname w; hash := hash w;
     deferredPrompt := deferredPrompt w;
     interactionCount := interactionCount w;
     display_standalone := display_standalone w;
     serviceWorker := serviceWorker w; enablePWA := enablePWA w;
     trace := trace w |}.

Definition set_document (x : list element) (w : World) : World :=
  {| instance := instance w; State_const := State_const w;
     target := target w; subscribers := subscribers w;
     localStorage := localStorage w; document := x; listeners := listeners w;
     pathname := pathname w; hash := hash w;
     deferredPrompt := deferredPrompt w;
     interactionCount := interactionCount w;
     display_standalone := display_standalone w;
     serviceWorker := serviceWorker w; enablePWA := enablePWA w;
     trace := trace w |}.

Definition set_listeners (x : list (string * handler)) (w : World) : World :=
  {| instance := instance w; State_const := State_const w;
     target := target w; subscribers := subscribers w;
     localStorage := localStorage w; document := document w; listeners := x;
     pathname := pathname w; hash := hash w;
     deferredPrompt := deferredPrompt w;
     interactionCount := interactionCount w;
     display_standalone := display_standalone w;
     serviceWorker := serviceWorker w; enablePWA := enablePWA w;
     trace := trace w |}.

Definition set_deferredPrompt (x : option value) (w : World) : World :=
  {| instance := instance w; State_const := State_const w;
     target := target w; subscribers := subscribers w;
     localStorage := localStorage w; document := document w;
     listeners := listeners w; pathname := pathname w; hash := hash w;
     deferredPrompt := x; interactionCount := interactionCount w;
     display_standalone := display_standalone w;
     serviceWorker := serviceWorker w; enablePWA := enablePWA w;
     trace := trace w |}.

Definition set_interactionCount (x : float) (w : World) : World :=
  {| instance := instance w; State_const := State_const w;
     target := target w; subscribers := subscribers w;
     localStorage := localStorage w; document := document w;
     listeners := listeners w; pathname := pathname w; hash := hash w;
     deferredPrompt := deferredPrompt w; interactionCount := x;
     display_standalone := display_standalone w;
     serviceWorker := serviceWorker w; enablePWA := enablePWA w;
     trace := trace w |}.

Definition set_trace (x : list event) (w : World) : World :=
  {| instance := instance w; State_const := State_const w;
     target := target w; subscribers := subscribers w;
     localStorage := localStorage w; document := document w;
     listeners := listeners w; pathname := pathname w; hash := hash w;
     deferredPrompt := deferredPrompt w;
     interactionCount := interactionCount w;
     display_standalone := display_standalone w;
     serviceWorker := serviceWorker w; enablePWA := enablePWA w;
     trace := x |}.

Definition set_location (p h : string) (w : World) : World :=
  {| instance := instance w; State_const := State_const w;
     target := target w; subscribers := subscribers w;
     localStorage := localStorage w; document := document w;
     listeners := listeners w; pathname := p; hash := h;
     deferredPrompt := deferredPrompt w;
     interactionCount := interactionCount w;
     display_standalone := display_standalone w;
     serviceWorker := serviceWorker w; enablePWA := enablePWA w;
     trace := trace w |}.

(** A computation returns a result or throws; either way it hands back the
    world it reached. *)
Inductive outcome (A : Type) : Type :=
| Ok (a : A) (w : World)
| Throw (e : exn) (w : World).
Arguments Ok {A} a w.
Arguments Throw {A} e w.

Definition M (A : Type) : Type := World -> outcome A.

Definition world_of {A : Type} (o : outcome A) : World :=
  match o with Ok _ w => w | Throw _ w => w end.

Definition ret {A : Type} (a : A) : M A := fun w => Ok a w.

Definition bind {A B : Type} (m : M A) (f : A -> M B) : M B :=
  fun w => match m w with
           | Ok a w' => f a w'
           | Throw e w' => Throw e w'
           end.

Definition throw {A : Type} (e : exn) : M A := fun w => Throw e w.

(** [try { m } catch (e) { h e }] *)
Definition try_catch {A : Type} (m : M A) (h : exn -> M A) : M A :=
  fun w => match m w with
           | Ok a w' => Ok a w'
           | Throw e w' => h e w'
           end.

Notation "'let*' x ':=' m 'in' k" := (bind m (fun x => k))
  (at level 10, x name, m at level 100, k at level 200).
Notation "m ';;' k" := (bind m (fun _ => k))
  (at level 100, k at level 200, right associativity).

(** [l.forEach(f)] *)
Fixpoint forEach {A : Type} (l : list A) (f : A -> M unit) : M unit :=
  match l with
  | [] => ret tt
  | x :: l' => f x ;; forEach l' f
  end.

(** [l.some(f)] *)
Fixpoint some {A : Type} (l : list A) (f : A -> M bool) : M bool :=
  match l with
  | [] => ret false
  | x :: l' => let* r := f x in if r then ret true else some l' f
  end.

(** [l.every(f)] *)
Fixpoint every {A : Type} (l : list A) (f : A -> M bool) : M bool :=
  match l with
  | [] => ret true
  | x :: l' => let* r := f x in if r then every l' f else ret false
  end.

Definition when (c : bool) (m : M unit) : M unit := if c then m else ret tt.

Definition gets {A : Type} (f : World -> A) : M A := fun w => Ok (f w) w.

Definition modify (f : World -> World) : M unit := fun w => Ok tt (f w).

Definition emit (e : event) : M unit :=
  modify (fun w => set_trace (e :: trace w) w).

Definition requestAnimationFrame (t : frame_task) : M unit :=
  emit (RequestAnimationFrame t).

(** [localStorage.getItem(key)] *)
Definition getItem (key : string) : M value :=
  emit (GetItem key) ;;
  let* ls := gets localStorage in
  ret (match ls !! key with Some s => VStr s | None => VNull end).

(** [localStorage.setItem(key, val)] *)
Definition setItem (key val : string) : M unit :=
  emit (SetItem key val) ;;
  modify (fun w => set_localStorage (<[key := val]> (localStorage w)) w).

(** [target[key] = v] on the object behind the proxy. *)
Definition assign (key : string) (v : value) : M unit :=
  modify (fun w => set_target (put (target w) key v) w).

(** Changes, in place, the element at a position of the document. *)
Definition update_element (i : nat) (f : element -> element) : M unit :=
  modify (fun w => set_document (alter f i (document w)) w).

(** [elements.forEach(f)] for the elements at the positions [l] *)
Definition forEach_element (l : list nat) (f : nat -> element -> M unit)
    : M unit :=
  forEach l
    (fun i => let* doc' := gets document in
              match doc' !! i with
              | Some e => f i e
              | None => ret tt
              end).

(** [document.querySelectorAll(sels).forEach(f)] *)
Definition forEach_selected (sels : list selector)
    (f : nat -> element -> M unit) : M unit :=
  let* doc := gets document in
  forEach (querySelectorAll doc sels)
    (fun i => let* doc' := gets document in
              match doc' !! i with
              | Some e => f i e
              | None => ret tt
              end).

(** [element.value = text] on the element [e] at position [i] *)
Definition assign_value (i : nat) (e : element) (text : string) : M unit :=
  match value_setter e text with
  | Some kept => update_element i (with_value (VStr kept))
  | None => throw (DOMException "InvalidStateError")
  end.

(** [element.checked = x] on the element at position [i] *)
Definition assign_checked (i : nat) (x : bool) : M unit :=
  modify (fun w => set_document (set_checked i x (document w)) w).

(** [element.classList.toggle(token, force)] on the element at [i]. *)
Definition toggle (i : nat) (token : string) (force : option bool) : M unit :=
  match token_error token with
  | Some name => throw (DOMException name)
  | None =>
      update_element i
        (fun e => with_classList (classList_toggle token force (classList e)) e)
  end.

(** Calls a function the page supplied, with the store as it is. *)
Definition call_user (f : obj -> option value) : M value :=
  let* r := gets (fun w => f (target w)) in
  match r with
  | Some v => ret v
  | None => throw Thrown
  end.

(* ===================================================================== *)
(** ** The library *)
(* ===================================================================== *)

Section Library.
Variable P : Platform.

(** [get(key) { return this.data[key]; }] *)
Definition State_get (key : string) : M value :=
  gets (fun w => get (target w) key).

(** The constant [State], read by a function that can run before the
    statement [const State = new StateSingleton()] has completed:
    [evaluateCondition] and [updateClasses] are called by the constructor's
    own write of [route], by the listener that [bindInputs] installs and by
    the animation frames that [updateDOM] requests.  Until the constant is
    initialised, reading it throws a ReferenceError.  ([h], [navigate], the
    listeners of the router, [validate] and [resetValidation] come into
    being after that statement, so that the constant is initialised
    whenever they run.) *)
Definition State_ref : M unit :=
  let* initialised := gets State_const in
  if initialised then ret tt else throw ReferenceError.

(** [State.get(key)] in such a function *)
Definition checked_State_get (key : string) : M value :=
  State_ref ;; State_get key.

(** The [set] trap of the proxy made by [reactive(obj, callback)]. *)
Definition reactive (callback : string -> value -> M unit)
    (key : string) (v : value) : M unit :=
  let* current := State_get key in
  if strict_eq current v then ret tt
  else assign key v ;; callback key v.

(** *** Conditions *)

Definition route_or_empty (v : value) : string :=
  if truthy v then ToString P v else "".

(** [State.get("route").startsWith(x)] and the like in the standalone
    build: a route that is not a string has no such method. *)
Definition route_method (v : value) (f : string -> bool) : M bool :=
  match v with
  | VStr r => ret (f r)
  | _ => throw TypeError
  end.

Definition compare_numbers (op : float -> float -> bool) (stateValue : value)
    (expectedValue : string) : bool :=
  op (parseFloat P (ToString P stateValue)) (parseFloat P expectedValue).

Definition evaluateSingleCondition (b : build) (condition : string) : M bool :=
  if JsString.startsWith condition "!" then
    let* v := checked_State_get (JsString.trim (JsString.substring_from 1 condition)) in
    ret (negb (truthy v))
  else if JsString.startsWith condition "route~=" then
    let arg := JsString.trim (JsString.replace_first condition "route~=" "") in
    let* route := checked_State_get "route" in
    match b with
    | Standalone => route_method route (fun r => JsString.startsWith r arg)
    | UMD => ret (JsString.startsWith (route_or_empty route) arg)
    end
  else if JsString.startsWith condition "route==" then
    let expectedRoute :=
      JsString.trim (JsString.replace_first condition "route==" "") in
    let* route := checked_State_get "route" in
    let f := fun currentRoute =>
      String.eqb currentRoute expectedRoute
      || JsString.startsWith currentRoute (expectedRoute ++ "#") in
    match b with
    | Standalone => route_method route f
    | UMD => ret (f (route_or_empty route))
    end
  else if JsString.startsWith condition "route!=" then
    let expectedRoute :=
      JsString.trim (JsString.replace_first condition "route!=" "") in
    let* route := checked_State_get "route" in
    let f := fun currentRoute =>
      negb (String.eqb currentRoute expectedRoute)
      && negb (JsString.startsWith currentRoute (expectedRoute ++ "#")) in
    match b with
    | Standalone => route_method route f
    | UMD => ret (f (route_or_empty route))
    end
  else if JsString.startsWith condition "route#=" then
    let expectedRoute :=
      JsString.trim (JsString.replace_first condition "route#=" "") in
    let* route := checked_State_get "route" in
    let f := fun currentRoute =>
      JsString.includes currentRoute "#"
      && JsString.startsWith currentRoute (expectedRoute ++ "#") in
    match b with
    | Standalone =>
        match route with
        | VArray _ items =>
            (* an array has [includes] and no [startsWith] *)
            if existsb (strict_eq (VStr "#")) items then throw TypeError
            else ret false
        | _ => route_method route f
        end
    | UMD => ret (f (route_or_empty route))
    end
  else if negb (Regex.test re_operator_char condition) then
    let* v := checked_State_get condition in
    ret (truthy v)
  else
    let '(stateKey, operator, expectedValue) := parseCondition condition in
    let* stateValue := checked_State_get (JsString.trim stateKey) in
    if String.eqb operator "matches" then
      let regexPattern :=
        Regex.delete_all re_slashes (JsString.trim expectedValue) in
      match RegExp_test P regexPattern (ToString P stateValue) with
      | Some m => ret m
      | None =>
          match b with
          | Standalone =>
              emit (ConsoleError "Invalid regex in class-if condition:"
                      [VStr expectedValue]) ;;
              ret false
          | UMD => ret false
          end
      end
    else if String.eqb operator "==" then
      ret (loose_eq_string P stateValue (JsString.trim expectedValue))
    else if String.eqb operator "!=" then
      ret (negb (loose_eq_string P stateValue (JsString.trim expectedValue)))
    else if String.eqb operator "~=" then
      ret (match stateValue with
           | VStr s => JsString.includes s (JsString.trim expectedValue)
           | _ => false
           end)
    else if String.eqb operator ">" then
      ret (compare_numbers (fun x y => PrimFloat.ltb y x) stateValue expectedValue)
    else if String.eqb operator "<" then
      ret (compare_numbers PrimFloat.ltb stateValue expectedValue)
    else if String.eqb operator ">=" then
      ret (compare_numbers (fun x y => PrimFloat.leb y x) stateValue expectedValue)
    else if String.eqb operator "<=" then
      ret (compare_numbers PrimFloat.leb stateValue expectedValue)
    else ret false.

Definition evaluateCondition (b : build) (condition : string) : M bool :=
  some (Regex.split re_or condition) (fun orPart =>
    every (Regex.split re_and orPart) (fun andPart =>
      evaluateSingleCondition b (JsString.trim andPart))).

(** *** Keeping the document in sync *)

Definition is_form_control (e : element) : bool :=
  String.eqb (tagName e) "INPUT" || String.eqb (tagName e) "TEXTAREA"
  || String.eqb (tagName e) "SELECT".

(** [value || ''] in the standalone build, [value ?? ''] in the other. *)
Definition value_or_empty (b : build) (v : value) : value :=
  match b with
  | Standalone => if truthy v then v else VStr ""
  | UMD => if is_nullish v then VStr "" else v
  end.

(** [document.querySelectorAll(text)] for the selector [text] that a
    template builds by pasting [val] between the quotes of an attribute
    selector; [sels] is the selector that the text is when [val] is plain.
    [None] stands for the SyntaxError of a text that is no selector. *)
Definition pasted_query (val text : string) (sels : list selector)
    (doc : list element) : option (list nat) :=
  match paste val with
  | Plain => Some (querySelectorAll doc sels)
  | Broken => None
  | Other => querySelectorAll_text P text doc
  end.

(** The body of the loop of [updateDOM], on the element [e] at position
    [i]. *)
Definition updateDOM_write (b : build) (v : value) (i : nat) (e : element)
    : M unit :=
  if is_form_control e then
    if String.eqb (el_type e) "checkbox" then assign_checked i (truthy v)
    else if String.eqb (el_type e) "radio"
    then assign_checked i (strict_eq (el_value e) v)
    else assign_value i e (dom_string P (value_or_empty b v))
  else update_element i (with_textContent (dom_string_nullable P v)).

Definition updateDOM (b : build) (key : string) (v : value) : M unit :=
  let* doc := gets document in
  match pasted_query key ("[data-bind=" ++ JsString.quoted key ++ "]")
          [SAttrEq "data-bind" key] doc with
  | None => throw (DOMException "SyntaxError")
  | Some elements =>
      forEach_element elements (updateDOM_write b v) ;;
      requestAnimationFrame UpdateVisibility ;;
      requestAnimationFrame UpdateClasses
  end.

Definition updateVisibility (b : build) : M unit :=
  forEach_selected [SAttr "show-if"] (fun i e =>
    let condition := getAttribute "show-if" (attributes e) in
    let* shouldShow :=
      match showIf e with
      | Some f => let* r := call_user f in ret (truthy r)
      | None =>
          match nonempty_attr condition with
          | Some c => evaluateCondition b (JsString.trim c)
          | None => ret false
          end
      end in
    update_element i (with_display (if shouldShow then "" else "none"))) ;;
  requestAnimationFrame TrackOnShowElements.

(** One rule of a [class-if] attribute, on the element at position [i]. *)
Definition apply_class_rule (b : build) (i : nat) (rule : string) : M unit :=
  if JsString.includes rule "?" then
    let parts := map JsString.trim (JsString.split rule "?") in
    let condition := nth 0 parts "" in
    let classes := nth 1 parts "" in
    let names := map JsString.trim (JsString.split classes ":") in
    let trueClass := nth 0 names "" in
    let falseClass := names !! 1 in
    let* m := evaluateCondition b condition in
    match b with
    | Standalone => toggle i trueClass (Some m)
    | UMD => when (negb (String.eqb trueClass "")) (toggle i trueClass (Some m))
    end ;;
    match nonempty_attr falseClass with
    | Some c => toggle i c (Some (negb m))
    | None => ret tt
    end
  else if JsString.includes rule ":" then
    let parts := map JsString.trim (JsString.split rule ":") in
    let stateKey := nth 0 parts "" in
    let className := nth 1 parts "" in
    let* m := checked_State_get stateKey in
    toggle i className (Some (truthy m))
  else ret tt.

Definition class_rules (b : build) (attr : string) : list string :=
  let rules := map JsString.trim (JsString.split attr ";") in
  match b with
  | Standalone => rules
  | UMD => List.filter (fun r => negb (String.eqb r "")) rules
  end.

Definition updateClasses (b : build) : M unit :=
  forEach_selected [SAttr "class-if"] (fun i e =>
    match getAttribute "class-if" (attributes e) with
    | Some attr => forEach (class_rules b attr) (apply_class_rule b i)
    | None => ret tt
    end).

Definition trackOnShowElements : M unit :=
  forEach_selected [SAttr "onshow"] (fun i e =>
    when (negb (onShowObserver e))
      (update_element i (with_onShowObserver true))).

(** *** The store *)

(** [StateSingleton.updateLocalStorage], the callback of [State.data]. *)
Definition updateLocalStorage (b : build) (key : string) (v : value) : M unit :=
  let write :=
    let* data := gets target in
    setItem "state" (JSON_stringify P data) in
  match b with
  | Standalone => write
  | UMD => try_catch write (fun _ => ret tt)
  end ;;
  updateDOM b key v ;;
  updateVisibility b ;;
  updateClasses b.

(** [State.data[key] = v] *)
Definition data_set (b : build) (key : string) (v : value) : M unit :=
  reactive (updateLocalStorage b) key v.

(** [State.set(properties)].  [this.subscribers] is a plain object: under
    a name of [Object.prototype] that has no list of its own, it reads as
    the inherited member, which is truthy and has no [forEach]. *)
Definition State_set (b : build) (properties : obj) : M unit :=
  forEach properties (fun kv =>
    data_set b (fst kv) (snd kv) ;;
    let* subs := gets subscribers in
    match subs !! fst kv with
    | Some callbacks => forEach callbacks (fun cb => emit (Callback cb (snd kv)))
    | None => when (truthy (inherited (fst kv))) (throw TypeError)
    end) ;;
  requestAnimationFrame UpdateVisibility ;;
  requestAnimationFrame UpdateClasses.

(** [State.subscribe(key, callback)] and the function it returns.
    [this.subscribers] is a plain object: under a name of
    [Object.prototype] that has no list of its own, it reads as the
    inherited member, which is truthy and has no [push]. *)
Definition State_subscribe (key : string) (callback : nat) : M unit :=
  let* subs := gets subscribers in
  match subs !! key with
  | Some l => modify (set_subscribers (<[key := (l ++ [callback])%list]> subs))
  | None =>
      if truthy (inherited key) then throw TypeError
      else modify (set_subscribers (<[key := [callback]]> subs))
  end ;;
  let* v := State_get key in
  emit (Callback callback v).

Definition State_unsubscribe (key : string) (callback : nat) : M unit :=
  let* subs := gets subscribers in
  match subs !! key with
  | Some l =>
      modify (set_subscribers
                (<[key := List.filter (fun cb => negb (Nat.eqb cb callback)) l]> subs))
  | None => throw TypeError
  end.

(** The call [this.data[key]()] of a function kept in the store. *)
Definition call_function (id : nat) : M value :=
  call_user (Function_call P id).

(** The tokens of a [class] attribute. *)
Fixpoint class_tokens_chars (cur : list ascii) (s : list ascii) : list string :=
  let flush := match cur with
               | [] => []
               | _ => [JsString.of_chars (rev cur)]
               end in
  match s with
  | [] => flush
  | c :: s' =>
      if is_ascii_whitespace c then (flush ++ class_tokens_chars [] s')%list
      else class_tokens_chars (c :: cur) s'
  end.

Fixpoint first_occurrences (l seen : list string) : list string :=
  match l with
  | [] => []
  | t :: l' =>
      if has_class t seen then first_occurrences l' seen
      else t :: first_occurrences l' (t :: seen)
  end.

Definition class_tokens (s : string) : list string :=
  first_occurrences (class_tokens_chars [] (JsString.chars s)) [].

(** [State.reset(initialState)] *)
Definition State_reset (b : build) (initialState : obj) : M unit :=
  modify (fun w => set_subscribers ∅ (set_target [] w)) ;;
  forEach initialState (fun kv => data_set b (fst kv) (snd kv)) ;;
  forEach_selected [SAttr "data-bind"; SAttr "show-if"; SAttr "class-if"]
    (fun i e =>
       let bindKey := nonempty_attr (getAttribute "data-bind" (attributes e)) in
       let showIf := nonempty_attr (getAttribute "show-if" (attributes e)) in
       let classIf := nonempty_attr (getAttribute "class-if" (attributes e)) in
       match bindKey with
       | Some key =>
           let initial := get initialState key in
           let text := dom_string P (if truthy initial then initial else VStr "") in
           if String.eqb (tagName e) "INPUT" then
             if String.eqb (el_type e) "checkbox" || String.eqb (el_type e) "radio"
             then assign_checked i (truthy initial)
             else assign_value i e text
           else if String.eqb (tagName e) "TEXTAREA" || String.eqb (tagName e) "SELECT"
           then assign_value i e text
           else update_element i
                  (with_textContent
                     (dom_string_nullable P (if truthy initial then initial else VStr "")))
       | None => ret tt
       end ;;
       match showIf with
       | Some key =>
           let* f := State_get key in
           match f with
           | VFunction id =>
               let* r := call_function id in
               update_element i (with_display (if truthy r then "" else "none"))
           | _ => ret tt
           end
       | None => ret tt
       end ;;
       match classIf with
       | Some key =>
           let* f := State_get key in
           match f with
           | VFunction id =>
               let* r := call_function id in
               update_element i
                 (with_classList
                    (class_tokens (dom_string P (if truthy r then r else VStr ""))))
           | _ => ret tt
           end
       | None => ret tt
       end).

(** *** Construction *)

(** The index-keyed properties of an array. *)
Fixpoint array_props (items : list value) (i : nat) : obj :=
  match items with
  | [] => []
  | v :: items' => (pretty i, v) :: array_props items' (S i)
  end.

Definition addEventListener (type : string) (h : handler) : M unit :=
  modify (fun w => set_listeners (listeners w ++ [(type, h)])%list w).

(** [checkPWAStatus] builds a record of browser facts and drops it. *)
Definition checkPWAStatus : M unit := ret tt.

Definition checkForExistingPrompt (b : build) : M unit :=
  let* d := gets deferredPrompt in
  match d with
  | Some e =>
      when (truthy e)
        (data_set b "pwaInstallPrompt" e ;;
         data_set b "showInstallButton" (VBool true))
  | None => ret tt
  end.

Definition initPWA (b : build) : M unit :=
  let* standalone := gets display_standalone in
  let* sw := gets serviceWorker in
  match b with
  | Standalone =>
      if standalone then data_set b "showInstallButton" (VBool false)
      else
        (if sw then emit (RegisterServiceWorker "/sw.js") else checkPWAStatus) ;;
        addEventListener "beforeinstallprompt" BeforeInstallPrompt ;;
        addEventListener "appinstalled" AppInstalled ;;
        checkForExistingPrompt b
  | UMD =>
      let* enabled := gets enablePWA in
      if negb enabled then ret tt
      else
        when standalone (data_set b "showInstallButton" (VBool false)) ;;
        addEventListener "beforeinstallprompt" BeforeInstallPrompt ;;
        addEventListener "appinstalled" AppInstalled ;;
        when sw (addEventListener "load" RegisterOnLoad)
  end.

Definition trackUserEngagement : M unit :=
  modify (set_interactionCount 0%float) ;;
  addEventListener "click" TrackInteraction ;;
  addEventListener "scroll" TrackInteraction ;;
  addEventListener "keydown" TrackInteraction.

(** [bindInputs(data)] *)
Definition bindInputs : M unit := addEventListener "change" BindInputs.

(** [JSON.parse(localStorage.getItem("state")) || {}] *)
Definition parse_stored : M value :=
  let* item := getItem "state" in
  match JSON_parse P (ToString P item) with
  | Some v => ret (if truthy v then v else VObject 0 [])
  | None => throw SyntaxError
  end.

(** The properties of the value that receives [pwaInstallPrompt] and
    [showInstallButton]; a primitive cannot take a property in strict
    code. *)
Definition writable_props (storedData : value) : M obj :=
  match storedData with
  | VObject _ props => ret props
  | VArray _ items => ret (array_props items 0)
  | VFunction _ => ret []
  | _ => throw TypeError
  end.

(** The statement [let storedData = ...] of the constructor, which only the
    other build wraps in [try] and [catch]. *)
Definition initial_storedData (b : build) : M value :=
  match b with
  | Standalone => parse_stored
  | UMD => try_catch parse_stored (fun _ => ret (VObject 0 []))
  end.

(** The name [reactive], as the constructor reads it.  The standalone
    file assigns the function to [window.reactive] near its end, after the
    statement that constructs the store: when the constructor runs, the
    name is not defined.  The other file declares the function at its
    top. *)
Definition reactive_ref (b : build) : M unit :=
  match b with
  | Standalone => throw ReferenceError
  | UMD => ret tt
  end.

(** [new StateSingleton()] *)
Definition StateSingleton_constructor (b : build) : M unit :=
  let* exists_ := gets instance in
  if exists_ then ret tt
  else
    let* storedData := initial_storedData b in
    let* props := writable_props storedData in
    reactive_ref b ;;
    modify (set_target
              (put (put props "pwaInstallPrompt" VNull)
                   "showInstallButton" (VBool false))) ;;
    bindInputs ;;
    modify (fun w => set_instance true (set_subscribers ∅ w)) ;;
    let* p := gets pathname in
    let* h := gets hash in
    data_set b "route" (VStr (p ++ h)) ;;
    initPWA b ;;
    match b with Standalone => trackUserEngagement | UMD => ret tt end ;;
    requestAnimationFrame InitialRender.

(** [const State = new StateSingleton()] *)
Definition initialise_State (b : build) : M unit :=
  StateSingleton_constructor b ;;
  modify (set_State_const true).

(** *** The router *)

(** [path.split('#')] and the full path rebuilt from its first two
    pieces. *)
Definition split_path (path : string) : string * option string :=
  let parts := JsString.split path "#" in
  (nth 0 parts "", parts !! 1).

Definition fullPath_of (path : string) : string :=
  match split_path path with
  | (pathname, Some h) =>
      if String.eqb h "" then pathname else pathname ++ "#" ++ h
  | (pathname, None) => pathname
  end.

Definition has_hash (path : string) : bool :=
  match snd (split_path path) with
  | Some h => negb (String.eqb h "")
  | None => false
  end.

(** [{ route: fullPath, ...stateToSet }] *)
Definition route_and (fullPath : string) (stateToSet : obj) : obj :=
  fold_left (fun o kv => put o (fst kv) (snd kv)) stateToSet
    [("route", VStr fullPath)].

(** The text that [navigate] splits: [path] itself in the standalone
    build, where only a string has a [split] method, and [String(path)] in
    the other. *)
Definition path_text (b : build) (path : value) : option string :=
  match b with
  | Standalone => match path with VStr s => Some s | _ => None end
  | UMD => Some (ToString P path)
  end.

(** [navigate(path, options, replace)] *)
Definition navigate (b : build) (path options : value) (replace : bool) : M unit :=
  let* text :=
    match path_text b path with
    | Some s => ret s
    | None => throw TypeError
    end in
  let fullPath := fullPath_of text in
  let* route := State_get "route" in
  if strict_eq (VStr fullPath) route then ret tt
  else
    let '(stateToSet, shouldReplace) :=
      match options with
      | VObject _ props => (props, replace)
      | VArray _ items => (array_props items 0, replace)
      | VBool r => ([], r)
      | _ => ([], false)
      end in
    State_set b (route_and fullPath stateToSet) ;;
    when (negb (has_hash text)) (emit (ScrollTo 0 0)) ;;
    let history :=
      if shouldReplace then emit (ReplaceState fullPath)
      else emit (PushState fullPath) in
    match b with
    | Standalone => history
    | UMD => try_catch history (fun _ => ret tt)
    end.

(** *** Group validation *)

Definition form_tags : list selector :=
  [STag "INPUT"; STag "SELECT"; STag "TEXTAREA"].

(** The fields of a group, as both [validate] and [resetValidation]
    collect them with three selectors into which the name of the group is
    pasted; [None] when one of the three is no selector. *)
Definition collect_fields (doc : list element) (groupName : string)
    : option (list nat) :=
  let group := "[group=" ++ JsString.quoted groupName ++ "]" in
  match pasted_query groupName group [SAttrEq "group" groupName] doc with
  | None => None
  | Some wrappers =>
      let wrapperFields :=
        match head wrappers with
        | Some w => querySelectorAll_in doc w form_tags
        | None => []
        end in
      match pasted_query groupName (group ++ ":is(input, select, textarea)")
              [SAnd (SAttrEq "group" groupName)
                    (SOr (STag "INPUT") (SOr (STag "SELECT") (STag "TEXTAREA")))]
              doc with
      | None => None
      | Some directFields =>
          match pasted_query groupName (group ++ " input, select, textarea")
                  [SDesc (SAttrEq "group" groupName) (STag "INPUT");
                   STag "SELECT"; STag "TEXTAREA"] doc with
          | None => None
          | Some extraInside =>
              Some (dedupe (wrapperFields ++ directFields ++ extraInside)%list [])
          end
      end
  end.

Definition group_fields (doc : list element) (groupName : string) : list nat :=
  match collect_fields doc groupName with
  | Some fields => fields
  | None => []
  end.

(** The SyntaxError of [querySelector] or [querySelectorAll] when the
    name of the group makes one of the selectors a text that is none. *)
Definition selectors_of_group (groupName : string) : M unit :=
  let* doc := gets document in
  match collect_fields doc groupName with
  | Some _ => ret tt
  | None => throw (DOMException "SyntaxError")
  end.

Definition has_validIf (doc : list element) (i : nat) : bool :=
  match doc !! i with
  | Some e => match validIf e with Some _ => true | None => false end
  | None => false
  end.

Definition validate_fields (doc : list element) (groupName : string) : list nat :=
  List.filter (has_validIf doc) (group_fields doc groupName).

Definition resetValidation_fields (doc : list element) (groupName : string)
    : list nat :=
  group_fields doc groupName.

Fixpoint foldM {A S : Type} (l : list A) (f : S -> A -> M S) (s : S) : M S :=
  match l with
  | [] => ret s
  | x :: l' => let* s' := f s x in foldM l' f s'
  end.

(** [validate(groupName)] *)
Definition validate (b : build) (groupName : string) : M bool :=
  selectors_of_group groupName ;;
  let* doc := gets document in
  let* r :=
    foldM (validate_fields doc groupName)
      (fun (acc : bool * obj) i =>
         let '(allValid, states) := acc in
         let* doc' := gets document in
         match doc' !! i with
         | None => ret acc
         | Some field =>
             match validIf field,
                   nonempty_attr (getAttribute "data-bind" (attributes field)) with
             | Some fn, Some bindKey =>
                 try_catch
                   (let* isValid := call_user fn in
                    toggle i "valid"
                      (match isValid with
                       | VUndefined => None
                       | _ => Some (truthy isValid)
                       end) ;;
                    toggle i "invalid" (Some (negb (truthy isValid))) ;;
                    let states1 := put states (bindKey ++ "_valid") isValid in
                    let states2 :=
                      put states1 (bindKey ++ "_invalid")
                        (VBool (negb (truthy isValid))) in
                    ret (allValid && truthy isValid, states2))
                   (fun _ =>
                      match b with
                      | Standalone =>
                          emit (ConsoleError "Error executing valid-if function:" [])
                      | UMD => ret tt
                      end ;;
                      ret (false, states))
             | _, _ => ret acc
             end
         end)
      (true, []) in
  let '(allValid, states) := r in
  State_set b states ;;
  State_set b [(groupName ++ "_valid", VBool allValid);
               (groupName ++ "_invalid", VBool (negb allValid))] ;;
  ret allValid.

(** [resetValidation(groupName)] *)
Definition resetValidation (b : build) (groupName : string) : M unit :=
  selectors_of_group groupName ;;
  let* doc := gets document in
  let* states :=
    foldM (resetValidation_fields doc groupName)
      (fun (states : obj) i =>
         let* doc' := gets document in
         match doc' !! i with
         | None => ret states
         | Some field =>
             match nonempty_attr (getAttribute "data-bind" (attributes field)) with
             | Some bindKey =>
                 update_element i
                   (fun e =>
                      with_classList
                        (List.filter
                           (fun t => negb (String.eqb t "valid" || String.eqb t "invalid"))
                           (classList e)) e) ;;
                 ret (put (put states (bindKey ++ "_valid") VUndefined)
                          (bindKey ++ "_invalid") VUndefined)
             | None => ret states
             end
         end)
      [] in
  State_set b states ;;
  State_set b [(groupName ++ "_valid", VUndefined);
               (groupName ++ "_invalid", VUndefined)].

(** *** Listeners and animation frames *)

Definition bound_value (e : element) : value :=
  if String.eqb (el_type e) "checkbox" then VBool (checked e) else el_value e.

(** The [change] listener installed by [bindInputs], for an event whose
    target is the element at position [i]. *)
Definition on_change (b : build) (i : nat) : M unit :=
  let* doc := gets document in
  match doc !! i with
  | None => ret tt
  | Some target =>
      match nonempty_attr (getAttribute "data-bind" (attributes target)) with
      | None => ret tt
      | Some key =>
          data_set b key (bound_value target) ;;
          let* doc' := gets document in
          match doc' !! i with
          | Some target' => updateDOM b key (bound_value target')
          | None => ret tt
          end ;;
          updateVisibility b ;;
          updateClasses b
      end
  end.

(** The [popstate] listener; [path] is [event.state?.path]. *)
Definition on_popstate (b : build) (path : value) : M unit :=
  navigate b (if truthy path then path else VStr "/") (VBool true) false.

(** The [hashchange] listener. *)
Definition on_hashchange (b : build) : M unit :=
  let* currentRoute := State_get "route" in
  let* p := gets pathname in
  let* h := gets hash in
  let newRoute := VStr (p ++ h) in
  if strict_eq currentRoute newRoute then ret tt
  else State_set b [("route", newRoute)].

(** The [DOMContentLoaded] listener of the router. *)
Definition on_DOMContentLoaded (b : build) : M unit :=
  let* route := State_get "route" in
  navigate b (if truthy route then route else VStr "/") (VBool true) false.

(** The initial navigation at the end of the standalone script. *)
Definition initial_route (b : build) : M unit :=
  let* p := gets pathname in
  let* h := gets hash in
  navigate b (VStr (p ++ h)) (VBool true) false.

Definition on_beforeinstallprompt (b : build) (e : value) : M unit :=
  emit PreventDefault ;;
  data_set b "pwaInstallPrompt" e ;;
  data_set b "showInstallButton" (VBool true) ;;
  match b with
  | Standalone => modify (set_deferredPrompt (Some e))
  | UMD => ret tt
  end.

Definition on_appinstalled (b : build) : M unit :=
  data_set b "pwaInstallPrompt" VNull ;;
  data_set b "showInstallButton" (VBool false).

(** [trackInteraction] of [trackUserEngagement]. *)
Definition on_interaction (b : build) : M unit :=
  modify (fun w => set_interactionCount
                     (PrimFloat.add (interactionCount w) 1%float) w) ;;
  let* n := gets interactionCount in
  data_set b "userInteractions" (VNum n) ;;
  let* prompt := State_get "pwaInstallPrompt" in
  let* d := gets deferredPrompt in
  when (PrimFloat.leb 2%float n && negb (truthy prompt)
        && match d with Some e => truthy e | None => false end)
    (checkForExistingPrompt b).

Definition on_load : M unit := emit (RegisterServiceWorker "/sw.js").

Definition run_handler (b : build) (h : handler) (target : nat) (payload : value)
    : M unit :=
  match h with
  | BindInputs => on_change b target
  | BeforeInstallPrompt => on_beforeinstallprompt b payload
  | AppInstalled => on_appinstalled b
  | TrackInteraction => on_interaction b
  | RegisterOnLoad => on_load
  end.

(** An event of the given type reaches the listeners registered for it,
    in the order of their registration; an exception ends the listener
    that raised it and no other. *)
Definition dispatchEvent (b : build) (type : string) (target : nat)
    (payload : value) (w : World) : World :=
  fold_left
    (fun w' l =>
       if String.eqb (fst l) type
       then world_of (run_handler b (snd l) target payload w')
       else w')
    (listeners w) w.

(** The callbacks run by the animation frame. *)
Definition run_frame (b : build) (t : frame_task) : M unit :=
  match t with
  | InitialRender =>
      let* data := gets target in
      forEach (Object_keys data)
        (fun key => let* v := State_get key in updateDOM b key v) ;;
      updateVisibility b ;;
      updateClasses b
  | UpdateVisibility => updateVisibility b
  | UpdateClasses => updateClasses b
  | TrackOnShowElements => trackOnShowElements
  end.

(** *** The library as a whole: what a page and the browser can make it
    do, one step at a time.  [Write] and [Delete] are [State.data[key] = v]
    and [delete State.data[key]], which is all that the element factory
    [h], [forceRender] and the installation helpers do to the store besides
    calling [State.set] and [State.subscribe]. *)
Inductive op : Type :=
| Construct
| Write (key : string) (v : value)
| Delete (key : string)
| Set_ (properties : obj)
| Subscribe (key : string) (callback : nat)
| Unsubscribe (key : string) (callback : nat)
| Reset (initialState : obj)
| Navigate (path options : value) (replace : bool)
| Validate (groupName : string)
| ResetValidation (groupName : string)
| Dispatch (type : string) (target : nat) (payload : value)
| Popstate (path : value)
| Hashchange (newPathname newHash : string)
| DOMContentLoaded
| InitialRoute
| Frame (t : frame_task).

(** What the page and the router's listeners do once the library is
    there: the statements that export the store, create [navigate],
    register the listeners of the router and export the validation
    functions follow the one that initialises [State], and are not reached
    when the constructor throws. *)
Definition loaded_step (b : build) (o : op) (w : World) : World :=
  match o with
  | Write key v => world_of (data_set b key v w)
  | Delete key => set_target (remove (target w) key) w
  | Set_ properties => world_of (State_set b properties w)
  | Subscribe key cb => world_of (State_subscribe key cb w)
  | Unsubscribe key cb => world_of (State_unsubscribe key cb w)
  | Reset initialState => world_of (State_reset b initialState w)
  | Navigate path options replace => world_of (navigate b path options replace w)
  | Validate g => world_of (validate b g w)
  | ResetValidation g => world_of (resetValidation b g w)
  | Popstate path => world_of (on_popstate b path w)
  | Hashchange p h => world_of (on_hashchange b (set_location p h w))
  | DOMContentLoaded => world_of (on_DOMContentLoaded b w)
  | InitialRoute => world_of (initial_route b w)
  | _ => w
  end.

Definition step (b : build) (o : op) (w : World) : World :=
  match o with
  | Construct => world_of (initialise_State b w)
  | Dispatch type target payload => dispatchEvent b type target payload w
  | Frame t => world_of (run_frame b t w)
  | _ => if State_const w then loaded_step b o w else w
  end.

Definition steps (b : build) (ops : list op) (w : World) : World :=
  fold_left (fun w' o => step b o w') ops w.

End Library.

(* ===================================================================== *)
(** ** A reference platform

    An executable platform, used to run the library on concrete inputs.
    - JSON texts follow the JSON grammar; [\u] escapes above 255 are outside
      the string model and rejected.
    - A decimal literal is converted with one floating-point operation,
      which is exact for up to 15 significant digits and a decimal exponent
      of magnitude at most 22.
    - A number is printed with its exact decimal expansion, which is the
      text an engine prints for an integer below 10^21.
    - Regular expression patterns are those built from characters,
      escapes, classes, [.], [^], [$], groups, [|], [*], [+] and [?];
      anything else is rejected as a syntax error. *)
(* ===================================================================== *)

Module Ref.

(** The double quote. *)
Definition dquote : ascii := ascii_of_nat 34.

Definition digit_value (c : ascii) : Z := Z.of_nat (JsString.code c) - 48.

Definition hex_value (c : ascii) : option Z :=
  let n := Z.of_nat (JsString.code c) in
  if JsString.is_digit c then Some (n - 48)%Z
  else if ((97 <=? n) && (n <=? 102))%Z then Some (n - 87)%Z
  else if ((65 <=? n) && (n <=? 70))%Z then Some (n - 55)%Z
  else None.

Fixpoint take_while (f : ascii -> bool) (l : list ascii) : list ascii * list ascii :=
  match l with
  | c :: l' =>
      if f c then let '(a, r) := take_while f l' in (c :: a, r) else ([], l)
  | [] => ([], [])
  end.

Definition float_of_digit (c : ascii) : float :=
  PrimFloat.of_uint63 (Uint63.of_Z (digit_value c)).

Definition float_of_digits (ds : list ascii) : float :=
  fold_left (fun acc c => PrimFloat.add (PrimFloat.mul acc 10%float) (float_of_digit c))
    ds 0%float.

Fixpoint pow10 (n : nat) : float :=
  match n with
  | O => 1%float
  | S n' => PrimFloat.mul 10%float (pow10 n')
  end.

(** The number denoted by the digits [ds] scaled by [10^e]. *)
Definition scale (ds : list ascii) (e : Z) : float :=
  let m := float_of_digits ds in
  if (0 <=? e)%Z then PrimFloat.mul m (pow10 (Z.to_nat e))
  else PrimFloat.div m (pow10 (Z.to_nat (- e))).

Definition nat_of_digits (ds : list ascii) : Z :=
  fold_left (fun acc c => (acc * 10 + digit_value c)%Z) ds 0%Z.

(** An optional exponent part [e[+-]digits]: its value and the rest. *)
Definition exponent_part (s : list ascii) : Z * list ascii :=
  match s with
  | c :: r =>
      if Ascii.eqb c "e" || Ascii.eqb c "E" then
        let '(neg, r1) :=
          match r with
          | "-"%char :: r' => (true, r')
          | "+"%char :: r' => (false, r')
          | _ => (false, r)
          end in
        match take_while JsString.is_digit r1 with
        | ([], _) => (0%Z, s)
        | (ds, r2) => ((if neg then - nat_of_digits ds else nat_of_digits ds)%Z, r2)
        end
      else (0%Z, s)
  | [] => (0%Z, s)
  end.

(** *** JSON.parse *)

Definition json_ws (c : ascii) : bool :=
  let n := JsString.code c in
  Nat.eqb n 32 || Nat.eqb n 9 || Nat.eqb n 10 || Nat.eqb n 13.

Definition skip_ws (s : list ascii) : list ascii := JsString.drop_while json_ws s.

Definition json_number (s : list ascii) : option (float * list ascii) :=
  let '(neg, s1) :=
    match s with "-"%char :: r => (true, r) | _ => (false, s) end in
  let int_part :=
    match s1 with
    | "0"%char :: r => Some (["0"%char], r)
    | _ => match take_while JsString.is_digit s1 with
           | ([], _) => None
           | (ds, r) => Some (ds, r)
           end
    end in
  match int_part with
  | None => None
  | Some (ds, s2) =>
      let frac :=
        match s2 with
        | "."%char :: r =>
            match take_while JsString.is_digit r with
            | ([], _) => None
            | (fs, r') => Some (fs, r')
            end
        | _ => Some ([], s2)
        end in
      match frac with
      | None => None
      | Some (fs, s3) =>
          let '(e, s4) := exponent_part s3 in
          let x := scale (ds ++ fs) (e - Z.of_nat (List.length fs)) in
          Some (if neg then PrimFloat.opp x else x, s4)
      end
  end.

(** The characters of a string literal after its opening quote. *)
Fixpoint json_string (fuel : nat) (s : list ascii) (acc : list ascii)
    : option (string * list ascii) :=
  match fuel with
  | O => None
  | S fuel' =>
      match s with
      | [] => None
      | "\"%char :: c :: r =>
          let simple := fun x => json_string fuel' r (x :: acc) in
          if Ascii.eqb c dquote then simple dquote
          else if Ascii.eqb c "\" then simple "\"%char
          else if Ascii.eqb c "/" then simple "/"%char
          else if Ascii.eqb c "b" then simple (ascii_of_nat 8)
          else if Ascii.eqb c "f" then simple (ascii_of_nat 12)
          else if Ascii.eqb c "n" then simple (ascii_of_nat 10)
          else if Ascii.eqb c "r" then simple (ascii_of_nat 13)
          else if Ascii.eqb c "t" then simple (ascii_of_nat 9)
          else if Ascii.eqb c "u" then
            match r with
            | a :: b :: c' :: d :: r' =>
                match hex_value a, hex_value b, hex_value c', hex_value d with
                | Some 0%Z, Some 0%Z, Some x, Some y =>
                    json_string fuel' r' (ascii_of_nat (Z.to_nat (x * 16 + y)) :: acc)
                | _, _, _, _ => None
                end
            | _ => None
            end
          else None
      | c :: r =>
          if Ascii.eqb c dquote then Some (JsString.of_chars (rev acc), r)
          else if Nat.ltb (JsString.code c) 32 then None
          else json_string fuel' r (c :: acc)
      end
  end.

Fixpoint json_value (fuel : nat) (s : list ascii) : option (value * list ascii) :=
  match fuel with
  | O => None
  | S fuel' =>
      let s := skip_ws s in
      let id := List.length s in
      match s with
      | "{"%char :: r =>
          match skip_ws r with
          | "}"%char :: r' => Some (VObject id [], r')
          | _ => json_members fuel' id [] r
          end
      | "["%char :: r =>
          match skip_ws r with
          | "]"%char :: r' => Some (VArray id [], r')
          | _ => json_elements fuel' id [] r
          end
      | _ =>
          if JsString.prefix_chars [dquote] s
          then match json_string (List.length s) (drop 1 s) [] with
               | Some (t, r') => Some (VStr t, r')
               | None => None
               end
          else if JsString.prefix_chars (JsString.chars "true") s
          then Some (VBool true, drop 4 s)
          else if JsString.prefix_chars (JsString.chars "false") s
          then Some (VBool false, drop 5 s)
          else if JsString.prefix_chars (JsString.chars "null") s
          then Some (VNull, drop 4 s)
          else match json_number s with
               | Some (x, r) => Some (VNum x, r)
               | None => None
               end
      end
  end
with json_members (fuel : nat) (id : nat) (acc : obj) (s : list ascii)
    : option (value * list ascii) :=
  match fuel with
  | O => None
  | S fuel' =>
      let s := skip_ws s in
      if JsString.prefix_chars [dquote] s then
        match json_string (List.length s) (drop 1 s) [] with
        | Some (k, r1) =>
            match skip_ws r1 with
            | ":"%char :: r2 =>
                match json_value fuel' r2 with
                | Some (v, r3) =>
                    match skip_ws r3 with
                    | ","%char :: r4 => json_members fuel' id (put acc k v) r4
                    | "}"%char :: r4 => Some (VObject id (put acc k v), r4)
                    | _ => None
                    end
                | None => None
                end
            | _ => None
            end
        | None => None
        end
      else None
  end
with json_elements (fuel : nat) (id : nat) (acc : list value) (s : list ascii)
    : option (value * list ascii) :=
  match fuel with
  | O => None
  | S fuel' =>
      match json_value fuel' s with
      | Some (v, r) =>
          match skip_ws r with
          | ","%char :: r' => json_elements fuel' id (acc ++ [v])%list r'
          | "]"%char :: r' => Some (VArray id (acc ++ [v])%list, r')
          | _ => None
          end
      | None => None
      end
  end.

Definition JSON_parse (text : string) : option value :=
  let s := JsString.chars text in
  match json_value (S (List.length s)) s with
  | Some (v, r) => match skip_ws r with [] => Some v | _ => None end
  | None => None
  end.

(** *** Numbers *)

Definition Number_toString (x : float) : string :=
  match Prim2SF x with
  | S754_zero _ => "0"
  | S754_infinity s => if s then "-Infinity" else "Infinity"
  | S754_nan => "NaN"
  | S754_finite s m e =>
      let sign := if s then "-" else "" in
      if (0 <=? e)%Z then sign ++ pretty (Z.pos m * 2 ^ e)%Z
      else
        let k := (- e)%Z in
        let n := (Z.pos m * 5 ^ k)%Z in
        let int_part := (n / 10 ^ k)%Z in
        let frac := (n mod 10 ^ k)%Z in
        if (frac =? 0)%Z then sign ++ pretty int_part
        else
          let digits := JsString.chars (pretty frac) in
          let padded :=
            (repeat "0"%char (Z.to_nat k - List.length digits) ++ digits)%list in
          let trimmed :=
            rev (JsString.drop_while (Ascii.eqb "0") (rev padded)) in
          sign ++ pretty int_part ++ "." ++ JsString.of_chars trimmed
  end.

Definition nan : float := PrimFloat.div 0%float 0%float.

(** The longest prefix of [s] that is a decimal literal, as a number. *)
Definition decimal_prefix (s : list ascii) : option (float * list ascii) :=
  let '(neg, s1) :=
    match s with
    | "-"%char :: r => (true, r)
    | "+"%char :: r => (false, r)
    | _ => (false, s)
    end in
  let signed := fun x : float => if neg then PrimFloat.opp x else x in
  if JsString.prefix_chars (JsString.chars "Infinity") s1
  then Some (signed infinity, drop 8 s1)
  else
    let '(ds, s2) := take_while JsString.is_digit s1 in
    let '(fs, s3) :=
      match s2 with
      | "."%char :: r => take_while JsString.is_digit r
      | _ => ([], s2)
      end in
    let s3 := match s2, ds, fs with
              | "."%char :: _, [], [] => s2
              | _, _, _ => s3
              end in
    match (ds ++ fs)%list with
    | [] => None
    | digits =>
        let '(e, s4) := exponent_part s3 in
        Some (signed (scale digits (e - Z.of_nat (List.length fs))), s4)
    end.

Definition parseFloat (text : string) : float :=
  match decimal_prefix (JsString.drop_while JsString.is_space (JsString.chars text)) with
  | Some (x, _) => x
  | None => nan
  end.

Definition radix_literal (radix : Z) (ds : list ascii) : float :=
  match ds with
  | [] => nan
  | _ =>
      fold_left
        (fun acc c =>
           match hex_value c with
           | Some d =>
               if (d <? radix)%Z
               then PrimFloat.add (PrimFloat.mul acc (PrimFloat.of_uint63 (Uint63.of_Z radix)))
                      (PrimFloat.of_uint63 (Uint63.of_Z d))
               else nan
           | None => nan
           end)
        ds 0%float
  end.

Definition StringToNumber (text : string) : float :=
  match JsString.chars (JsString.trim text) with
  | [] => 0%float
  | "0"%char :: x :: r =>
      if Ascii.eqb x "x" || Ascii.eqb x "X" then radix_literal 16 r
      else if Ascii.eqb x "o" || Ascii.eqb x "O" then radix_literal 8 r
      else if Ascii.eqb x "b" || Ascii.eqb x "B" then radix_literal 2 r
      else match decimal_prefix ("0"%char :: x :: r) with
           | Some (v, []) => v
           | _ => nan
           end
  | s => match decimal_prefix s with
         | Some (v, []) => v
         | _ => nan
         end
  end.

(** *** JSON.stringify *)

Definition hex_digit (n : nat) : ascii :=
  nth n (JsString.chars "0123456789abcdef") "0"%char.

Definition quote_char (c : ascii) : list ascii :=
  let n := JsString.code c in
  if Ascii.eqb c dquote then ["\"%char; dquote]
  else if Ascii.eqb c "\" then JsString.chars "\\"
  else if Nat.eqb n 8 then JsString.chars "\b"
  else if Nat.eqb n 9 then JsString.chars "\t"
  else if Nat.eqb n 10 then JsString.chars "\n"
  else if Nat.eqb n 12 then JsString.chars "\f"
  else if Nat.eqb n 13 then JsString.chars "\r"
  else if Nat.ltb n 32
  then (JsString.chars "\u00" ++ [hex_digit (n / 16); hex_digit (n mod 16)])%list
  else [c].

Definition quote (s : string) : string :=
  JsString.of_chars (dquote :: flat_map quote_char (JsString.chars s) ++ [dquote])%list.

Definition is_finite (x : float) : bool :=
  match Prim2SF x with
  | S754_infinity _ | S754_nan => false
  | _ => true
  end.

(** The text of a value, or [None] for a value that JSON leaves out. *)
Fixpoint stringify_value (v : value) : option string :=
  match v with
  | VUndefined | VFunction _ => None
  | VNull => Some "null"
  | VBool true => Some "true"
  | VBool false => Some "false"
  | VNum x => Some (if is_finite x then Number_toString x else "null")
  | VStr s => Some (quote s)
  | VArray _ items =>
      Some ("[" ++ join ","
                     (map (fun x => match stringify_value x with
                                    | Some t => t
                                    | None => "null"
                                    end) items)
                ++ "]")
  | VObject _ props =>
      Some ("{" ++ join ","
                     ((fix members (l : obj) : list string :=
                         match l with
                         | [] => []
                         | (k, x) :: l' =>
                             match stringify_value x with
                             | Some t => (quote k ++ ":" ++ t) :: members l'
                             | None => members l'
                             end
                         end) props)
                ++ "}")
  end.

Definition JSON_stringify (o : obj) : string :=
  match stringify_value (VObject 0 o) with
  | Some t => t
  | None => ""
  end.

(** *** new RegExp(pattern) *)

Definition Opt (r : regex) : regex := Alt r Eps.

Definition is_alnum (c : ascii) : bool :=
  JsString.is_word c && negb (Ascii.eqb c "_").

(** The class of characters denoted by the escape [\c]. *)
Definition escape_class (c : ascii) : option (ascii -> bool) :=
  if Ascii.eqb c "d" then Some JsString.is_digit
  else if Ascii.eqb c "D" then Some (fun x => negb (JsString.is_digit x))
  else if Ascii.eqb c "w" then Some JsString.is_word
  else if Ascii.eqb c "W" then Some (fun x => negb (JsString.is_word x))
  else if Ascii.eqb c "s" then Some JsString.is_space
  else if Ascii.eqb c "S" then Some (fun x => negb (JsString.is_space x))
  else if Ascii.eqb c "n" then Some (Ascii.eqb (ascii_of_nat 10))
  else if Ascii.eqb c "r" then Some (Ascii.eqb (ascii_of_nat 13))
  else if Ascii.eqb c "t" then Some (Ascii.eqb (ascii_of_nat 9))
  else if Ascii.eqb c "f" then Some (Ascii.eqb (ascii_of_nat 12))
  else if Ascii.eqb c "v" then Some (Ascii.eqb (ascii_of_nat 11))
  else if Ascii.eqb c "0" then Some (Ascii.eqb (ascii_of_nat 0))
  else if is_alnum c then None
  else Some (Ascii.eqb c).

(** The items of a character class, after [[] or [[^], up to []]. *)
Fixpoint class_items (fuel : nat) (s : list ascii) (acc : ascii -> bool)
    : option ((ascii -> bool) * list ascii) :=
  match fuel with
  | O => None
  | S fuel' =>
      match s with
      | [] => None
      | "]"%char :: r => Some (acc, r)
      | "\"%char :: c :: r =>
          match escape_class c with
          | Some p => class_items fuel' r (fun x => acc x || p x)
          | None => None
          end
      | a :: "-"%char :: b :: r =>
          if Ascii.eqb b "]" then
            class_items fuel' ("]"%char :: r)
              (fun x => acc x || Ascii.eqb a x || Ascii.eqb "-" x)
          else if Ascii.eqb b "\" then None
          else if Nat.leb (JsString.code a) (JsString.code b) then
            class_items fuel' r
              (fun x => acc x || (Nat.leb (JsString.code a) (JsString.code x)
                                  && Nat.leb (JsString.code x) (JsString.code b)))
          else None
      | a :: r => class_items fuel' r (fun x => acc x || Ascii.eqb a x)
      end
  end.

Definition is_quantifier (c : ascii) : bool :=
  Ascii.eqb c "*" || Ascii.eqb c "+" || Ascii.eqb c "?".

(** An atom may be followed by one quantifier; an assertion by none. *)
Definition quantified (assertion : bool) (r : regex) (s : list ascii)
    : option (regex * list ascii) :=
  match s with
  | c :: s' =>
      if is_quantifier c then
        if assertion then None
        else match s' with
             | d :: _ => if is_quantifier d then None
                         else Some (if Ascii.eqb c "*" then Star r
                                    else if Ascii.eqb c "+" then Plus r
                                    else Opt r, s')
             | [] => Some (if Ascii.eqb c "*" then Star r
                           else if Ascii.eqb c "+" then Plus r
                           else Opt r, s')
             end
      else if Ascii.eqb c "{" || Ascii.eqb c "}" then None
      else Some (r, s)
  | [] => Some (r, s)
  end.

Fixpoint disjunction (fuel : nat) (s : list ascii) : option (regex * list ascii) :=
  match fuel with
  | O => None
  | S fuel' =>
      match alternative fuel' s Eps with
      | Some (r1, "|"%char :: s') =>
          match disjunction fuel' s' with
          | Some (r2, s'') => Some (Alt r1 r2, s'')
          | None => None
          end
      | other => other
      end
  end
with alternative (fuel : nat) (s : list ascii) (acc : regex)
    : option (regex * list ascii) :=
  match fuel with
  | O => None
  | S fuel' =>
      let continue := fun assertion r s' =>
        match quantified assertion r s' with
        | Some (r', s'') => alternative fuel' s'' (Seq acc r')
        | None => None
        end in
      match s with
      | [] => Some (acc, s)
      | "|"%char :: _ => Some (acc, s)
      | ")"%char :: _ => Some (acc, s)
      | "^"%char :: s' => continue true Bol s'
      | "$"%char :: s' => continue true Eol s'
      | "."%char :: s' => continue false dot s'
      | "("%char :: s' =>
          let body :=
            match s' with
            | "?"%char :: ":"%char :: s'' => Some s''
            | "?"%char :: _ => None
            | _ => Some s'
            end in
          match body with
          | None => None
          | Some s'' =>
              match disjunction fuel' s'' with
              | Some (r, ")"%char :: s3) => continue false r s3
              | _ => None
              end
          end
      | "["%char :: s' =>
          let '(negated, s'') :=
            match s' with
            | "^"%char :: r => (true, r)
            | _ => (false, s')
            end in
          match class_items (S (List.length s'')) s'' (fun _ => false) with
          | Some (p, s3) =>
              continue false (Chr (fun x => if negated then negb (p x) else p x)) s3
          | None => None
          end
      | "\"%char :: c :: s' =>
          match escape_class c with
          | Some p => continue false (Chr p) s'
          | None => None
          end
      | c :: s' =>
          if is_quantifier c || Ascii.eqb c "\" || Ascii.eqb c "{" || Ascii.eqb c "}"
          then None
          else continue false (lit_char c) s'
      end
  end.

Definition RegExp (pattern : string) : option regex :=
  let s := JsString.chars pattern in
  match disjunction (S (S (2 * List.length s))) s with
  | Some (r, []) => Some r
  | _ => None
  end.

Definition RegExp_test (pattern subject : string) : option bool :=
  match RegExp pattern with
  | Some r => Some (Regex.test r subject)
  | None => None
  end.

End Ref.

(** The reference platform.  Its functions print as native code and return
    [undefined] when called, and it takes no selector text beyond those
    that the model reads itself. *)
Definition ref_platform : Platform :=
  {| JSON_parse := Ref.JSON_parse;
     JSON_stringify := Ref.JSON_stringify;
     RegExp_test := Ref.RegExp_test;
     parseFloat := Ref.parseFloat;
     StringToNumber := Ref.StringToNumber;
     Number_toString := Ref.Number_toString;
     Function_toString := fun _ => "function () { [native code] }";
     Function_call := fun _ _ => Some VUndefined;
     querySelectorAll_text := fun _ _ => None |}.

(* ===================================================================== *)
(** ** Concrete inputs for the examples *)
(* ===================================================================== *)

(** A text between double quotes. *)
Definition q (s : string) : string :=
  String Ref.dquote s ++ String Ref.dquote "".

(** A page at [/] before the script runs, with nothing stored. *)
Definition empty_world : World :=
  {| instance := false; State_const := false; target := []; subscribers := ∅;
     localStorage := ∅; document := []; listeners := []; pathname := "/";
     hash := ""; deferredPrompt := None; interactionCount := 0%float;
     display_standalone := false; serviceWorker := false; enablePWA := false;
     trace := [] |}.

(** A page on which the library has started, with the store [o]. *)
Definition with_store (o : obj) : World :=
  set_State_const true (set_instance true (set_target o empty_world)).

Definition with_stored (text : string) : World :=
  set_localStorage (<["state" := text]> ∅) empty_world.

(** The value setters of the elements of the examples: a text field drops
    the line breaks of the text, a [select] keeps the text that one of its
    options has as value; an element that is no form control is never
    assigned a value. *)
Definition text_field (text : string) : option string :=
  Some (JsString.of_chars
          (List.filter (fun c => negb (Nat.eqb (JsString.code c) 10
                                       || Nat.eqb (JsString.code c) 13))
             (JsString.chars text))).

Definition select_of (options : list string) (text : string) : option string :=
  Some (if existsb (String.eqb text) options then text else "").

Definition no_field (text : string) : option string := Some text.

(** A page with a sign-up form and, outside it, a language selector and a
    search box. *)
Definition signup_form : element :=
  {| el_path := [0]; tagName := "FORM"; attributes := [("group", "signup")];
     el_type := ""; el_value := VUndefined; checked := false;
     textContent := ""; style_display := ""; classList := [];
     validIf := None; showIf := None; onShowObserver := false;
     value_setter := no_field; form_owner := None |}.

Definition email_input : element :=
  {| el_path := [0; 0]; tagName := "INPUT";
     attributes := [("type", "text"); ("data-bind", "email")];
     el_type := "text"; el_value := VStr "a@b.c"; checked := false;
     textContent := ""; style_display := ""; classList := [];
     validIf := Some (fun o => Some (VBool (truthy (get o "email"))));
     showIf := None; onShowObserver := false;
     value_setter := text_field; form_owner := Some 0 |}.

Definition language_select : element :=
  {| el_path := [1]; tagName := "SELECT";
     attributes := [("data-bind", "lang")];
     el_type := "select-one"; el_value := VStr "en"; checked := false;
     textContent := ""; style_display := ""; classList := [];
     validIf := Some (fun _ => Some (VBool true));
     showIf := None; onShowObserver := false;
     value_setter := select_of ["en"; "fr"]; form_owner := None |}.

Definition search_input : element :=
  {| el_path := [2]; tagName := "INPUT";
     attributes := [("type", "text"); ("data-bind", "query")];
     el_type := "text"; el_value := VStr ""; checked := false;
     textContent := ""; style_display := ""; classList := [];
     validIf := Some (fun _ => Some (VBool true));
     showIf := None; onShowObserver := false;
     value_setter := text_field; form_owner := None |}.

Definition signup_page : list element :=
  [signup_form; email_input; language_select; search_input].

(* ===================================================================== *)
(** ** Vocabulary of the properties *)
(* ===================================================================== *)


(** The condition is a comparison: it is neither a negation nor a route
    test, and it contains an operator character, so that
    [evaluateSingleCondition] hands it to [parseCondition]. *)
Definition is_comparison (condition : string) : bool :=
  negb (JsString.startsWith condition "!")
  && negb (JsString.startsWith condition "route~=")
  && negb (JsString.startsWith condition "route==")
  && negb (JsString.startsWith condition "route!=")
  && negb (JsString.startsWith condition "route#=")
  && Regex.test re_operator_char condition.

(** The comparison cannot be parsed into a key, an operator and a value. *)
Definition unparsable (condition : string) : Prop :=
  Regex.search re_condition condition = None.

(** The world after the standalone build has logged an invalid pattern. *)
Definition logged_invalid_regex (expectedValue : string) (w : World) : World :=
  set_trace (ConsoleError "Invalid regex in class-if condition:"
               [VStr expectedValue] :: trace w) w.

(** An error was logged between [w] and [w']. *)
Definition logs_error (w w' : World) : Prop :=
  ∃ evs msg args, trace w' = (evs ++ trace w)%list ∧ ConsoleError msg args ∈ evs.

(** [preserves R m]: running [m] relates the world before to the world
    after, whether [m] returns or throws. *)
Definition preserves {A : Type} (R : relation World) (m : M A) : Prop :=
  ∀ w, R w (world_of (m w)).

(** The key of persistent storage that an effect reads or writes. *)
Definition storage_key (e : event) : option string :=
  match e with
  | GetItem k | SetItem k _ => Some k
  | _ => None
  end.

Definition no_storage (e : event) : bool :=
  match storage_key e with Some _ => false | None => true end.

Definition only_state (e : event) : bool :=
  match storage_key e with Some k => String.eqb k "state" | None => true end.

(** From [w] to [w'] the trace has grown by effects that all satisfy [ok]. *)
Definition extends (ok : event → bool) (w w' : World) : Prop :=
  ∃ evs, trace w' = (evs ++ trace w)%list ∧ forallb ok evs = true.

(** Neither the store nor the storage has changed, and the storage was
    not accessed. *)
Definition store_untouched (w w' : World) : Prop :=
  target w' = target w ∧ localStorage w' = localStorage w
  ∧ extends no_storage w w'.

(** The storage was accessed under the key [state] only, and holds what it
    held under every other key. *)
Definition state_key_only (w w' : World) : Prop :=
  extends only_state w w'
  ∧ ∀ k, k ≠ "state" → localStorage w' !! k = localStorage w !! k.

(** What a data binding reads and writes in an element. *)
Definition binding_of (e : element) :=
  (el_path e, tagName e, attributes e, el_type e, el_value e, checked e,
   textContent e).

Definition same_bindings (w w' : World) : Prop :=
  binding_of <$> document w' = binding_of <$> document w.


(** The element carries [data-bind="key"]. *)
Definition bound_to (key : string) (e : element) : bool :=
  matches_simple (SAttrEq "data-bind" key) e.

(** The element takes what [updateDOM] assigns to it for the value [v]:
    of the assignments of the loop, only that of [value] can throw. *)
Definition takes_assignment (P : Platform) (b : build) (v : value)
    (e : element) : bool :=
  negb (is_form_control e)
  || String.eqb (el_type e) "checkbox"
  || String.eqb (el_type e) "radio"
  || match value_setter e (dom_string P (value_or_empty b v)) with
     | Some _ => true
     | None => false
     end.

(** No element bound to [key] contains the element [e] or is contained in
    it. *)
Definition apart_from_bound (key : string) (e : element)
    (doc : list element) : bool :=
  forallb (fun a => negb (bound_to key a
                          && (is_ancestor a e || is_ancestor e a))) doc.

Definition all_take (P : Platform) (b : build) (key : string) (v : value)
    (doc : list element) : bool :=
  forallb (fun e => implb (bound_to key e) (takes_assignment P b v e)) doc.

(** No two radio buttons of one group are bound to [key] and have the
    value [v]: the second to be checked would uncheck the first. *)
Definition one_radio_per_group (key : string) (v : value)
    (doc : list element) : bool :=
  forallb (fun j =>
    forallb (fun k =>
      match doc !! j, doc !! k with
      | Some e1, Some e2 =>
          implb (bound_to key e1 && bound_to key e2 && same_radio_group e1 e2
                 && strict_eq (el_value e1) v && strict_eq (el_value e2) v)
                (Nat.eqb j k)
      | _, _ => true
      end) (seq 0 (length doc))) (seq 0 (length doc)).


(** The record kept in storage is the serialisation of the store. *)
Definition persisted (P : Platform) (w : World) : Prop :=
  localStorage w !! "state" = Some (JSON_stringify P (target w)).

(** Between [w] and [w'] the text [json] was written under [state]. *)
Definition wrote_state (json : string) (w w' : World) : Prop :=
  ∃ evs, trace w' = (evs ++ trace w)%list ∧ SetItem "state" json ∈ evs.

(** The world right after [localStorage.setItem("state",
    JSON.stringify(this.data))]. *)
Definition stored (P : Platform) (w : World) : World :=
  set_localStorage
    (<["state" := JSON_stringify P (target w)]> (localStorage w))
    (set_trace (SetItem "state" (JSON_stringify P (target w)) :: trace w) w).

(** The store as the constructor leaves it on a first visit of [/]. *)
Definition first_visit : World := steps ref_platform UMD [Construct] empty_world.

(** The sign-up page, put into the document after the library has
    started. *)
Definition signup_visit : World := set_document signup_page first_visit.



(** The last value that the writes give to a key. *)
Fixpoint last_written (key : string) (writes : list (string * value))
    : option value :=
  match writes with
  | [] => None
  | kv :: rest =>
      match last_written key rest with
      | Some v => Some v
      | None => if String.eqb (fst kv) key then Some (snd kv) else None
      end
  end.

(** A page that enables the installation prompt before it loads the
    library: a first session in which the browser offers the installation,
    and the session that follows it. *)
Definition install_event : value := VObject 7 [("isTrusted", VBool true)].




(** The result of a computation, without the world. *)
Definition outcome_value {A : Type} (o : outcome A) : exn + A :=
  match o with Ok a _ => inr a | Throw e _ => inl e end.

(** What a single condition evaluates to in a store, and what its
    evaluation logs. *)
Definition condition_value (P : Platform) (b : build) (o : obj) (c : string)
    : exn + bool :=
  outcome_value (evaluateSingleCondition P b c (with_store o)).

Definition condition_log (P : Platform) (b : build) (o : obj) (c : string)
    : list event :=
  trace (world_of (evaluateSingleCondition P b c (with_store o))).

(** The single condition is true under the store of [w]. *)
Definition single_true (P : Platform) (b : build) (w : World) (c : string)
    : Prop :=
  ∃ w', evaluateSingleCondition P b c w = Ok true w'.

(** Some part between [||] has all its conditions between [&&] true. *)
Definition or_of_ands (P : Platform) (b : build) (w : World)
    (condition : string) : Prop :=
  ∃ orPart, orPart ∈ Regex.split re_or condition
    ∧ ∀ andPart, andPart ∈ Regex.split re_and orPart →
                 single_true P b w (JsString.trim andPart).

(** The route tests of the standalone build call a string method on the
    value of [route]. *)
Definition route_ok (b : build) (w : World) : Prop :=
  b = UMD ∨ is_string (get (target w) "route") = true.

(** A page that shows a banner on the home route and to an administrator,
    visited again by an administrator: the record of the last visit says
    [admin: true], and the banner is in the document when the script
    runs. *)
Definition banner : element :=
  {| el_path := [0]; tagName := "DIV";
     attributes := [("show-if", "route==/home || admin")];
     el_type := ""; el_value := VUndefined; checked := false;
     textContent := "Welcome"; style_display := ""; classList := [];
     validIf := None; showIf := None; onShowObserver := false;
     value_setter := no_field; form_owner := None |}.

Definition admin_visit : World :=
  set_document [banner] (with_stored ("{" ++ q "admin" ++ ":true}")).

(** A page with a text field bound to [name]: the store holds [bob], and
    the visitor has typed [x] without leaving the field. *)
Definition name_input : element :=
  {| el_path := [0]; tagName := "INPUT";
     attributes := [("type", "text"); ("data-bind", "name")];
     el_type := "text"; el_value := VStr "x"; checked := false;
     textContent := ""; style_display := ""; classList := [];
     validIf := None; showIf := None; onShowObserver := false;
     value_setter := text_field; form_owner := None |}.


(* ===================================================================== *)
(** ** Vocabulary of the properties of the store, the router and the
    document *)
(* ===================================================================== *)

(** The store holds the same value under [k] in both worlds. *)
Definition keeps (k : string) (w w' : World) : Prop :=
  get (target w') k = get (target w) k.

(** The store has the same property of its own, or none, under [k] in both
    worlds. *)
Definition own_kept (k : string) (w w' : World) : Prop :=
  own (target w') k = own (target w) k.

(** What a write through the proxy may add to the trace: the record it
    stores, the frames it requests and the errors it logs. *)
Definition refresh_event (e : event) : bool :=
  match e with
  | SetItem _ _ | RequestAnimationFrame _ | ConsoleError _ _ => true
  | _ => false
  end.

Definition no_push (e : event) : bool :=
  match e with PushState _ => false | _ => true end.

(** The subscriptions and the pending installation prompt are those of
    [w], and the trace has grown by effects that satisfy [ok]. *)
Definition calm (ok : event → bool) (w w' : World) : Prop :=
  subscribers w' = subscribers w
  ∧ deferredPrompt w' = deferredPrompt w
  ∧ extends ok w w'.

(** The effects of [w'] that [w] does not have yet, most recent first. *)
Definition added (w w' : World) : list event :=
  take (List.length (trace w') - List.length (trace w)) (trace w').

(** [this.subscribers[key]], or no callback at all. *)
Definition subscribers_of (w : World) (key : string) : list nat :=
  match subscribers w !! key with Some l => l | None => [] end.

(** The calls of the callbacks with [v], in order, as the trace records
    them. *)
Definition notified (callbacks : list nat) (v : value) : list event :=
  rev (map (fun cb => Callback cb v) callbacks).

(** The state that [navigate] takes from its second argument. *)
Definition stateToSet_of (options : value) : obj :=
  match options with
  | VObject _ props => props
  | VArray _ items => array_props items 0
  | _ => []
  end.

(** No key is an array index, so that the keys are enumerated in the order
    of the list. *)
Definition plain_keys (o : obj) : bool :=
  forallb (fun kv => match array_index (fst kv) with
                     | Some _ => false
                     | None => true
                     end) o.

(** A page with a counter to which two callbacks are subscribed. *)
Definition counter_page : World :=
  steps ref_platform UMD
    [Construct; Write "count" (VNum 1); Subscribe "count" 1;
     Subscribe "count" 2] empty_world.

(** A page at [/] on which an earlier visit has left a record. *)
Definition returning_visitor : World :=
  with_stored ("{" ++ q "count" ++ ":3," ++ q "route" ++ ":" ++ q "/old" ++ "}").

(** A page on which a text field and a label are bound to [name]: the
    store holds what the visitor has typed, the label is stale. *)
Definition name_label : element :=
  {| el_path := [1]; tagName := "SPAN"; attributes := [("data-bind", "name")];
     el_type := ""; el_value := VUndefined; checked := false;
     textContent := "bob"; style_display := ""; classList := [];
     validIf := None; showIf := None; onShowObserver := false;
     value_setter := no_field; form_owner := None |}.

Definition mirror_page : World :=
  set_document [name_input; name_label]
    (steps ref_platform UMD [Construct; Write "name" (VStr "x")] empty_world).

(** Only the trace has changed, by growing. *)
Definition trace_only (w w' : World) : Prop :=
  ∃ evs, w' = set_trace (evs ++ trace w)%list w.







(** The verdict of the [valid-if] function of the field at position [i]:
    a field without such a function or without a [data-bind] key is not
    examined; a function that throws counts as a failure. *)
Definition field_valid (o : obj) (doc : list element) (i : nat) : bool :=
  match doc !! i with
  | None => true
  | Some field =>
      match validIf field,
            nonempty_attr (getAttribute "data-bind" (attributes field)) with
      | Some fn, Some _ =>
          match fn o with Some v => truthy v | None => false end
      | _, _ => true
      end
  end.

(** What validation reads in an element. *)
Definition validation_of (e : element) := (attributes e, validIf e).

(** The listener [clearInvalidState] that the element factory [h] attaches
    to the [input], [change] and [focus] events of a form control created
    with the [data-bind] property [bindKey]; [i] is the position of the
    control in the document. *)
Definition clearInvalidState (P : Platform) (b : build) (i : nat)
    (bindKey : string) : M unit :=
  let* invalid := State_get (bindKey ++ "_invalid") in
  when (truthy invalid)
    (State_set P b [(bindKey ++ "_invalid", VUndefined)] ;;
     State_set P b [(bindKey ++ "_valid", VBool true)] ;;
     update_element i
       (fun e =>
          with_classList
            (List.filter (fun t => negb (String.eqb t "invalid")) (classList e))
            e)).

(** The sign-up page after the library has started, with an empty
    address in the store. *)
Definition signup_world : World :=
  set_document signup_page
    (steps ref_platform UMD [Construct; Write "email" (VStr "")] empty_world).

(** The sign-up page once [validate("signup")] has flagged the empty
    address. *)
Definition validated_world : World :=
  world_of (validate ref_platform UMD "signup" signup_world).

(** A page on which an earlier visit has left a record that shows the
    installation button. *)
Definition prompted_visitor : World :=
  with_stored ("{" ++ q "showInstallButton" ++ ":true}").

(** What [trackOnShowElements] does to an element. *)
Definition observed (e : element) : element :=
  match getAttribute "onshow" (attributes e) with
  | Some _ => with_onShowObserver true e
  | None => e
  end.

(** Neither the store, nor the subscriptions, nor persistent storage, nor
    the trace have changed. *)
Definition quiet (w w' : World) : Prop :=
  target w' = target w
  ∧ subscribers w' = subscribers w
  ∧ localStorage w' = localStorage w
  ∧ trace w' = trace w.

(** The element at position [j], if it is no radio button, shows what it
    showed. *)
Definition binding_kept (j : nat) (w w' : World) : Prop :=
  ∀ e, document w !! j = Some e → is_radio e = false →
       ∃ e', document w' !! j = Some e' ∧ binding_of e' = binding_of e.

(** The script has not created a store: there is no instance, the constant
    [State] is uninitialised and no listener is installed. *)
Definition no_store (w : World) : Prop :=
  instance w = false ∧ State_const w = false ∧ listeners w = [].

(** What the script has set up: the instance, the constant [State], the
    listeners, the store and persistent storage. *)
Definition script_state (w : World) :=
  (instance w, State_const w, listeners w, target w, localStorage w).

Definition same_script (w w' : World) : Prop :=
  script_state w' = script_state w.

(** Two radio buttons of one group with the same value, and a file field,
    which takes no value but the empty one. *)
Definition radio (path : nat) (val : string) : element :=
  {| el_path := [path]; tagName := "INPUT";
     attributes := [("type", "radio"); ("name", "color");
                    ("data-bind", "color")];
     el_type := "radio"; el_value := VStr val; checked := false;
     textContent := ""; style_display := ""; classList := [];
     validIf := None; showIf := None; onShowObserver := false;
     value_setter := no_field; form_owner := None |}.

Definition file_field : element :=
  {| el_path := [0]; tagName := "INPUT";
     attributes := [("type", "file"); ("data-bind", "name")];
     el_type := "file"; el_value := VStr ""; checked := false;
     textContent := ""; style_display := ""; classList := [];
     validIf := None; showIf := None; onShowObserver := false;
     value_setter := fun text => if String.eqb text "" then Some "" else None;
     form_owner := None |}.

(** What the elements of a page show, by position. *)
Definition showing (w : World) : list (value * bool * string) :=
  (fun e => (el_value e, checked e, textContent e)) <$> document w.

(** What decides whether [updateVisibility] evaluates the condition of an
    element. *)
Definition condition_of (e : element) := (attributes e, showIf e).

(** The constant [State] is in the same state, and every element has the
    attributes and the [showIf] function it had. *)
Definition conditions_kept (w w' : World) : Prop :=
  State_const w' = State_const w
  ∧ condition_of <$> document w' = condition_of <$> document w.

(** No element bound to [route] that is no form control contains [e]: the
    text that the constructor's write of [route] assigns to such an
    element would take [e] out of the document. *)
Definition outside_route_text (e : element) (doc : list element) : bool :=
  forallb (fun a => negb (bound_to "route" a && negb (is_form_control a)
                          && is_ancestor a e)) doc.

(* ===================================================================== *)
(** * Properties *)
(* ===================================================================== *)

(** ** Objects *)

Lemma own_put_same (o : obj) (k : string) (v : value) :
  own (put o k v) k = Some v.
Proof.
  induction o as [|[k' x] o IH]; simpl.
  - by rewrite String.eqb_refl.
  - destruct (String.eqb k' k) eqn:E; simpl; rewrite E; [done | exact IH].
Qed.

Lemma own_put_other (o : obj) (k k' : string) (v : value) :
  k ≠ k' → own (put o k v) k' = own o k'.
Proof.
  intros Hne. induction o as [|[k0 x] o IH]; simpl.
  - destruct (String.eqb_spec k k'); [contradiction | done].
  - destruct (String.eqb_spec k0 k) as [->|Hk]; simpl.
    + destruct (String.eqb_spec k k'); [contradiction | done].
    + destruct (String.eqb k0 k'); [done | exact IH].
Qed.

Lemma get_put_same (o : obj) (k : string) (v : value) : get (put o k v) k = v.
Proof. unfold get. by rewrite own_put_same. Qed.

Lemma get_put_other (o : obj) (k k' : string) (v : value) :
  k ≠ k' → get (put o k v) k' = get o k'.
Proof. intros H. unfold get. by rewrite own_put_other. Qed.

Lemma strict_eq_string (s : string) (v : value) :
  strict_eq (VStr s) v = true ↔ v = VStr s.
Proof.
  destruct v; simpl; split; try congruence.
  - intros H. apply String.eqb_eq in H. by subst.
  - intros [= ->]. apply String.eqb_refl.
Qed.

(** ** The proxy *)

Lemma bind_Ok {A B : Type} (m : M A) (f : A → M B) (w w' : World) (a : A) :
  m w = Ok a w' → bind m f w = f a w'.
Proof. intros H. unfold bind. by rewrite H. Qed.

Lemma reactive_unchanged (callback : string → value → M unit) (key : string)
    (v : value) (w : World) :
  strict_eq (get (target w) key) v = true →
  reactive callback key v w = Ok tt w.
Proof.
  intros H. unfold reactive. rewrite (bind_Ok _ _ w w (get (target w) key)).
  - by rewrite H.
  - reflexivity.
Qed.

(** C8: a write through the proxy of a value strictly equal to the current
    one returns at once: whatever the callback is, it is not run, and the
    world (the object behind the proxy, the storage, the document and the
    trace of effects) is left as it was. *)
Theorem reactive_same_value_noop (callback : string → value → M unit)
    (key : string) (v : value) (w : World) :
  strict_eq (get (target w) key) v = true →
  reactive callback key v w = Ok tt w.
Proof.
  intros H. unfold reactive, bind, State_get, gets. by rewrite H.
Qed.

Lemma reactive_same_value_noop_witness :
  strict_eq (get (target (with_store [("n", VNum 0)])) "n") (VNum (-0)) = true
  ∧ reactive (updateLocalStorage ref_platform UMD) "n" (VNum (-0))
      (with_store [("n", VNum 0)])
    = Ok tt (with_store [("n", VNum 0)]).
Proof.
  split; [reflexivity |].
  apply (reactive_same_value_noop
           (updateLocalStorage ref_platform UMD) "n" (VNum (-0))
           (with_store [("n", VNum 0)])).
  reflexivity.
Defined.

(** ** The router *)

(** C9: when the path normalises to the string stored under [route],
    [navigate] returns without setting a key, scrolling or touching the
    session history: the world is left as it was. *)
Theorem navigate_current_route_noop (P : Platform) (b : build)
    (path options : value) (replace : bool) (text : string) (w : World) :
  path_text P b path = Some text →
  get (target w) "route" = VStr (fullPath_of text) →
  navigate P b path options replace w = Ok tt w.
Proof.
  intros Htext Hroute. unfold navigate, bind. rewrite Htext. simpl.
  unfold State_get, gets. rewrite Hroute. simpl.
  by rewrite String.eqb_refl.
Qed.

Lemma navigate_current_route_noop_witness :
  path_text ref_platform UMD (VStr "/docs#api#x") = Some "/docs#api#x"
  ∧ get (target (with_store [("route", VStr "/docs#api")])) "route"
    = VStr (fullPath_of "/docs#api#x")
  ∧ navigate ref_platform UMD (VStr "/docs#api#x")
      (VObject 1 [("navOpen", VBool false)]) true
      (with_store [("route", VStr "/docs#api")])
    = Ok tt (with_store [("route", VStr "/docs#api")]).
Proof.
  split; [reflexivity |]. split; [reflexivity |].
  apply (navigate_current_route_noop ref_platform UMD
           (VStr "/docs#api#x") (VObject 1 [("navOpen", VBool false)]) true
           "/docs#api#x" (with_store [("route", VStr "/docs#api")]));
    reflexivity.
Defined.

(** ** Selectors and the fields of a group *)

Lemma elem_of_select_from (doc : list element) (sels : list selector)
    (rest : list element) (i j : nat) :
  j ∈ select_from doc sels rest i ↔
  ∃ e, (i ≤ j)%nat ∧ rest !! (j - i)%nat = Some e
       ∧ existsb (fun s => matches doc s e) sels = true.
Proof.
  revert i. induction rest as [|e0 rest IH]; intros i; simpl.
  - split; [intros H; inversion H | intros (e & _ & H & _); discriminate].
  - destruct (existsb (λ s, matches doc s e0) sels) eqn:E.
    + rewrite elem_of_cons, IH. split.
      * intros [-> | (e & Hle & Hl & Hm)].
        -- exists e0. rewrite Nat.sub_diag. auto.
        -- exists e. split; [lia |]. split; [| done].
           replace (j - i) with (S (j - S i)) by lia. done.
      * intros (e & Hle & Hl & Hm).
        destruct (decide (j = i)) as [-> | Hne]; [by left | right].
        exists e. split; [lia |]. split; [| done].
        replace (j - i) with (S (j - S i)) in Hl by lia. done.
    + rewrite IH. split.
      * intros (e & Hle & Hl & Hm). exists e. split; [lia |]. split; [| done].
        replace (j - i) with (S (j - S i)) by lia. done.
      * intros (e & Hle & Hl & Hm).
        destruct (decide (j = i)) as [-> | Hne].
        -- rewrite Nat.sub_diag in Hl. simpl in Hl. injection Hl as ->. congruence.
        -- exists e. split; [lia |]. split; [| done].
           replace (j - i) with (S (j - S i)) in Hl by lia. done.
Qed.

Lemma elem_of_querySelectorAll (doc : list element) (sels : list selector)
    (i : nat) :
  i ∈ querySelectorAll doc sels ↔
  ∃ e, doc !! i = Some e ∧ existsb (fun s => matches doc s e) sels = true.
Proof.
  unfold querySelectorAll. rewrite elem_of_select_from.
  replace (i - 0) with i by lia. split.
  - intros (e & _ & H1 & H2). eauto.
  - intros (e & H1 & H2). exists e. split; [lia | done].
Qed.











(** ** Construction *)

Lemma parse_stored_malformed (P : Platform) (w : World) (text : string) :
  localStorage w !! "state" = Some text →
  JSON_parse P text = None →
  parse_stored P w = Throw SyntaxError (set_trace (GetItem "state" :: trace w) w).
Proof.
  intros Hls Hparse. unfold parse_stored, getItem, bind, emit, modify, gets, ret.
  simpl. rewrite Hls. simpl. by rewrite Hparse.
Qed.

(** C1, on the standalone build: with a malformed text stored under
    [state], the constructor throws the SyntaxError of [JSON.parse] right
    after reading the storage; no store is initialised. *)
Theorem standalone_constructor_malformed_state (P : Platform) (w : World)
    (text : string) :
  instance w = false →
  localStorage w !! "state" = Some text →
  JSON_parse P text = None →
  StateSingleton_constructor P Standalone w
  = Throw SyntaxError (set_trace (GetItem "state" :: trace w) w).
Proof.
  intros Hi Hls Hparse. unfold StateSingleton_constructor, bind at 1.
  unfold gets at 1. rewrite Hi. unfold bind at 1. unfold initial_storedData.
  by rewrite (parse_stored_malformed P w text).
Qed.

Lemma standalone_constructor_malformed_state_witness :
  instance (with_stored "{oops") = false
  ∧ localStorage (with_stored "{oops") !! "state" = Some "{oops"
  ∧ JSON_parse ref_platform "{oops" = None
  ∧ StateSingleton_constructor ref_platform Standalone (with_stored "{oops")
    = Throw SyntaxError
        (set_trace [GetItem "state"] (with_stored "{oops")).
Proof.
  split; [reflexivity |]. split; [reflexivity |]. split; [reflexivity |].
  apply (standalone_constructor_malformed_state ref_platform
           (with_stored "{oops") "{oops"); reflexivity.
Defined.

(** The other build catches the error and goes on with an empty object. *)
Lemma umd_initial_storedData_malformed (P : Platform) (w : World) (text : string) :
  localStorage w !! "state" = Some text →
  JSON_parse P text = None →
  initial_storedData P UMD w
  = Ok (VObject 0 []) (set_trace (GetItem "state" :: trace w) w).
Proof.
  intros Hls Hparse. unfold initial_storedData, try_catch.
  by rewrite (parse_stored_malformed P w text).
Qed.

Example umd_constructor_malformed_state :
  let w := steps ref_platform UMD [Construct] (with_stored "{oops") in
  target w = [("pwaInstallPrompt", VNull); ("showInstallButton", VBool false);
              ("route", VStr "/")]
  ∧ localStorage w !! "state" = Some (JSON_stringify ref_platform (target w)).
Proof. vm_compute. split; reflexivity. Qed.

(** ** Conditions *)

Lemma is_comparison_inv (c : string) :
  is_comparison c = true →
  JsString.startsWith c "!" = false
  ∧ JsString.startsWith c "route~=" = false
  ∧ JsString.startsWith c "route==" = false
  ∧ JsString.startsWith c "route!=" = false
  ∧ JsString.startsWith c "route#=" = false
  ∧ Regex.test re_operator_char c = true.
Proof.
  unfold is_comparison. rewrite !andb_true_iff, !negb_true_iff. tauto.
Qed.

(** Once the constant [State] is initialised, reading it is reading the
    store; before, it throws and nothing has happened. *)
Lemma checked_State_get_initialised (key : string) (w : World) :
  State_const w = true →
  checked_State_get key w = Ok (get (target w) key) w.
Proof.
  intros H. unfold checked_State_get, State_ref, State_get, bind, gets.
  by rewrite H.
Qed.

Lemma checked_State_get_early (key : string) (w : World) :
  State_const w = false →
  checked_State_get key w = Throw ReferenceError w.
Proof.
  intros H. unfold checked_State_get, State_ref, State_get, bind, gets.
  by rewrite H.
Qed.

(** C3, as amended: once the constant [State] is initialised, a comparison
    that cannot be parsed evaluates to false without throwing, and nothing
    is logged; a [matches] comparison whose pattern is not a regular
    expression evaluates to false without throwing, and the text of the
    standalone build logs the error while the other build stays silent. *)
Theorem malformed_comparison_is_false (P : Platform) (b : build)
    (condition : string) (w : World) :
  State_const w = true →
  is_comparison condition = true →
  (unparsable condition →
     evaluateSingleCondition P b condition w = Ok false w)
  ∧ (∀ key expectedValue,
       parseCondition condition = (key, "matches", expectedValue) →
       RegExp_test P
         (Regex.delete_all re_slashes (JsString.trim expectedValue))
         (ToString P (get (target w) (JsString.trim key))) = None →
       evaluateSingleCondition P b condition w
       = Ok false (match b with
                   | Standalone => logged_invalid_regex expectedValue w
                   | UMD => w
                   end)).
Proof.
  intros Hs Hc. apply is_comparison_inv in Hc as (H1 & H2 & H3 & H4 & H5 & H6).
  unfold evaluateSingleCondition. rewrite H1, H2, H3, H4, H5, H6.
  change (negb true) with false. cbv iota. split.
  - intros Hu. unfold parseCondition. rewrite Hu.
    unfold bind. by rewrite (checked_State_get_initialised _ w Hs).
  - intros key expectedValue Hp Hre. rewrite Hp.
    unfold bind. rewrite (checked_State_get_initialised _ w Hs).
    rewrite String.eqb_refl. cbv beta iota zeta.
    rewrite Hre. destruct b; reflexivity.
Qed.

Lemma malformed_comparison_is_false_witness :
  State_const (with_store [("age", VNum 5); ("name", VStr "ann")]) = true
  ∧ is_comparison "age = 5" = true
  ∧ unparsable "age = 5"
  ∧ evaluateSingleCondition ref_platform UMD "age = 5"
      (with_store [("age", VNum 5); ("name", VStr "ann")])
    = Ok false (with_store [("age", VNum 5); ("name", VStr "ann")])
  ∧ is_comparison "name matches (" = true
  ∧ evaluateSingleCondition ref_platform UMD "name matches ("
      (with_store [("age", VNum 5); ("name", VStr "ann")])
    = Ok false (with_store [("age", VNum 5); ("name", VStr "ann")]).
Proof.
  split; [reflexivity |]. split; [reflexivity |]. split; [reflexivity |].
  split.
  - apply (proj1 (malformed_comparison_is_false ref_platform UMD "age = 5"
                    (with_store [("age", VNum 5); ("name", VStr "ann")])
                    eq_refl eq_refl)).
    reflexivity.
  - split; [reflexivity |].
    apply (proj2 (malformed_comparison_is_false ref_platform UMD
                    "name matches ("
                    (with_store [("age", VNum 5); ("name", VStr "ann")])
                    eq_refl eq_refl) "name" "("); reflexivity.
Defined.

(** C3 as stated fails: the comparison [age = 5] cannot be parsed, and its
    evaluation yields false and logs nothing. *)
Lemma unparsable_comparison_not_logged :
  is_comparison "age = 5" = true
  ∧ unparsable "age = 5"
  ∧ evaluateSingleCondition ref_platform UMD "age = 5"
      (with_store [("age", VNum 5)])
    = Ok false (with_store [("age", VNum 5)])
  ∧ ¬ logs_error (with_store [("age", VNum 5)]) (with_store [("age", VNum 5)]).
Proof.
  split; [reflexivity |]. split; [reflexivity |]. split.
  - reflexivity.
  - intros (evs & msg & args & Htr & Hin). simpl in Htr.
    destruct evs; [inversion Hin | discriminate].
Qed.

(** ** Frames *)

Section Frames.
Context (R : relation World) `{!PreOrder R}.

Lemma preserves_ret {A : Type} (a : A) : preserves R (ret a).
Proof. intros w. simpl. reflexivity. Qed.

Lemma preserves_throw {A : Type} (e : exn) : preserves R (@throw A e).
Proof. intros w. simpl. reflexivity. Qed.

Lemma preserves_gets {A : Type} (f : World → A) : preserves R (gets f).
Proof. intros w. simpl. reflexivity. Qed.

Lemma preserves_bind {A B : Type} (m : M A) (f : A → M B) :
  preserves R m → (∀ a, preserves R (f a)) → preserves R (bind m f).
Proof.
  intros Hm Hf w. unfold bind. specialize (Hm w).
  destruct (m w) as [a w'|e w']; simpl in *; [| done].
  etrans; [exact Hm | apply Hf].
Qed.

Lemma preserves_try_catch {A : Type} (m : M A) (h : exn → M A) :
  preserves R m → (∀ e, preserves R (h e)) → preserves R (try_catch m h).
Proof.
  intros Hm Hh w. unfold try_catch. specialize (Hm w).
  destruct (m w) as [a w'|e w']; simpl in *; [done |].
  etrans; [exact Hm | apply Hh].
Qed.

Lemma preserves_modify (f : World → World) :
  (∀ w, R w (f w)) → preserves R (modify f).
Proof. intros H w. apply H. Qed.

Lemma preserves_when (c : bool) (m : M unit) :
  preserves R m → preserves R (when c m).
Proof. intros H. destruct c; [done | apply preserves_ret]. Qed.

Lemma preserves_forEach {A : Type} (l : list A) (f : A → M unit) :
  (∀ x, preserves R (f x)) → preserves R (forEach l f).
Proof.
  intros H. induction l as [|x l IH]; simpl.
  - apply preserves_ret.
  - apply preserves_bind; [apply H | intros _; exact IH].
Qed.

Lemma preserves_some {A : Type} (l : list A) (f : A → M bool) :
  (∀ x, preserves R (f x)) → preserves R (some l f).
Proof.
  intros H. induction l as [|x l IH]; simpl.
  - apply preserves_ret.
  - apply preserves_bind; [apply H |]. intros []; [apply preserves_ret | exact IH].
Qed.

Lemma preserves_every {A : Type} (l : list A) (f : A → M bool) :
  (∀ x, preserves R (f x)) → preserves R (every l f).
Proof.
  intros H. induction l as [|x l IH]; simpl.
  - apply preserves_ret.
  - apply preserves_bind; [apply H |]. intros []; [exact IH | apply preserves_ret].
Qed.

Lemma preserves_foldM {A S : Type} (l : list A) (f : S → A → M S) (s : S) :
  (∀ s x, preserves R (f s x)) → preserves R (foldM l f s).
Proof.
  intros H. revert s. induction l as [|x l IH]; intros s; simpl.
  - apply preserves_ret.
  - apply preserves_bind; [apply H | intros s'; apply IH].
Qed.

Lemma preserves_forEach_selected (sels : list selector)
    (f : nat → element → M unit) :
  (∀ i e, preserves R (f i e)) → preserves R (forEach_selected sels f).
Proof.
  intros H. unfold forEach_selected.
  apply preserves_bind; [apply preserves_gets |]. intros doc.
  apply preserves_forEach. intros i.
  apply preserves_bind; [apply preserves_gets |]. intros doc'.
  destruct (doc' !! i); [apply H | apply preserves_ret].
Qed.

Lemma preserves_State_get (key : string) : preserves R (State_get key).
Proof. apply preserves_gets. Qed.

Lemma preserves_State_ref : preserves R State_ref.
Proof.
  unfold State_ref. apply preserves_bind; [apply preserves_gets |].
  intros []; [apply preserves_ret | apply preserves_throw].
Qed.

Lemma preserves_checked_State_get (key : string) :
  preserves R (checked_State_get key).
Proof.
  unfold checked_State_get.
  apply preserves_bind; [apply preserves_State_ref |]. intros _.
  apply preserves_State_get.
Qed.

Lemma preserves_forEach_element (l : list nat) (f : nat → element → M unit) :
  (∀ i e, preserves R (f i e)) → preserves R (forEach_element l f).
Proof.
  intros H. unfold forEach_element. apply preserves_forEach. intros i.
  apply preserves_bind; [apply preserves_gets |]. intros doc'.
  destruct (doc' !! i); [apply H | apply preserves_ret].
Qed.

Lemma preserves_call_user (f : obj → option value) : preserves R (call_user f).
Proof.
  unfold call_user. apply preserves_bind; [apply preserves_gets |].
  intros [v|]; [apply preserves_ret | apply preserves_throw].
Qed.

End Frames.

(** Breaks a goal [preserves R m] along the structure of [m]; [leaf]
    settles the effects that touch the world. *)
Ltac frame_with leaf :=
  repeat first
    [ progress intros
    | progress cbv beta zeta
    | solve [leaf]
    | apply preserves_ret
    | apply preserves_throw
    | apply preserves_gets
    | apply preserves_State_get
    | apply preserves_State_ref
    | apply preserves_checked_State_get
    | apply preserves_call_user
    | apply preserves_bind
    | apply preserves_try_catch
    | apply preserves_when
    | apply preserves_forEach
    | apply preserves_some
    | apply preserves_every
    | apply preserves_foldM
    | apply preserves_forEach_selected
    | apply preserves_forEach_element
    | match goal with
      | |- PreOrder _ => apply _
      | |- preserves _ (match ?x with _ => _ end) => destruct x
      | |- preserves _ (let '(_, _) := ?x in _) => destruct x
      end ].

Lemma extends_refl (ok : event → bool) (w : World) : extends ok w w.
Proof. by exists []. Qed.

Lemma extends_trans (ok : event → bool) (w1 w2 w3 : World) :
  extends ok w1 w2 → extends ok w2 w3 → extends ok w1 w3.
Proof.
  intros (e1 & H1 & F1) (e2 & H2 & F2). exists (e2 ++ e1)%list.
  rewrite H2, H1, app_assoc, forallb_app, F1, F2. done.
Qed.

Lemma extends_emit (ok : event → bool) (e : event) (w : World) :
  ok e = true → extends ok w (set_trace (e :: trace w) w).
Proof. intros H. exists [e]. simpl. by rewrite H. Qed.

#[local] Instance store_untouched_preorder : PreOrder store_untouched.
Proof.
  split.
  - intros w. repeat split. apply extends_refl.
  - intros w1 w2 w3 (T1 & L1 & E1) (T2 & L2 & E2). split; [congruence |].
    split; [congruence |]. by eapply extends_trans.
Qed.

#[local] Instance state_key_only_preorder : PreOrder state_key_only.
Proof.
  split.
  - intros w. split; [apply extends_refl | done].
  - intros w1 w2 w3 (E1 & L1) (E2 & L2). split; [by eapply extends_trans |].
    intros k Hk. by rewrite L2, L1.
Qed.

#[local] Instance same_bindings_preorder : PreOrder same_bindings.
Proof.
  split.
  - intros w. done.
  - intros w1 w2 w3 H1 H2. unfold same_bindings in *. congruence.
Qed.

(** *** The functions that refresh the document leave the store and the
    storage alone *)

Lemma store_untouched_emit (e : event) :
  no_storage e = true → preserves store_untouched (emit e).
Proof.
  intros H. apply preserves_modify. intros w.
  repeat split. by apply extends_emit.
Qed.

Lemma store_untouched_update_element (i : nat) (f : element → element) :
  preserves store_untouched (update_element i f).
Proof.
  apply preserves_modify. intros w. repeat split. by exists [].
Qed.

Create HintDb frames.
#[local] Hint Resolve store_untouched_update_element : frames.
#[local] Hint Extern 1 (preserves store_untouched (emit _)) =>
  apply store_untouched_emit; reflexivity : frames.
#[local] Hint Extern 1 (preserves store_untouched (requestAnimationFrame _)) =>
  apply store_untouched_emit; reflexivity : frames.

Ltac frame := frame_with ltac:(eauto 2 with frames).

Lemma store_untouched_toggle (i : nat) (token : string) (force : option bool) :
  preserves store_untouched (toggle i token force).
Proof. unfold toggle. frame. Qed.
#[local] Hint Resolve store_untouched_toggle : frames.

Lemma store_untouched_assign_checked (i : nat) (x : bool) :
  preserves store_untouched (assign_checked i x).
Proof. apply preserves_modify. intros w. repeat split. by exists []. Qed.
#[local] Hint Resolve store_untouched_assign_checked : frames.

Lemma store_untouched_assign_value (i : nat) (e : element) (text : string) :
  preserves store_untouched (assign_value i e text).
Proof. unfold assign_value. frame. Qed.
#[local] Hint Resolve store_untouched_assign_value : frames.

Lemma store_untouched_evaluateSingleCondition (P : Platform) (b : build)
    (c : string) :
  preserves store_untouched (evaluateSingleCondition P b c).
Proof. unfold evaluateSingleCondition, route_method. frame. Qed.
#[local] Hint Resolve store_untouched_evaluateSingleCondition : frames.

Lemma store_untouched_evaluateCondition (P : Platform) (b : build) (c : string) :
  preserves store_untouched (evaluateCondition P b c).
Proof. unfold evaluateCondition. frame. Qed.
#[local] Hint Resolve store_untouched_evaluateCondition : frames.

Lemma store_untouched_updateDOM (P : Platform) (b : build) (key : string)
    (v : value) :
  preserves store_untouched (updateDOM P b key v).
Proof. unfold updateDOM, updateDOM_write. frame. Qed.
#[local] Hint Resolve store_untouched_updateDOM : frames.

Lemma store_untouched_updateVisibility (P : Platform) (b : build) :
  preserves store_untouched (updateVisibility P b).
Proof. unfold updateVisibility. frame. Qed.
#[local] Hint Resolve store_untouched_updateVisibility : frames.

Lemma store_untouched_apply_class_rule (P : Platform) (b : build) (i : nat)
    (rule : string) :
  preserves store_untouched (apply_class_rule P b i rule).
Proof. unfold apply_class_rule. frame. Qed.
#[local] Hint Resolve store_untouched_apply_class_rule : frames.

Lemma store_untouched_updateClasses (P : Platform) (b : build) :
  preserves store_untouched (updateClasses P b).
Proof. unfold updateClasses. frame. Qed.
#[local] Hint Resolve store_untouched_updateClasses : frames.

(** ** Writes through the proxy *)


Lemma updateLocalStorage_unfold (P : Platform) (b : build) (key : string)
    (v : value) (w : World) :
  updateLocalStorage P b key v w
  = (updateDOM P b key v ;; updateVisibility P b ;; updateClasses P b)
      (stored P w).
Proof. destruct b; reflexivity. Qed.

Lemma refresh_store_untouched (P : Platform) (b : build) (key : string)
    (v : value) :
  preserves store_untouched
    (updateDOM P b key v ;; updateVisibility P b ;; updateClasses P b).
Proof. frame. Qed.

Lemma reactive_effective (callback : string → value → M unit) (key : string)
    (v : value) (w : World) :
  strict_eq (get (target w) key) v = false →
  reactive callback key v w
  = callback key v (set_target (put (target w) key v) w).
Proof.
  intros H. unfold reactive, bind, State_get, gets. by rewrite H.
Qed.

Lemma data_set_effective (P : Platform) (b : build) (key : string) (v : value)
    (w : World) :
  strict_eq (get (target w) key) v = false →
  let w' := world_of (data_set P b key v w) in
  target w' = put (target w) key v
  ∧ wrote_state (JSON_stringify P (target w')) w w'
  ∧ persisted P w'.
Proof.
  intros H w'. subst w'. unfold data_set.
  rewrite (reactive_effective _ _ _ _ H), updateLocalStorage_unfold.
  set (w1 := stored P (set_target (put (target w) key v) w)).
  destruct (refresh_store_untouched P b key v w1) as (Ht & Hl & (evs & He & _)).
  rewrite Ht. split; [reflexivity |]. split.
  - exists (evs ++ [SetItem "state" (JSON_stringify P (put (target w) key v))])%list.
    split.
    + rewrite He. subst w1. simpl. by rewrite <- app_assoc.
    + apply elem_of_app. right. by left.
  - unfold persisted. rewrite Hl, Ht. subst w1. simpl.
    by rewrite lookup_insert_eq.
Qed.





Lemma data_set_same_value (P : Platform) (b : build) (key : string) (v : value)
    (w : World) :
  strict_eq (get (target w) key) v = true →
  world_of (data_set P b key v w) = w.
Proof.
  intros H. unfold data_set. by rewrite (reactive_unchanged _ _ _ _ H).
Qed.

Lemma data_set_other_key (P : Platform) (b : build) (key key' : string)
    (v : value) (w : World) :
  key ≠ key' →
  get (target (world_of (data_set P b key v w))) key' = get (target w) key'.
Proof.
  intros Hne. destruct (strict_eq (get (target w) key) v) eqn:E.
  - by rewrite data_set_same_value.
  - destruct (data_set_effective P b key v w E) as (-> & _).
    by apply get_put_other.
Qed.

Lemma data_set_written (P : Platform) (b : build) (key : string) (v : value)
    (w : World) :
  let x := get (target (world_of (data_set P b key v w))) key in
  x = v ∨ strict_eq x v = true.
Proof.
  destruct (strict_eq (get (target w) key) v) eqn:E; simpl.
  - rewrite data_set_same_value; auto.
  - destruct (data_set_effective P b key v w E) as (-> & _).
    left. apply get_put_same.
Qed.







(** ** The structure of a condition *)

Lemma world_eta (w : World) : set_trace (trace w) w = w.
Proof. by destruct w. Qed.

(** The evaluation of a single condition reads the store and nothing else,
    and may only add to the trace. *)
Lemma evaluateSingleCondition_canonical (P : Platform) (b : build) (c : string)
    (w : World) :
  State_const w = true →
  evaluateSingleCondition P b c w
  = match condition_value P b (target w) c with
    | inr x => Ok x (set_trace (condition_log P b (target w) c ++ trace w) w)
    | inl e => Throw e (set_trace (condition_log P b (target w) c ++ trace w) w)
    end.
Proof.
  intros Hinit.
  unfold condition_value, condition_log, evaluateSingleCondition.
  destruct (parseCondition c) as [[stateKey operator] expectedValue].
  repeat match goal with
         | |- context [if ?x then _ else _] =>
             lazymatch x with
             | context [w] => fail
             | _ => destruct x
             end
         end;
    unfold route_method, checked_State_get, State_ref, State_get, emit;
    unfold bind, gets, ret, throw, modify;
    cbn [target State_const with_store set_target set_instance set_State_const
         empty_world outcome_value world_of trace];
    rewrite ?Hinit;
    cbn [target State_const with_store set_target set_instance set_State_const
         empty_world outcome_value world_of trace];
    rewrite ?world_eta; try reflexivity;
    repeat match goal with
           | |- context [match ?x with _ => _ end] =>
               lazymatch x with
               | context [Ok] => fail
               | context [Throw] => fail
               | _ => destruct x eqn:?
               end
           end;
    cbn [target State_const with_store set_target set_instance set_State_const
         empty_world outcome_value world_of trace set_trace app];
    rewrite ?world_eta; try reflexivity.
Qed.

Lemma condition_value_route_ok (P : Platform) (b : build) (c : string)
    (w : World) :
  route_ok b w → ∃ x, condition_value P b (target w) c = inr x.
Proof.
  intros Hok. unfold condition_value, evaluateSingleCondition.
  destruct (parseCondition c) as [[stateKey operator] expectedValue].
  assert (∀ f, ∃ x, outcome_value
                      (match b with
                       | Standalone => route_method (get (target w) "route") f
                       | UMD => ret (f (route_or_empty P (get (target w) "route")))
                       end (with_store (target w))) = inr x) as Hroute.
  { intros f. destruct Hok as [-> | Hs]; [by eexists |].
    destruct b; [| by eexists].
    destruct (get (target w) "route"); try discriminate. by eexists. }
  repeat match goal with
         | |- context [if ?x then _ else _] =>
             lazymatch x with
             | context [w] => fail
             | _ => lazymatch type of x with bool => destruct x end
             end
         end;
    unfold emit; unfold bind;
    rewrite ?checked_State_get_initialised by reflexivity;
    cbn [target State_const with_store set_target set_instance set_State_const
         empty_world];
    try apply Hroute;
    try (unfold ret, modify; cbn [outcome_value]; by eexists).
  - destruct b; [| by eexists].
    destruct Hok as [? | Hs]; [discriminate |].
    destruct (get (target w) "route"); try discriminate. by eexists.
  - destruct (RegExp_test P _ _); [by eexists |]. destruct b; by eexists.
Qed.

Lemma every_canonical {A : Type} (f : A → M bool) (g : A → bool)
    (Inv : World → Prop) (l : list A) :
  (∀ x w, Inv w → ∃ w', f x w = Ok (g x) w' ∧ Inv w') →
  ∀ w, Inv w → ∃ w', every l f w = Ok (forallb g l) w' ∧ Inv w'.
Proof.
  intros Hf. induction l as [|x l IH]; intros w Hw; simpl.
  - by exists w.
  - unfold bind. destruct (Hf x w Hw) as (w1 & -> & H1).
    destruct (g x); [by apply IH | by exists w1].
Qed.

Lemma some_canonical {A : Type} (f : A → M bool) (g : A → bool)
    (Inv : World → Prop) (l : list A) :
  (∀ x w, Inv w → ∃ w', f x w = Ok (g x) w' ∧ Inv w') →
  ∀ w, Inv w → ∃ w', some l f w = Ok (existsb g l) w' ∧ Inv w'.
Proof.
  intros Hf. induction l as [|x l IH]; intros w Hw; simpl.
  - by exists w.
  - unfold bind. destruct (Hf x w Hw) as (w1 & -> & H1).
    destruct (g x); [by exists w1 | by apply IH].
Qed.

(** Once the constant [State] is initialised and where no route test can
    fail (in the build that converts the route to a string, and in the
    standalone text when the route is a string), [evaluateCondition]
    returns, leaves the store as it is, and returns true exactly when some
    part between [||] has all its conditions between [&&] true. *)
Theorem evaluateCondition_or_of_ands (P : Platform) (b : build)
    (condition : string) (w : World) :
  State_const w = true →
  route_ok b w →
  ∃ r w', evaluateCondition P b condition w = Ok r w'
          ∧ target w' = target w
          ∧ (r = true ↔ or_of_ands P b w condition).
Proof.
  intros Hinit Hok.
  set (g := fun c => match condition_value P b (target w) c with
                     | inr x => x
                     | inl _ => false
                     end).
  set (Inv := fun w1 => target w1 = target w ∧ State_const w1 = true).
  assert (∀ c w1, Inv w1 →
                  ∃ w', evaluateSingleCondition P b c w1 = Ok (g c) w'
                        ∧ Inv w') as Hsingle.
  { intros c w1 [Hw1 Hc1].
    rewrite evaluateSingleCondition_canonical by exact Hc1. rewrite Hw1.
    subst g. cbv beta.
    destruct (condition_value_route_ok P b c w Hok) as (x & ->).
    eexists. split; [reflexivity |]. split; by destruct w1. }
  assert (∀ c, single_true P b w c ↔ g c = true) as Htrue.
  { intros c. destruct (Hsingle c w (conj eq_refl Hinit)) as (w' & He & _).
    unfold single_true. rewrite He. split.
    - by intros (w'' & [= -> _]).
    - intros ->. by eexists. }
  unfold evaluateCondition.
  destruct (some_canonical
              (fun orPart =>
                 every (Regex.split re_and orPart)
                   (fun andPart =>
                      evaluateSingleCondition P b (JsString.trim andPart)))
              (fun orPart =>
                 forallb (fun andPart => g (JsString.trim andPart))
                   (Regex.split re_and orPart))
              Inv (Regex.split re_or condition)) with (w := w)
    as (w' & He & Hw' & _); [| done |].
  { intros orPart w1 Hw1. apply every_canonical; [| done].
    intros andPart w2 Hw2. by apply Hsingle. }
  eexists _, w'. split; [exact He |]. split; [exact Hw' |].
  unfold or_of_ands. rewrite existsb_exists. split.
  - intros (orPart & Hin & Hall). exists orPart.
    split; [by apply list_elem_of_In |]. intros andPart Hand.
    apply Htrue. rewrite forallb_forall in Hall. apply Hall.
    by apply list_elem_of_In.
  - intros (orPart & Hin & Hall). exists orPart.
    split; [by apply list_elem_of_In |]. apply forallb_forall.
    intros andPart Hand. apply Htrue, Hall. by apply list_elem_of_In.
Qed.

Lemma evaluateCondition_or_of_ands_witness :
  State_const (with_store [("age", VNum 20); ("name", VStr "bob")]) = true
  ∧ route_ok UMD (with_store [("age", VNum 20); ("name", VStr "bob")])
  ∧ ∃ r w',
      evaluateCondition ref_platform UMD
        "age >= 18 && name matches /^b/ || admin"
        (with_store [("age", VNum 20); ("name", VStr "bob")]) = Ok r w'
      ∧ target w' = target (with_store [("age", VNum 20); ("name", VStr "bob")])
      ∧ (r = true ↔
         or_of_ands ref_platform UMD
           (with_store [("age", VNum 20); ("name", VStr "bob")])
           "age >= 18 && name matches /^b/ || admin").
Proof.
  split; [reflexivity |]. split; [by left |].
  apply (evaluateCondition_or_of_ands ref_platform UMD
           "age >= 18 && name matches /^b/ || admin"
           (with_store [("age", VNum 20); ("name", VStr "bob")])).
  - reflexivity.
  - by left.
Defined.

Lemma split_loop_nonempty (r : regex) (subject : list ascii)
    (fuel p q : nat) :
  Regex.split_loop r subject fuel p q ≠ [].
Proof.
  revert p q. induction fuel as [|fuel IH]; intros p q; simpl; [done |].
  destruct (q <? length subject)%nat; [| done].
  destruct (Regex.exec_at r subject q) as [[e0 ?]|]; [| apply IH].
  destruct (Nat.min e0 (length subject) =? p)%nat; [apply IH | done].
Qed.

Lemma split_nonempty (r : regex) (s : string) :
  Regex.exec_at r [] 0 = None → Regex.split r s ≠ [].
Proof.
  intros Hr. unfold Regex.split. destruct (JsString.chars s) as [|c l] eqn:E.
  - by rewrite Hr.
  - intros H. apply fmap_nil_inv in H. by apply split_loop_nonempty in H.
Qed.

Lemma evaluateSingleCondition_early (P : Platform) (b : build) (c : string)
    (w : World) :
  State_const w = false →
  evaluateSingleCondition P b c w = Throw ReferenceError w.
Proof.
  intros Hw. unfold evaluateSingleCondition.
  destruct (parseCondition c) as [[stateKey operator] expectedValue].
  repeat match goal with
         | |- context [if ?x then _ else _] =>
             lazymatch x with
             | context [w] => fail
             | _ => lazymatch type of x with bool => destruct x end
             end
         end;
    unfold bind; by rewrite checked_State_get_early.
Qed.

Lemma evaluateCondition_early (P : Platform) (b : build) (condition : string)
    (w : World) :
  State_const w = false →
  evaluateCondition P b condition w = Throw ReferenceError w.
Proof.
  intros Hw. unfold evaluateCondition.
  destruct (Regex.split re_or condition) as [|orPart orParts] eqn:Hor.
  { by apply split_nonempty in Hor. }
  simpl. unfold bind at 1.
  destruct (Regex.split re_and orPart) as [|andPart andParts] eqn:Hand.
  { by apply split_nonempty in Hand. }
  simpl. unfold bind at 1.
  by rewrite evaluateSingleCondition_early.
Qed.

(** C5, in the file that assigns its helper functions before the statement
    [const State = new StateSingleton()]: whatever the condition and
    whatever the store holds, an evaluation that takes place before that
    statement has completed throws a ReferenceError and returns nothing.
    The constructor starts such an evaluation itself, by its write of
    [route], as soon as the document has an element with a [show-if]
    attribute. *)
Theorem evaluateCondition_before_State (P : Platform) (condition : string)
    (w : World) :
  State_const w = false →
  evaluateCondition P UMD condition w = Throw ReferenceError w.
Proof. apply evaluateCondition_early. Qed.

Lemma evaluateCondition_before_State_witness :
  State_const admin_visit = false
  ∧ evaluateCondition ref_platform UMD "route==/home || admin" admin_visit
    = Throw ReferenceError admin_visit.
Proof.
  split; [reflexivity |].
  apply (evaluateCondition_before_State ref_platform "route==/home || admin"
           admin_visit).
  reflexivity.
Defined.

(** On the page of the administrator the constructor does not return: its
    write of [route] evaluates the condition of the banner, and the
    statement that was to initialise [State] ends in a ReferenceError.  The
    store of that moment holds [admin: true], under which the part [admin]
    of the condition has its one condition true, as the same evaluation
    shows once [State] is initialised. *)
Example umd_constructor_on_admin_visit :
  ∃ w', initialise_State ref_platform UMD admin_visit = Throw ReferenceError w'
        ∧ State_const w' = false
        ∧ get (target w') "admin" = VBool true
        ∧ evaluateCondition ref_platform UMD "route==/home || admin" w'
          = Throw ReferenceError w'
        ∧ outcome_value
            (evaluateCondition ref_platform UMD "route==/home || admin"
               (set_State_const true w'))
          = inr true.
Proof.
  eexists. split; [vm_compute; reflexivity |].
  split; [reflexivity |]. split; [vm_compute; reflexivity |].
  split; vm_compute; reflexivity.
Qed.

(** ** Two-way binding *)

Lemma bind_world {A B : Type} (R : relation World) `{!PreOrder R}
    (m : M A) (f : A → M B) (w : World) :
  (∀ a, preserves R (f a)) → R (world_of (m w)) (world_of (bind m f w)).
Proof.
  intros H. unfold bind. destruct (m w) as [a w'|e w']; simpl.
  - apply H.
  - reflexivity.
Qed.

Lemma same_bindings_modify (f : World → World) :
  (∀ w, document (f w) = document w) → preserves same_bindings (modify f).
Proof.
  intros H. apply preserves_modify. intros w. unfold same_bindings.
  by rewrite H.
Qed.

Lemma same_bindings_update_element (i : nat) (f : element → element) :
  (∀ e, binding_of (f e) = binding_of e) →
  preserves same_bindings (update_element i f).
Proof.
  intros H. apply preserves_modify. intros w. unfold same_bindings. simpl.
  rewrite (list_fmap_alter binding_of f id).
  - by apply list_alter_id.
  - apply Forall_forall. intros e _. apply H.
Qed.

#[local] Hint Extern 1 (preserves same_bindings (emit _)) =>
  apply same_bindings_modify; reflexivity : frames.
#[local] Hint Extern 1 (preserves same_bindings (requestAnimationFrame _)) =>
  apply same_bindings_modify; reflexivity : frames.
#[local] Hint Extern 1 (preserves same_bindings (update_element _ _)) =>
  apply same_bindings_update_element; reflexivity : frames.

Lemma same_bindings_toggle (i : nat) (token : string) (force : option bool) :
  preserves same_bindings (toggle i token force).
Proof. unfold toggle. frame. Qed.
#[local] Hint Resolve same_bindings_toggle : frames.

Lemma same_bindings_evaluateSingleCondition (P : Platform) (b : build)
    (c : string) :
  preserves same_bindings (evaluateSingleCondition P b c).
Proof. unfold evaluateSingleCondition, route_method. frame. Qed.
#[local] Hint Resolve same_bindings_evaluateSingleCondition : frames.

Lemma same_bindings_evaluateCondition (P : Platform) (b : build) (c : string) :
  preserves same_bindings (evaluateCondition P b c).
Proof. unfold evaluateCondition. frame. Qed.
#[local] Hint Resolve same_bindings_evaluateCondition : frames.

Lemma same_bindings_updateVisibility (P : Platform) (b : build) :
  preserves same_bindings (updateVisibility P b).
Proof. unfold updateVisibility. frame. Qed.
#[local] Hint Resolve same_bindings_updateVisibility : frames.

Lemma same_bindings_apply_class_rule (P : Platform) (b : build) (i : nat)
    (rule : string) :
  preserves same_bindings (apply_class_rule P b i rule).
Proof. unfold apply_class_rule. frame. Qed.
#[local] Hint Resolve same_bindings_apply_class_rule : frames.

Lemma same_bindings_updateClasses (P : Platform) (b : build) :
  preserves same_bindings (updateClasses P b).
Proof. unfold updateClasses. frame. Qed.
#[local] Hint Resolve same_bindings_updateClasses : frames.

Lemma select_from_NoDup (doc : list element) (sels : list selector)
    (rest : list element) (i : nat) :
  NoDup (select_from doc sels rest i).
Proof.
  revert i. induction rest as [|e rest IH]; intros i; simpl.
  - constructor.
  - destruct (existsb _ sels); [| apply IH].
    constructor; [| apply IH].
    rewrite elem_of_select_from. intros (e' & Hle & _). lia.
Qed.

Lemma lookup_foldl_alter (F : element → element) (l : list nat)
    (doc : list element) (j : nat) :
  NoDup l →
  foldl (fun d i => alter F i d) doc l !! j
  = if decide (j ∈ l) then F <$> doc !! j else doc !! j.
Proof.
  intros Hnd. revert doc. induction Hnd as [|i l Hni Hnd IH]; intros doc; simpl.
  - done.
  - rewrite IH. destruct (decide (j = i)) as [-> | Hne].
    + rewrite decide_False by done. rewrite decide_True by (by left).
      apply list_lookup_alter_eq.
    + rewrite list_lookup_alter_ne by done.
      destruct (decide (j ∈ l)).
      * rewrite decide_True by (by right). done.
      * rewrite decide_False; [done |]. intros [? | ?]%elem_of_cons; tauto.
Qed.

Lemma bound_to_spec (key : string) (e : element) :
  bound_to key e = true ↔ getAttribute "data-bind" (attributes e) = Some key.
Proof.
  unfold bound_to. simpl.
  destruct (getAttribute "data-bind" (attributes e)) as [x|]; [| done].
  destruct (String.eqb_spec x key); split; congruence.
Qed.



















(** ** One storage key *)

Lemma forallb_no_storage_only_state (evs : list event) :
  forallb no_storage evs = true → forallb only_state evs = true.
Proof.
  rewrite !forallb_forall. intros H e He. specialize (H e He).
  unfold no_storage, only_state in *. by destruct (storage_key e).
Qed.

Lemma store_untouched_state_key_only {A : Type} (m : M A) :
  preserves store_untouched m → preserves state_key_only m.
Proof.
  intros H w. destruct (H w) as (_ & Hl & (evs & He & Hf)). split.
  - exists evs. split; [done | by apply forallb_no_storage_only_state].
  - intros k _. by rewrite Hl.
Qed.

Lemma state_key_only_modify (f : World → World) :
  (∀ w, trace (f w) = trace w ∧ localStorage (f w) = localStorage w) →
  preserves state_key_only (modify f).
Proof.
  intros H. apply preserves_modify. intros w. destruct (H w) as [Ht Hl].
  split; [by exists [] | intros k _; by rewrite Hl].
Qed.

Lemma state_key_only_emit (e : event) :
  only_state e = true → preserves state_key_only (emit e).
Proof.
  intros H. apply preserves_modify. intros w. split; [| done].
  by apply extends_emit.
Qed.

Lemma state_key_only_getItem : preserves state_key_only (getItem "state").
Proof.
  unfold getItem.
  frame_with ltac:(apply state_key_only_emit; reflexivity).
Qed.

Lemma state_key_only_setItem (val : string) :
  preserves state_key_only (setItem "state" val).
Proof.
  unfold setItem.
  frame_with ltac:(first
    [ apply state_key_only_emit; reflexivity
    | apply preserves_modify; intros w; split;
      [ by exists [] | intros k Hk; simpl; by rewrite lookup_insert_ne ] ]).
Qed.

#[local] Hint Resolve state_key_only_getItem state_key_only_setItem : frames.
#[local] Hint Extern 1 (preserves state_key_only (emit _)) =>
  apply state_key_only_emit; reflexivity : frames.
#[local] Hint Extern 1 (preserves state_key_only (requestAnimationFrame _)) =>
  apply state_key_only_emit; reflexivity : frames.
#[local] Hint Extern 1 (preserves state_key_only (modify _)) =>
  apply state_key_only_modify; intros; split; reflexivity : frames.
#[local] Hint Extern 1 (preserves state_key_only (assign _ _)) =>
  apply state_key_only_modify; intros; split; reflexivity : frames.
#[local] Hint Extern 1 (preserves state_key_only (update_element _ _)) =>
  apply state_key_only_modify; intros; split; reflexivity : frames.
#[local] Hint Extern 1 (preserves state_key_only (addEventListener _ _)) =>
  apply state_key_only_modify; intros; split; reflexivity : frames.
#[local] Hint Extern 1 (preserves state_key_only (updateDOM _ _ _ _)) =>
  apply store_untouched_state_key_only, store_untouched_updateDOM : frames.
#[local] Hint Extern 1 (preserves state_key_only (updateVisibility _ _)) =>
  apply store_untouched_state_key_only, store_untouched_updateVisibility : frames.
#[local] Hint Extern 1 (preserves state_key_only (updateClasses _ _)) =>
  apply store_untouched_state_key_only, store_untouched_updateClasses : frames.
#[local] Hint Extern 1 (preserves state_key_only (toggle _ _ _)) =>
  apply store_untouched_state_key_only, store_untouched_toggle : frames.
#[local] Hint Extern 1 (preserves state_key_only (assign_checked _ _)) =>
  apply store_untouched_state_key_only, store_untouched_assign_checked : frames.
#[local] Hint Extern 1 (preserves state_key_only (assign_value _ _ _)) =>
  apply store_untouched_state_key_only, store_untouched_assign_value : frames.

Lemma state_key_only_trackOnShowElements :
  preserves state_key_only trackOnShowElements.
Proof. unfold trackOnShowElements. frame. Qed.
#[local] Hint Resolve state_key_only_trackOnShowElements : frames.

Lemma state_key_only_updateLocalStorage (P : Platform) (b : build)
    (key : string) (v : value) :
  preserves state_key_only (updateLocalStorage P b key v).
Proof. unfold updateLocalStorage. frame. Qed.
#[local] Hint Resolve state_key_only_updateLocalStorage : frames.

Lemma state_key_only_data_set (P : Platform) (b : build) (key : string)
    (v : value) :
  preserves state_key_only (data_set P b key v).
Proof. unfold data_set, reactive. frame. Qed.
#[local] Hint Resolve state_key_only_data_set : frames.

Lemma state_key_only_State_set (P : Platform) (b : build) (properties : obj) :
  preserves state_key_only (State_set P b properties).
Proof. unfold State_set. frame. Qed.
#[local] Hint Resolve state_key_only_State_set : frames.

Lemma state_key_only_State_subscribe (key : string) (callback : nat) :
  preserves state_key_only (State_subscribe key callback).
Proof. unfold State_subscribe. frame. Qed.

Lemma state_key_only_State_unsubscribe (key : string) (callback : nat) :
  preserves state_key_only (State_unsubscribe key callback).
Proof. unfold State_unsubscribe. frame. Qed.

Lemma state_key_only_State_reset (P : Platform) (b : build) (initialState : obj) :
  preserves state_key_only (State_reset P b initialState).
Proof. unfold State_reset, call_function. frame. Qed.

Lemma state_key_only_checkForExistingPrompt (P : Platform) (b : build) :
  preserves state_key_only (checkForExistingPrompt P b).
Proof. unfold checkForExistingPrompt. frame. Qed.
#[local] Hint Resolve state_key_only_checkForExistingPrompt : frames.

Lemma state_key_only_initPWA (P : Platform) (b : build) :
  preserves state_key_only (initPWA P b).
Proof. unfold initPWA, checkPWAStatus. frame. Qed.
#[local] Hint Resolve state_key_only_initPWA : frames.

Lemma state_key_only_constructor (P : Platform) (b : build) :
  preserves state_key_only (StateSingleton_constructor P b).
Proof.
  unfold StateSingleton_constructor, initial_storedData, parse_stored,
    writable_props, reactive_ref, bindInputs, trackUserEngagement.
  frame.
Qed.

Lemma state_key_only_initialise_State (P : Platform) (b : build) :
  preserves state_key_only (initialise_State P b).
Proof.
  pose proof (state_key_only_constructor P b).
  unfold initialise_State. frame.
Qed.

Lemma state_key_only_navigate (P : Platform) (b : build) (path options : value)
    (replace : bool) :
  preserves state_key_only (navigate P b path options replace).
Proof. unfold navigate. frame. Qed.
#[local] Hint Resolve state_key_only_navigate : frames.

Lemma state_key_only_validate (P : Platform) (b : build) (g : string) :
  preserves state_key_only (validate P b g).
Proof. unfold validate, selectors_of_group. frame. Qed.

Lemma state_key_only_resetValidation (P : Platform) (b : build) (g : string) :
  preserves state_key_only (resetValidation P b g).
Proof. unfold resetValidation, selectors_of_group. frame. Qed.

Lemma state_key_only_run_handler (P : Platform) (b : build) (h : handler)
    (target : nat) (payload : value) :
  preserves state_key_only (run_handler P b h target payload).
Proof.
  unfold run_handler, on_change, on_beforeinstallprompt, on_appinstalled,
    on_interaction, on_load.
  frame.
Qed.

Lemma state_key_only_run_frame (P : Platform) (b : build) (t : frame_task) :
  preserves state_key_only (run_frame P b t).
Proof. unfold run_frame. frame. Qed.

Lemma state_key_only_dispatchEvent (P : Platform) (b : build) (type : string)
    (target : nat) (payload : value) (w : World) :
  state_key_only w (dispatchEvent P b type target payload w).
Proof.
  unfold dispatchEvent. generalize (listeners w) as ls.
  intros ls. revert w. induction ls as [|l ls IH]; intros w; simpl.
  - reflexivity.
  - etrans; [| apply IH]. destruct (String.eqb l.1 type).
    + apply state_key_only_run_handler.
    + reflexivity.
Qed.

Lemma state_key_only_on_hashchange (P : Platform) (b : build) :
  preserves state_key_only (on_hashchange P b).
Proof. unfold on_hashchange. frame. Qed.

Lemma state_key_only_on_DOMContentLoaded (P : Platform) (b : build) :
  preserves state_key_only (on_DOMContentLoaded P b).
Proof. unfold on_DOMContentLoaded. frame. Qed.

Lemma state_key_only_initial_route (P : Platform) (b : build) :
  preserves state_key_only (initial_route P b).
Proof. unfold initial_route. frame. Qed.

Lemma state_key_only_step (P : Platform) (b : build) (o : op) (w : World) :
  state_key_only w (step P b o w).
Proof.
  assert (state_key_only w (loaded_step P b o w)) as Hloaded.
  { destruct o; simpl; try reflexivity.
    - apply state_key_only_data_set.
    - split; [by exists [] | done].
    - apply state_key_only_State_set.
    - apply state_key_only_State_subscribe.
    - apply state_key_only_State_unsubscribe.
    - apply state_key_only_State_reset.
    - apply state_key_only_navigate.
    - apply (state_key_only_validate P b groupName).
    - apply state_key_only_resetValidation.
    - unfold on_popstate. apply state_key_only_navigate.
    - etrans; [| apply state_key_only_on_hashchange].
      split; [by exists [] | done].
    - apply state_key_only_on_DOMContentLoaded.
    - apply state_key_only_initial_route. }
  destruct o; simpl;
    try (destruct (State_const w); [exact Hloaded | reflexivity]).
  - apply state_key_only_initialise_State.
  - apply state_key_only_dispatchEvent.
  - apply state_key_only_run_frame.
Qed.

(** C7: whatever the page and the browser make the library do (construct
    the store, write, set, subscribe, reset, navigate, validate, dispatch
    events, run animation frames), every read and every write of
    persistent storage uses the key [state], and what storage holds under
    any other key is left as it was. *)
Theorem storage_only_under_state (P : Platform) (b : build) (ops : list op)
    (w : World) :
  let w' := steps P b ops w in
  (∃ evs, trace w' = (evs ++ trace w)%list
          ∧ ∀ e k, e ∈ evs → storage_key e = Some k → k = "state")
  ∧ ∀ k, k ≠ "state" → localStorage w' !! k = localStorage w !! k.
Proof.
  intros w'. subst w'.
  assert (state_key_only w (steps P b ops w)) as [(evs & Ht & Hf) Hl].
  { unfold steps. revert w. induction ops as [|o ops IH]; intros w; simpl.
    - reflexivity.
    - etrans; [apply state_key_only_step | apply IH]. }
  split; [| exact Hl]. exists evs. split; [exact Ht |].
  intros e k He Hk. rewrite forallb_forall in Hf.
  specialize (Hf e (proj1 (list_elem_of_In _ _) He)).
  unfold only_state in Hf. rewrite Hk in Hf. by apply String.eqb_eq.
Qed.

(** The key is used: a first visit reads it and writes it. *)
Example storage_used_on_first_visit :
  GetItem "state" ∈ trace first_visit
  ∧ ∃ json, SetItem "state" json ∈ trace first_visit.
Proof.
  assert (∃ json, trace first_visit
                  = [RequestAnimationFrame InitialRender;
                     RequestAnimationFrame TrackOnShowElements;
                     RequestAnimationFrame UpdateClasses;
                     RequestAnimationFrame UpdateVisibility;
                     SetItem "state" json; GetItem "state"]) as (json & ->).
  { eexists. vm_compute. reflexivity. }
  split; [| exists json]; repeat (first [by left | right]).
Qed.

(** ** Executable checks of the string functions and of the reference
    platform *)

Example split_semicolons : JsString.split "a;b;;c" ";" = ["a"; "b"; ""; "c"].
Proof. reflexivity. Qed.
Example split_empty : JsString.split "" "#" = [""].
Proof. reflexivity. Qed.
Example split_hashes : JsString.split "/a#b#c" "#" = ["/a"; "b"; "c"].
Proof. reflexivity. Qed.
Example split_trailing_hash : JsString.split "a#" "#" = ["a"; ""].
Proof. reflexivity. Qed.
Example trim_both_ends : JsString.trim "  a b  " = "a b".
Proof. reflexivity. Qed.
Example replace_route_prefix : JsString.replace_first "route==/x" "route==" "" = "/x".
Proof. reflexivity. Qed.

Example parse_comparison : parseCondition "age >= 18" = ("age", ">=", "18").
Proof. reflexivity. Qed.
Example parse_matches : parseCondition "name matches /^a.*z$/" = ("name", "matches", "/^a.*z$/").
Proof. reflexivity. Qed.
Example parse_single_equals : parseCondition "a = 5" = ("a = 5", "", "").
Proof. reflexivity. Qed.
Example parse_keeps_inner_spaces : parseCondition "x==  y z " = ("x", "==", "y z ").
Proof. reflexivity. Qed.
Example parse_leading_space : parseCondition " ab!=c" = ("ab", "!=", "c").
Proof. reflexivity. Qed.
Example parse_no_spaces : parseCondition "a>=b" = ("a", ">=", "b").
Proof. reflexivity. Qed.
Example parse_missing_value : parseCondition "a>" = ("a>", "", "").
Proof. reflexivity. Qed.
Example parse_backtracks_operator : parseCondition "a>=" = ("a", ">", "=").
Proof. reflexivity. Qed.
Example split_or_parts : Regex.split re_or "a || b&&c||d" = ["a"; "b&&c"; "d"].
Proof. reflexivity. Qed.
Example split_or_empty : Regex.split re_or "" = [""].
Proof. reflexivity. Qed.
Example split_or_at_ends : Regex.split re_or "|| a ||" = [""; "a"; ""].
Proof. reflexivity. Qed.
Example split_and_parts : Regex.split re_and "  a  &&  b " = ["  a"; "b "].
Proof. reflexivity. Qed.
Example split_or_three_bars : Regex.split re_or "a|||b" = ["a"; "|b"].
Proof. reflexivity. Qed.
Example strip_both_slashes : Regex.delete_all re_slashes "/ab/" = "ab".
Proof. reflexivity. Qed.
Example strip_single_slash : Regex.delete_all re_slashes "/" = "".
Proof. reflexivity. Qed.
Example strip_inner_slash_kept : Regex.delete_all re_slashes "a/b" = "a/b".
Proof. reflexivity. Qed.
Example strip_one_slash_each_end : Regex.delete_all re_slashes "//a//" = "/a/".
Proof. reflexivity. Qed.
Example no_operator_char : Regex.test re_operator_char "abc" = false.
Proof. reflexivity. Qed.
Example matches_is_operator : Regex.test re_operator_char "a matches b" = true.
Proof. reflexivity. Qed.

Example ref_json_parse_1 : Ref.JSON_parse ("{" ++ q "a" ++ ": 1, " ++ q "b" ++ ": [true, null, " ++ q "x\n" ++ "]}")
  = Some (VObject 34 [("a", VNum 1); ("b", VArray 20 [VBool true; VNull; VStr "x
"])]).
Proof. vm_compute. reflexivity. Qed.
Example ref_json_parse_2 : Ref.JSON_parse "{oops" = None.
Proof. vm_compute. reflexivity. Qed.
Example ref_json_parse_3 : Ref.JSON_parse "null" = Some VNull.
Proof. vm_compute. reflexivity. Qed.
Example ref_json_parse_4 : Ref.JSON_parse " 12.5e1 " = Some (VNum 125).
Proof. vm_compute. reflexivity. Qed.
Example ref_json_parse_5 : Ref.JSON_parse "01" = None.
Proof. vm_compute. reflexivity. Qed.
Example ref_json_parse_6 : Ref.JSON_parse ("{" ++ q "a" ++ ":1,}") = None.
Proof. vm_compute. reflexivity. Qed.
Example ref_json_parse_7 : Ref.JSON_parse "" = None.
Proof. vm_compute. reflexivity. Qed.
Example ref_json_parse_8 : Ref.JSON_parse "-0.5" = Some (VNum (-0.5)).
Proof. vm_compute. reflexivity. Qed.
Example ref_json_parse_9 : Ref.JSON_parse (q "aA\\") = Some (VStr "aA\").
Proof. vm_compute. reflexivity. Qed.

Example ref_number_text_1 : Ref.Number_toString 12 = "12". Proof. vm_compute. reflexivity. Qed.
Example ref_number_text_2 : Ref.Number_toString (-0.5) = "-0.5". Proof. vm_compute. reflexivity. Qed.
Example ref_number_text_3 : Ref.Number_toString 1e20 = "100000000000000000000". Proof. vm_compute. reflexivity. Qed.
Example ref_parseFloat_1 : Ref.parseFloat " 12.5px" = 12.5%float. Proof. vm_compute. reflexivity. Qed.
Example ref_parseFloat_2 : PrimFloat.is_nan (Ref.parseFloat "abc") = true. Proof. vm_compute. reflexivity. Qed.
Example ref_parseFloat_3 : Ref.parseFloat ".5" = 0.5%float. Proof. vm_compute. reflexivity. Qed.
Example ref_parseFloat_4 : Ref.parseFloat "1e3x" = 1000%float. Proof. vm_compute. reflexivity. Qed.
Example ref_parseFloat_5 : Ref.parseFloat "5." = 5%float. Proof. vm_compute. reflexivity. Qed.
Example ref_parseFloat_6 : PrimFloat.is_nan (Ref.parseFloat ".") = true. Proof. vm_compute. reflexivity. Qed.
Example ref_to_number_1 : Ref.StringToNumber " 0x1f " = 31%float. Proof. vm_compute. reflexivity. Qed.
Example ref_to_number_2 : Ref.StringToNumber "" = 0%float. Proof. vm_compute. reflexivity. Qed.
Example ref_to_number_3 : PrimFloat.is_nan (Ref.StringToNumber "12px") = true. Proof. vm_compute. reflexivity. Qed.
Example ref_to_number_4 : Ref.StringToNumber "18" = 18%float. Proof. vm_compute. reflexivity. Qed.
Example ref_json_stringify_1 : Ref.JSON_stringify [("a", VNum 1); ("f", VFunction 3); ("s", VStr ("x" ++ q "y")); ("l", VArray 0 [VUndefined; VBool true])]
  = "{" ++ q "a" ++ ":1," ++ q "s" ++ ":" ++ q ("x\" ++ String Ref.dquote "y\" ++ String Ref.dquote "") ++ "," ++ q "l" ++ ":[null,true]}". Proof. vm_compute. reflexivity. Qed.

Example ref_regexp_1 : Ref.RegExp_test "^a.*z$" "abcz" = Some true. Proof. vm_compute. reflexivity. Qed.
Example ref_regexp_2 : Ref.RegExp_test "(" "abcz" = None. Proof. vm_compute. reflexivity. Qed.
Example ref_regexp_3 : Ref.RegExp_test "[0-9]+@x\.y" "a 12@x.y" = Some true. Proof. vm_compute. reflexivity. Qed.
Example ref_regexp_4 : Ref.RegExp_test "[0-9]+@x\.y" "a 12@xzy" = Some false. Proof. vm_compute. reflexivity. Qed.
Example ref_regexp_5 : Ref.RegExp_test "*a" "a" = None. Proof. vm_compute. reflexivity. Qed.
Example ref_regexp_6 : Ref.RegExp_test "a|b(c|d)?" "xbd" = Some true. Proof. vm_compute. reflexivity. Qed.
Example ref_regexp_7 : Ref.RegExp_test "[a" "a" = None. Proof. vm_compute. reflexivity. Qed.
Example ref_regexp_8 : Ref.RegExp_test "a)" "a" = None. Proof. vm_compute. reflexivity. Qed.
Example ref_regexp_9 : Ref.RegExp_test "" "a" = Some true. Proof. vm_compute. reflexivity. Qed.
Example ref_regexp_10 : Ref.RegExp_test "^\d+$" "123" = Some true. Proof. vm_compute. reflexivity. Qed.

Example object_keys_order :
  Object_keys [("b", VNull); ("10", VNull); ("a", VNull); ("2", VNull);
               ("01", VNull)]
  = ["2"; "10"; "b"; "a"; "01"].
Proof. reflexivity. Qed.

Example class_tokens_of_text : class_tokens " a  b a " = ["a"; "b"].
Proof. reflexivity. Qed.

Example fullPath_second_hash_dropped : fullPath_of "/docs#api#x" = "/docs#api".
Proof. reflexivity. Qed.

Example fullPath_empty_hash_dropped : fullPath_of "/docs#" = "/docs".
Proof. reflexivity. Qed.

Example condition_with_number_and_pattern :
  outcome_value
    (evaluateCondition ref_platform UMD
       "age >= 18 && name matches /^b/ || admin"
       (with_store [("age", VStr "20"); ("name", VStr "bob")]))
  = inr true.
Proof. vm_compute. reflexivity. Qed.

Example negated_operator_is_a_negation :
  outcome_value
    (evaluateSingleCondition ref_platform UMD "!= 5" (with_store []))
  = inr true.
Proof. vm_compute. reflexivity. Qed.

(* ===================================================================== *)
(** * Further properties of the store, the router and the document *)
(* ===================================================================== *)

(** ** More frames *)

Lemma preserves_weaken {A : Type} (R R' : relation World) (m : M A) :
  (∀ w w', R w w' → R' w w') → preserves R m → preserves R' m.
Proof. intros H Hm w. apply H, Hm. Qed.

Lemma preserves_forEach_in {A : Type} (R : relation World) `{!PreOrder R}
    (l : list A) (f : A → M unit) :
  (∀ x, x ∈ l → preserves R (f x)) → preserves R (forEach l f).
Proof.
  induction l as [|x l IH]; intros H; simpl.
  - by apply preserves_ret.
  - apply preserves_bind; [done | apply H; by left |].
    intros _. apply IH. intros y Hy. apply H. by right.
Qed.

(** *** A key of the store that is not written *)

#[local] Instance keeps_preorder (k : string) : PreOrder (keeps k).
Proof.
  split.
  - intros w. done.
  - intros w1 w2 w3 H1 H2. unfold keeps in *. congruence.
Qed.

Lemma store_untouched_keeps (k : string) (w w' : World) :
  store_untouched w w' → keeps k w w'.
Proof. intros (H & _). unfold keeps. by rewrite H. Qed.

Lemma keeps_modify (k : string) (f : World → World) :
  (∀ w, target (f w) = target w) → preserves (keeps k) (modify f).
Proof. intros H. apply preserves_modify. intros w. unfold keeps. by rewrite H. Qed.

Lemma keeps_data_set (P : Platform) (b : build) (k k' : string) (v : value) :
  k' ≠ k → preserves (keeps k) (data_set P b k' v).
Proof. intros H w. by apply data_set_other_key. Qed.

#[local] Hint Extern 1 (preserves (keeps _) (emit _)) =>
  apply keeps_modify; reflexivity : frames.
#[local] Hint Extern 1 (preserves (keeps _) (requestAnimationFrame _)) =>
  apply keeps_modify; reflexivity : frames.
#[local] Hint Extern 1 (preserves (keeps _) (addEventListener _ _)) =>
  apply keeps_modify; reflexivity : frames.
#[local] Hint Extern 1 (preserves (keeps _) (update_element _ _)) =>
  apply keeps_modify; reflexivity : frames.
#[local] Hint Extern 1 (preserves (keeps _) (modify _)) =>
  apply keeps_modify; reflexivity : frames.
#[local] Hint Extern 1 (preserves (keeps _) (assign_checked _ _)) =>
  apply keeps_modify; reflexivity : frames.
#[local] Hint Extern 1 (preserves (keeps _) (assign_value _ _ _)) =>
  eapply preserves_weaken;
    [apply store_untouched_keeps | apply store_untouched_assign_value] : frames.
#[local] Hint Extern 1 (preserves (keeps _) (toggle _ _ _)) =>
  eapply preserves_weaken;
    [apply store_untouched_keeps | apply store_untouched_toggle] : frames.
#[local] Hint Extern 1 (preserves (keeps _) (updateDOM _ _ _ _)) =>
  eapply preserves_weaken;
    [apply store_untouched_keeps | apply store_untouched_updateDOM] : frames.
#[local] Hint Extern 1 (preserves (keeps _) (updateVisibility _ _)) =>
  eapply preserves_weaken;
    [apply store_untouched_keeps | apply store_untouched_updateVisibility]
  : frames.
#[local] Hint Extern 1 (preserves (keeps _) (updateClasses _ _)) =>
  eapply preserves_weaken;
    [apply store_untouched_keeps | apply store_untouched_updateClasses]
  : frames.
#[local] Hint Extern 1 (preserves (keeps _) (data_set _ _ _ _)) =>
  apply keeps_data_set; congruence : frames.

Lemma keeps_State_set (P : Platform) (b : build) (k : string)
    (properties : obj) :
  (∀ kv, kv ∈ properties → fst kv ≠ k) →
  preserves (keeps k) (State_set P b properties).
Proof.
  intros H. unfold State_set. apply preserves_bind; [apply _ | | frame].
  apply preserves_forEach_in; [apply _ |]. intros kv Hin.
  specialize (H kv Hin). frame.
Qed.

(** *** The subscriptions, and what is added to the trace *)

#[local] Instance calm_preorder (ok : event → bool) : PreOrder (calm ok).
Proof.
  split.
  - intros w. split; [done |]. split; [done | apply extends_refl].
  - intros w1 w2 w3 (S1 & D1 & E1) (S2 & D2 & E2). split; [congruence |].
    split; [congruence |]. by eapply extends_trans.
Qed.

Lemma calm_emit (ok : event → bool) (e : event) :
  ok e = true → preserves (calm ok) (emit e).
Proof.
  intros H. apply preserves_modify. intros w. split; [done |].
  split; [done |]. by apply extends_emit.
Qed.

Lemma calm_modify (ok : event → bool) (f : World → World) :
  (∀ w, subscribers (f w) = subscribers w) →
  (∀ w, deferredPrompt (f w) = deferredPrompt w) →
  (∀ w, trace (f w) = trace w) →
  preserves (calm ok) (modify f).
Proof.
  intros Hs Hd Ht. apply preserves_modify. intros w. split; [apply Hs |].
  split; [apply Hd |]. exists []. by rewrite Ht.
Qed.

Lemma bind_modify {B : Type} (f : World → World) (k : unit → M B) (w : World) :
  bind (modify f) k w = k tt (f w).
Proof. reflexivity. Qed.

Section Calm.
Context (ok : event → bool).
Hypothesis refresh_ok : ∀ e, refresh_event e = true → ok e = true.

#[local] Hint Extern 1 (preserves (calm _) (emit _)) =>
  apply calm_emit; apply refresh_ok; reflexivity : frames.
#[local] Hint Extern 1 (preserves (calm _) (requestAnimationFrame _)) =>
  apply calm_emit; apply refresh_ok; reflexivity : frames.
#[local] Hint Extern 1 (preserves (calm _) (update_element _ _)) =>
  apply calm_modify; reflexivity : frames.
#[local] Hint Extern 1 (preserves (calm _) (assign _ _)) =>
  apply calm_modify; reflexivity : frames.
#[local] Hint Extern 1 (preserves (calm _) (modify _)) =>
  apply calm_modify; reflexivity : frames.
#[local] Hint Extern 1 (preserves (calm _) (assign_checked _ _)) =>
  unfold assign_checked; apply calm_modify; reflexivity : frames.

Lemma calm_assign_value (i : nat) (e : element) (text : string) :
  preserves (calm ok) (assign_value i e text).
Proof. unfold assign_value. frame. Qed.
#[local] Hint Resolve calm_assign_value : frames.

Lemma calm_toggle (i : nat) (token : string) (force : option bool) :
  preserves (calm ok) (toggle i token force).
Proof. unfold toggle. frame. Qed.
#[local] Hint Resolve calm_toggle : frames.

Lemma calm_evaluateCondition (P : Platform) (b : build) (c : string) :
  preserves (calm ok) (evaluateCondition P b c).
Proof. unfold evaluateCondition, evaluateSingleCondition, route_method. frame. Qed.
#[local] Hint Resolve calm_evaluateCondition : frames.

Lemma calm_updateDOM (P : Platform) (b : build) (key : string) (v : value) :
  preserves (calm ok) (updateDOM P b key v).
Proof. unfold updateDOM, updateDOM_write. frame. Qed.
#[local] Hint Resolve calm_updateDOM : frames.

Lemma calm_updateVisibility (P : Platform) (b : build) :
  preserves (calm ok) (updateVisibility P b).
Proof. unfold updateVisibility. frame. Qed.
#[local] Hint Resolve calm_updateVisibility : frames.

Lemma calm_updateClasses (P : Platform) (b : build) :
  preserves (calm ok) (updateClasses P b).
Proof. unfold updateClasses, apply_class_rule. frame. Qed.
#[local] Hint Resolve calm_updateClasses : frames.

Lemma calm_data_set (P : Platform) (b : build) (key : string) (v : value) :
  preserves (calm ok) (data_set P b key v).
Proof.
  unfold data_set, reactive, updateLocalStorage, setItem. frame.
Qed.
#[local] Hint Resolve calm_data_set : frames.

Lemma calm_State_set (P : Platform) (b : build) (properties : obj) :
  (∀ cb v, ok (Callback cb v) = true) →
  preserves (calm ok) (State_set P b properties).
Proof.
  intros Hcb. unfold State_set.
  frame_with ltac:(first [ by apply calm_emit | eauto 2 with frames ]).
Qed.

Lemma calm_State_reset (P : Platform) (b : build) (initialState : obj)
    (w : World) :
  calm ok (set_subscribers ∅ (set_target [] w))
    (world_of (State_reset P b initialState w)).
Proof.
  unfold State_reset. rewrite bind_modify.
  match goal with
  | |- calm ok ?w0 (world_of (?m ?w0)) =>
      assert (preserves (calm ok) m) as H by (unfold call_function; frame);
      apply H
  end.
Qed.

End Calm.

(** ** Subscriptions *)

Lemma forEach_notify (callbacks : list nat) (v : value) (w : World) :
  forEach callbacks (fun cb => emit (Callback cb v)) w
  = Ok tt (set_trace (notified callbacks v ++ trace w) w).
Proof.
  revert w. induction callbacks as [|cb l IH]; intros w.
  - simpl. unfold ret. by rewrite world_eta.
  - cbn [forEach]. unfold bind at 1. unfold emit at 1, modify. rewrite IH.
    unfold notified. simpl. by rewrite <- app_assoc.
Qed.

Lemma State_set_single (P : Platform) (b : build) (k : string) (v : value)
    (w w1 : World) :
  data_set P b k v w = Ok tt w1 →
  (subscribers w1 !! k = None → truthy (inherited k) = false) →
  State_set P b [(k, v)] w
  = Ok tt (set_trace
             (RequestAnimationFrame UpdateClasses
              :: RequestAnimationFrame UpdateVisibility
              :: notified (subscribers_of w1 k) v ++ trace w1) w1).
Proof.
  intros H Hsub. unfold State_set. cbn [forEach fst snd].
  unfold bind at 1. unfold bind at 1. unfold bind at 1. rewrite H.
  unfold bind at 1. unfold gets at 1. unfold subscribers_of.
  destruct (subscribers w1 !! k) as [l|].
  - rewrite forEach_notify. reflexivity.
  - rewrite (Hsub eq_refl). unfold ret. reflexivity.
Qed.

Lemma added_app (w w' : World) (evs : list event) :
  trace w' = (evs ++ trace w)%list → added w w' = evs.
Proof.
  intros H. unfold added. rewrite H, length_app.
  replace (List.length evs + List.length (trace w) - List.length (trace w))
    with (List.length evs) by lia.
  by rewrite take_app_length.
Qed.



(** X2: once the function returned by [State.subscribe(key, callback)] has
    run, [State.set] of that key does not call the callback, whatever the
    write does. *)
Theorem unsubscribed_callback_not_called (P : Platform) (b : build)
    (k : string) (cb : nat) (v : value) (w w1 : World) :
  State_unsubscribe k cb w = Ok tt w1 →
  ∀ arg, Callback cb arg ∉ added w1 (world_of (State_set P b [(k, v)] w1)).
Proof.
  intros H arg.
  assert ((cb ∉ subscribers_of w1 k) ∧ is_Some (subscribers w1 !! k))
    as [Hcb Hsome].
  { unfold State_unsubscribe, bind, gets in H.
    destruct (subscribers w !! k) as [l|] eqn:E; [| discriminate].
    unfold modify in H. injection H as <-. unfold subscribers_of. simpl.
    rewrite lookup_insert_eq. split; [| by eexists].
    rewrite list_elem_of_In, filter_In.
    intros [_ Hf]. by rewrite Nat.eqb_refl in Hf. }
  destruct (calm_data_set refresh_event (fun _ H => H) P b k v w1)
    as (Hs & _ & evs & He & Hall).
  assert (Callback cb arg ∉ evs) as Hevs.
  { rewrite list_elem_of_In. intros Hin. rewrite forallb_forall in Hall.
    by specialize (Hall _ Hin). }
  destruct (data_set P b k v w1) as [[] w2 | e w2] eqn:Hd; simpl in *.
  - rewrite (State_set_single _ _ _ _ _ _ Hd).
    2: { rewrite Hs. intros Hn. rewrite Hn in Hsome. by destruct Hsome. }
    simpl.
    rewrite (added_app _ _
               (RequestAnimationFrame UpdateClasses
                :: RequestAnimationFrame UpdateVisibility
                :: notified (subscribers_of w2 k) v ++ evs)%list).
    2: { simpl. rewrite He. by rewrite <- app_assoc. }
    rewrite !elem_of_cons, elem_of_app.
    intros [? | [? | [Hin | Hin]]]; [discriminate | discriminate | | done].
    apply list_elem_of_In, in_rev, in_map_iff in Hin.
    destruct Hin as (cb' & [= <- _] & Hin). apply Hcb.
    unfold subscribers_of in *. rewrite <- Hs. by apply list_elem_of_In.
  - unfold State_set. cbn [forEach fst snd].
    unfold bind at 1. unfold bind at 1. unfold bind at 1. rewrite Hd. simpl.
    by rewrite (added_app _ _ evs He).
Qed.

Lemma unsubscribed_callback_not_called_witness :
  State_unsubscribe "count" 1 counter_page
  = Ok tt (world_of (State_unsubscribe "count" 1 counter_page))
  ∧ ∀ arg,
      Callback 1 arg
      ∉ added (world_of (State_unsubscribe "count" 1 counter_page))
          (world_of (State_set ref_platform UMD [("count", VNum 2)]
                       (world_of (State_unsubscribe "count" 1 counter_page)))).
Proof.
  split; [vm_compute; reflexivity |].
  apply (unsubscribed_callback_not_called ref_platform UMD "count" 1 (VNum 2)
           counter_page).
  vm_compute; reflexivity.
Defined.

(** X3: [State.reset] drops every subscription without telling the
    subscribers, so the function that [State.subscribe] had returned throws
    a TypeError when it is called after a reset, whatever the reset did. *)
Theorem unsubscribe_after_reset_throws (P : Platform) (b : build)
    (initialState : obj) (k : string) (cb : nat) (w : World) :
  State_unsubscribe k cb (world_of (State_reset P b initialState w))
  = Throw TypeError (world_of (State_reset P b initialState w)).
Proof.
  destruct (calm_State_reset refresh_event (fun _ H => H) P b initialState w)
    as (Hs & _).
  unfold State_unsubscribe, bind, gets. rewrite Hs. simpl.
  by rewrite lookup_empty.
Qed.

Lemma own_None_keys (o : obj) (k : string) :
  own o k = None → ∀ kv, kv ∈ o → fst kv ≠ k.
Proof.
  induction o as [|[k' x] o IH]; intros H kv Hin.
  - inversion Hin.
  - simpl in H. destruct (String.eqb_spec k' k) as [|Hne]; [discriminate |].
    apply elem_of_cons in Hin as [-> | Hin]; [done | by apply IH].
Qed.

(** *** An own property of the store that is not written *)

#[local] Instance own_kept_preorder (k : string) : PreOrder (own_kept k).
Proof.
  split.
  - intros w. done.
  - intros w1 w2 w3 H1 H2. unfold own_kept in *. congruence.
Qed.

Lemma store_untouched_own_kept (k : string) (w w' : World) :
  store_untouched w w' → own_kept k w w'.
Proof. intros (H & _). unfold own_kept. by rewrite H. Qed.

Lemma own_kept_modify (k : string) (f : World → World) :
  (∀ w, target (f w) = target w) → preserves (own_kept k) (modify f).
Proof.
  intros H. apply preserves_modify. intros w. unfold own_kept. by rewrite H.
Qed.

Lemma own_kept_data_set (P : Platform) (b : build) (k k' : string) (v : value) :
  k' ≠ k → preserves (own_kept k) (data_set P b k' v).
Proof.
  intros Hne w. unfold own_kept.
  destruct (strict_eq (get (target w) k') v) eqn:E.
  - by rewrite data_set_same_value.
  - destruct (data_set_effective P b k' v w E) as (-> & _).
    by apply own_put_other.
Qed.

#[local] Hint Extern 1 (preserves (own_kept _) (update_element _ _)) =>
  apply own_kept_modify; reflexivity : frames.
#[local] Hint Extern 1 (preserves (own_kept _) (assign_checked _ _)) =>
  apply own_kept_modify; reflexivity : frames.
#[local] Hint Extern 1 (preserves (own_kept _) (assign_value _ _ _)) =>
  eapply preserves_weaken;
    [apply store_untouched_own_kept | apply store_untouched_assign_value]
  : frames.
#[local] Hint Extern 1 (preserves (own_kept _) (data_set _ _ _ _)) =>
  apply own_kept_data_set; congruence : frames.

(** X4: whatever [State.reset(initialState)] does, and whether it returns
    or throws, a key that [initialState] does not have is no property of
    the store afterwards: the store reads under it what it inherits. *)
Theorem reset_forgets_other_keys (P : Platform) (b : build)
    (initialState : obj) (k : string) (w : World) :
  own initialState k = None →
  own (target (world_of (State_reset P b initialState w))) k = None.
Proof.
  intros H. pose proof (own_None_keys _ _ H) as Hk.
  unfold State_reset. rewrite bind_modify.
  match goal with
  | |- own (target (world_of (?m ?w0))) k = _ =>
      assert (preserves (own_kept k) m) as Hm
  end.
  { apply preserves_bind; [apply _ | |].
    - apply preserves_forEach_in; [apply _ |]. intros kv Hin.
      specialize (Hk kv Hin). frame.
    - intros _. unfold call_function. frame. }
  by rewrite (Hm _).
Qed.

Lemma reset_forgets_other_keys_witness :
  own [("admin", VBool true)] "count" = None
  ∧ own (target (world_of (State_reset ref_platform UMD [("admin", VBool true)]
                             counter_page))) "count" = None.
Proof.
  split; [reflexivity |].
  apply (reset_forgets_other_keys ref_platform UMD [("admin", VBool true)]
           "count" counter_page).
  reflexivity.
Defined.

(** ** Construction from a stored record *)

Lemma bind_ret {A B : Type} (a : A) (k : A → M B) (w : World) :
  bind (ret a) k w = k a w.
Proof. reflexivity. Qed.

Lemma bind_gets {A B : Type} (f : World → A) (k : A → M B) (w : World) :
  bind (gets f) k w = k (f w) w.
Proof. reflexivity. Qed.

Lemma bind_bind_modify {B C : Type} (f : World → World) (k : unit → M B)
    (k' : B → M C) (w : World) :
  bind (bind (modify f) k) k' w = bind (k tt) k' (f w).
Proof. reflexivity. Qed.

Lemma bind_bind_gets {A B C : Type} (f : World → A) (k : A → M B)
    (k' : B → M C) (w : World) :
  bind (bind (gets f) k) k' w = bind (k (f w)) k' w.
Proof. reflexivity. Qed.

Lemma strict_eq_is_string (x : value) (s : string) :
  strict_eq x (VStr s) = true → x = VStr s.
Proof.
  destruct x; simpl; try discriminate. intros H.
  apply String.eqb_eq in H. by subst.
Qed.

Lemma initial_storedData_parsed (P : Platform) (b : build) (w : World)
    (text : string) (v : value) :
  localStorage w !! "state" = Some text →
  JSON_parse P text = Some v →
  truthy v = true →
  initial_storedData P b w = Ok v (set_trace (GetItem "state" :: trace w) w).
Proof.
  intros Hl Hp Ht.
  assert (parse_stored P w = Ok v (set_trace (GetItem "state" :: trace w) w))
    as H.
  { unfold parse_stored, getItem, bind, emit, modify, gets, ret. simpl.
    rewrite Hl. simpl. rewrite Hp, Ht. reflexivity. }
  destruct b; simpl; [exact H |]. unfold try_catch. by rewrite H.
Qed.

Lemma initialise_State_Ok_inv (P : Platform) (b : build) (w w' : World) :
  initialise_State P b w = Ok tt w' →
  target w' = target (world_of (StateSingleton_constructor P b w)).
Proof.
  unfold initialise_State, bind.
  destruct (StateSingleton_constructor P b w) as [[] w0 | e w0];
    [| discriminate].
  by intros [= <-].
Qed.

Lemma umd_constructor_stored_keys (P : Platform)
    (w : World) (text : string) (id : nat) (props : obj) (k : string) :
  instance w = false →
  localStorage w !! "state" = Some text →
  JSON_parse P text = Some (VObject id props) →
  k ≠ "pwaInstallPrompt" → k ≠ "showInstallButton" → k ≠ "route" →
  get (target (world_of (StateSingleton_constructor P UMD w))) k = get props k.
Proof.
  intros Hi Hl Hp H1 H2 H3. unfold StateSingleton_constructor.
  rewrite bind_gets, Hi.
  rewrite (bind_Ok _ _ _ _ _
             (initial_storedData_parsed P UMD w text _ Hl Hp eq_refl)).
  unfold writable_props, reactive_ref. rewrite !bind_ret, bind_modify.
  match goal with
  | |- get (target (world_of (?m ?w0))) k = _ =>
      assert (preserves (keeps k) m) as Hm
        by (unfold bindInputs, initPWA, checkForExistingPrompt, checkPWAStatus,
              trackUserEngagement; frame);
      rewrite (Hm w0)
  end.
  simpl. by rewrite !get_put_other.
Qed.

(** X6: in the file whose constructor finds [reactive] defined, the
    constructor restores the store from the record kept under [state]:
    when the record parses to an object and the statement that initialises
    [State] completes, every key other than [pwaInstallPrompt],
    [showInstallButton] and [route] has in the new store the value it has
    in the parsed object. *)
Theorem constructor_restores_stored_keys (P : Platform)
    (w w' : World) (text : string) (id : nat) (props : obj) (k : string) :
  instance w = false →
  localStorage w !! "state" = Some text →
  JSON_parse P text = Some (VObject id props) →
  k ≠ "pwaInstallPrompt" → k ≠ "showInstallButton" → k ≠ "route" →
  initialise_State P UMD w = Ok tt w' →
  get (target w') k = get props k.
Proof.
  intros Hi Hl Hp H1 H2 H3 H. rewrite (initialise_State_Ok_inv _ _ _ _ H).
  by eapply umd_constructor_stored_keys.
Qed.

Lemma constructor_restores_stored_keys_witness :
  instance returning_visitor = false
  ∧ localStorage returning_visitor !! "state"
    = Some ("{" ++ q "count" ++ ":3," ++ q "route" ++ ":" ++ q "/old" ++ "}")
  ∧ JSON_parse ref_platform
      ("{" ++ q "count" ++ ":3," ++ q "route" ++ ":" ++ q "/old" ++ "}")
    = Some (VObject 26 [("count", VNum 3); ("route", VStr "/old")])
  ∧ initialise_State ref_platform UMD returning_visitor
    = Ok tt (world_of (initialise_State ref_platform UMD returning_visitor))
  ∧ get (target (world_of (initialise_State ref_platform UMD
                             returning_visitor))) "count"
    = get [("count", VNum 3); ("route", VStr "/old")] "count".
Proof.
  split; [reflexivity |]. split; [vm_compute; reflexivity |].
  split; [vm_compute; reflexivity |]. split; [vm_compute; reflexivity |].
  apply (constructor_restores_stored_keys ref_platform
           returning_visitor
           (world_of (initialise_State ref_platform UMD returning_visitor))
           ("{" ++ q "count" ++ ":3," ++ q "route" ++ ":" ++ q "/old" ++ "}")
           26 [("count", VNum 3); ("route", VStr "/old")] "count");
    first [ discriminate | vm_compute; reflexivity ].
Defined.

Lemma umd_constructor_route (P : Platform) (w : World)
    (text : string) (id : nat) (props : obj) :
  instance w = false →
  localStorage w !! "state" = Some text →
  JSON_parse P text = Some (VObject id props) →
  get (target (world_of (StateSingleton_constructor P UMD w))) "route"
  = VStr (pathname w ++ hash w).
Proof.
  intros Hi Hl Hp. unfold StateSingleton_constructor.
  rewrite bind_gets, Hi.
  rewrite (bind_Ok _ _ _ _ _
             (initial_storedData_parsed P UMD w text _ Hl Hp eq_refl)).
  unfold writable_props, reactive_ref, bindInputs, addEventListener.
  rewrite !bind_ret, !bind_modify, !bind_gets.
  cbn [pathname hash set_instance set_subscribers set_listeners set_target
       set_trace].
  match goal with
  | |- get (target (world_of (bind ?m ?f ?w0))) _ = _ =>
      assert (keeps "route" (world_of (m w0)) (world_of (bind m f w0))) as Hk
  end.
  { apply (bind_world (keeps "route")). intros _.
    unfold initPWA, checkForExistingPrompt, checkPWAStatus,
      trackUserEngagement. frame. }
  rewrite Hk.
  match goal with
  | |- get (target (world_of (data_set P ?b ?k ?v ?w0))) _ = _ =>
      destruct (data_set_written P b k v w0) as [H | H]
  end; [exact H | by apply strict_eq_is_string].
Qed.

(** X7: in the file whose constructor finds [reactive] defined, the route
    of a new store is the location of the page, not the route of the stored
    record: when the record parses to an object and the statement that
    initialises [State] completes, the store holds
    [location.pathname + location.hash] under [route]. *)
Theorem constructor_route_is_location (P : Platform) (w w' : World)
    (text : string) (id : nat) (props : obj) :
  instance w = false →
  localStorage w !! "state" = Some text →
  JSON_parse P text = Some (VObject id props) →
  initialise_State P UMD w = Ok tt w' →
  get (target w') "route" = VStr (pathname w ++ hash w).
Proof.
  intros Hi Hl Hp H. rewrite (initialise_State_Ok_inv _ _ _ _ H).
  by eapply umd_constructor_route.
Qed.

Lemma constructor_route_is_location_witness :
  instance returning_visitor = false
  ∧ localStorage returning_visitor !! "state"
    = Some ("{" ++ q "count" ++ ":3," ++ q "route" ++ ":" ++ q "/old" ++ "}")
  ∧ JSON_parse ref_platform
      ("{" ++ q "count" ++ ":3," ++ q "route" ++ ":" ++ q "/old" ++ "}")
    = Some (VObject 26 [("count", VNum 3); ("route", VStr "/old")])
  ∧ initialise_State ref_platform UMD returning_visitor
    = Ok tt (world_of (initialise_State ref_platform UMD returning_visitor))
  ∧ get (target (world_of (initialise_State ref_platform UMD
                             returning_visitor))) "route"
    = VStr (pathname returning_visitor ++ hash returning_visitor).
Proof.
  split; [reflexivity |]. split; [vm_compute; reflexivity |].
  split; [vm_compute; reflexivity |]. split; [vm_compute; reflexivity |].
  apply (constructor_route_is_location ref_platform returning_visitor
           (world_of (initialise_State ref_platform UMD returning_visitor))
           ("{" ++ q "count" ++ ":3," ++ q "route" ++ ":" ++ q "/old" ++ "}")
           26 [("count", VNum 3); ("route", VStr "/old")]);
    vm_compute; reflexivity.
Defined.

(** ** The route *)

Lemma elem_of_put (o : obj) (k : string) (x : value) (kv : string * value) :
  kv ∈ put o k x → fst kv = k ∨ kv ∈ o.
Proof.
  induction o as [|[k' y] o IH]; simpl.
  - intros ->%list_elem_of_singleton. by left.
  - destruct (String.eqb_spec k' k) as [-> |].
    + intros [-> | H]%elem_of_cons; [by left | right; by right].
    + intros [-> | H]%elem_of_cons; [right; by left |].
      destruct (IH H); [by left | right; by right].
Qed.

Lemma fold_put_route (l : obj) (v : value) (acc : obj) :
  (∀ kv, kv ∈ acc → fst kv ≠ "route") →
  ∃ v' tail,
    fold_left (fun o kv => put o (fst kv) (snd kv)) l (("route", v) :: acc)
    = ("route", v') :: tail
    ∧ ∀ kv, kv ∈ tail → fst kv ≠ "route".
Proof.
  revert v acc. induction l as [|[k x] l IH]; intros v acc Hacc.
  - by exists v, acc.
  - cbn [fold_left fst snd put].
    destruct (String.eqb_spec "route" k) as [<- | Hne].
    + by apply IH.
    + apply IH. intros kv [Hk | Hin]%elem_of_put; [congruence | by apply Hacc].
Qed.

Lemma route_and_shape (fullPath : string) (stateToSet : obj) :
  ∃ tail,
    route_and fullPath stateToSet
    = ("route", get (route_and fullPath stateToSet) "route") :: tail
    ∧ ∀ kv, kv ∈ tail → fst kv ≠ "route".
Proof.
  unfold route_and.
  destruct (fold_put_route stateToSet (VStr fullPath) []) as (v' & tail & -> & H).
  { intros kv Hin. inversion Hin. }
  by exists tail.
Qed.

(** The first write of [State.set] is not undone by what follows it. *)
Lemma State_set_first (P : Platform) (b : build) (k : string) (v : value)
    (rest : obj) (w : World) :
  (∀ kv, kv ∈ rest → fst kv ≠ k) →
  keeps k (world_of (data_set P b k v w))
    (world_of (State_set P b ((k, v) :: rest) w)).
Proof.
  intros Hrest. unfold State_set. cbn [forEach fst snd].
  etrans; [| apply (bind_world (keeps k)); intros; frame].
  etrans; [| apply (bind_world (keeps k)); intros _;
             apply preserves_forEach_in; [apply _ |]; intros kv Hin;
             specialize (Hrest kv Hin); frame].
  apply (bind_world (keeps k)). intros. frame.
Qed.

(** X8: [navigate] to a path that is not the current route writes the
    route first: afterwards the store holds under [route] a value strictly
    equal to the route of [{route: fullPath, ...stateToSet}] (the normalised
    path, unless the state object passed as second argument has a [route]
    of its own), whatever the subscribers, the refresh of the document and
    the history do.  The state object has no index-like keys, so that its
    properties are visited in the order of the list. *)
Theorem navigate_sets_route (P : Platform) (b : build) (path options : value)
    (replace : bool) (w : World) (text : string) :
  path_text P b path = Some text →
  strict_eq (VStr (fullPath_of text)) (get (target w) "route") = false →
  plain_keys (stateToSet_of options) = true →
  let r := get (route_and (fullPath_of text) (stateToSet_of options)) "route" in
  let x := get (target (world_of (navigate P b path options replace w))) "route" in
  x = r ∨ strict_eq x r = true.
Proof.
  intros Hp Hne _ r x.
  destruct (route_and_shape (fullPath_of text) (stateToSet_of options))
    as (tail & Hshape & Htail).
  pose proof (State_set_first P b "route" r tail w Htail) as Hfirst.
  subst r. rewrite <- Hshape in Hfirst. unfold keeps in Hfirst.
  pose proof (data_set_written P b "route"
                (get (route_and (fullPath_of text) (stateToSet_of options))
                   "route") w) as Hwritten.
  cbv zeta in Hwritten. rewrite <- Hfirst in Hwritten.
  assert (x = get (target (world_of
                             (State_set P b
                                (route_and (fullPath_of text)
                                   (stateToSet_of options)) w))) "route")
    as ->; [| exact Hwritten].
  subst x. unfold navigate. rewrite Hp, bind_ret.
  cbv zeta. unfold State_get at 1. rewrite bind_gets, Hne.
  destruct options; cbv beta iota zeta; cbn [stateToSet_of];
    match goal with
    | |- context [world_of (bind ?m ?f w)] =>
        assert (keeps "route" (world_of (m w)) (world_of (bind m f w))) as Hk
          by (apply (bind_world (keeps "route")); intros _; frame);
        exact Hk
    end.
Qed.

Lemma navigate_sets_route_witness :
  path_text ref_platform UMD (VStr "/about#team") = Some "/about#team"
  ∧ strict_eq (VStr (fullPath_of "/about#team")) (get (target first_visit) "route")
    = false
  ∧ plain_keys (stateToSet_of (VObject 5 [("navOpen", VBool false)])) = true
  ∧ (let r := get (route_and (fullPath_of "/about#team")
                     (stateToSet_of (VObject 5 [("navOpen", VBool false)])))
                "route" in
     let x := get (target (world_of (navigate ref_platform UMD
                                       (VStr "/about#team")
                                       (VObject 5 [("navOpen", VBool false)])
                                       false first_visit))) "route" in
     x = r ∨ strict_eq x r = true).
Proof.
  split; [reflexivity |]. split; [vm_compute; reflexivity |].
  split; [vm_compute; reflexivity |].
  apply (navigate_sets_route ref_platform UMD (VStr "/about#team")
           (VObject 5 [("navOpen", VBool false)]) false first_visit
           "/about#team"); vm_compute; reflexivity.
Defined.

(** X9: the [popstate] listener never adds an entry to the history: it
    navigates with the replace flag, so that no [history.pushState] is
    among its effects, whatever else it does. *)
Theorem popstate_never_pushes (P : Platform) (b : build) (path : value)
    (w : World) :
  ∀ p, PushState p ∉ added w (world_of (on_popstate P b path w)).
Proof.
  intros p.
  assert (preserves (calm no_push) (on_popstate P b path)) as H.
  { unfold on_popstate, navigate. cbv beta iota zeta.
    frame_with ltac:(first
      [ by apply calm_emit
      | apply calm_State_set; [by intros [] | done]
      | eauto 2 with frames ]). }
  destruct (H w) as (_ & _ & evs & He & Hall).
  rewrite (added_app _ _ evs He), list_elem_of_In. intros Hin.
  rewrite forallb_forall in Hall. by specialize (Hall _ Hin).
Qed.

(** X10: after the [hashchange] listener has run, the store holds the
    location of the page, [location.pathname + location.hash], under
    [route], whatever the subscribers and the refresh of the document
    do. *)
Theorem hashchange_sets_route (P : Platform) (b : build) (w : World) :
  get (target (world_of (on_hashchange P b w))) "route"
  = VStr (pathname w ++ hash w).
Proof.
  unfold on_hashchange, State_get. rewrite !bind_gets.
  destruct (strict_eq (get (target w) "route") (VStr (pathname w ++ hash w)))
    eqn:E.
  - simpl. by apply strict_eq_is_string.
  - pose proof (State_set_first P b "route" (VStr (pathname w ++ hash w)) [] w)
      as Hk.
    unfold keeps in Hk. rewrite Hk.
    + destruct (data_set_effective P b "route" _ w E) as (-> & _).
      apply get_put_same.
    + intros kv Hin. inversion Hin.
Qed.

(** ** The normal form of a path *)

Lemma chars_of_chars (l : list ascii) : JsString.chars (JsString.of_chars l) = l.
Proof. apply list_ascii_of_string_of_list_ascii. Qed.

Lemma of_chars_chars (s : string) : JsString.of_chars (JsString.chars s) = s.
Proof. apply string_of_list_ascii_of_string. Qed.

Lemma of_chars_app (l1 l2 : list ascii) :
  JsString.of_chars (l1 ++ l2)
  = JsString.of_chars l1 ++ JsString.of_chars l2.
Proof.
  induction l1 as [|c l1 IH]; [done |].
  unfold JsString.of_chars in *. simpl. by rewrite IH.
Qed.

Lemma of_chars_nil (l : list ascii) :
  String.eqb (JsString.of_chars l) "" = true ↔ l = [].
Proof. destruct l; simpl; split; congruence. Qed.

Lemma split_hash_free (cur a : list ascii) :
  ("#"%char ∉ a) →
  JsString.split_chars ["#"%char] cur a 0 = [(rev cur ++ a)%list].
Proof.
  revert cur. induction a as [|c a IH]; intros cur H.
  - simpl. by rewrite app_nil_r.
  - apply not_elem_of_cons in H as [Hc Ha].
    cbn [JsString.split_chars JsString.prefix_chars].
    destruct (Ascii.eqb_spec "#" c) as [E |]; [congruence |].
    cbn [andb]. rewrite IH by done. simpl. by rewrite <- app_assoc.
Qed.

Lemma split_at_hash (cur a t : list ascii) :
  ("#"%char ∉ a) →
  JsString.split_chars ["#"%char] cur (a ++ "#"%char :: t) 0
  = (rev cur ++ a)%list :: JsString.split_chars ["#"%char] [] t 0.
Proof.
  revert cur. induction a as [|c a IH]; intros cur H.
  - simpl. by rewrite app_nil_r.
  - apply not_elem_of_cons in H as [Hc Ha].
    rewrite <- app_comm_cons.
    cbn [JsString.split_chars JsString.prefix_chars].
    destruct (Ascii.eqb_spec "#" c) as [E |]; [congruence |].
    cbn [andb]. rewrite IH by done. simpl. by rewrite <- app_assoc.
Qed.

Lemma first_hash (s : list ascii) :
  ("#"%char ∉ s) ∨ ∃ a t, ("#"%char ∉ a) ∧ s = (a ++ "#"%char :: t)%list.
Proof.
  induction s as [|c s IH].
  - left. apply not_elem_of_nil.
  - destruct (Ascii.eqb_spec "#" c) as [<- | Hc].
    + right. exists [], s. split; [apply not_elem_of_nil | done].
    + destruct IH as [H | (a & t & H & ->)].
      * left. by apply not_elem_of_cons.
      * right. exists (c :: a), t. split; [by apply not_elem_of_cons | done].
Qed.

(** A path without [#] is its own full path. *)
Lemma fullPath_of_hash_free (a : list ascii) :
  ("#"%char ∉ a) →
  fullPath_of (JsString.of_chars a) = JsString.of_chars a
  ∧ has_hash (JsString.of_chars a) = false.
Proof.
  intros H. unfold fullPath_of, has_hash, split_path, JsString.split.
  rewrite chars_of_chars.
  change (JsString.chars "#") with ["#"%char].
  by rewrite split_hash_free.
Qed.

(** So is a path with one [#] followed by a fragment. *)
Lemma fullPath_of_one_hash (a h : list ascii) :
  ("#"%char ∉ a) → ("#"%char ∉ h) → h ≠ [] →
  fullPath_of (JsString.of_chars (a ++ "#"%char :: h))
  = JsString.of_chars (a ++ "#"%char :: h)
  ∧ has_hash (JsString.of_chars (a ++ "#"%char :: h)) = true.
Proof.
  intros Ha Hh Hne. unfold fullPath_of, has_hash, split_path, JsString.split.
  rewrite chars_of_chars.
  change (JsString.chars "#") with ["#"%char].
  rewrite split_at_hash, split_hash_free by done. simpl.
  destruct (String.eqb (JsString.of_chars h) "") eqn:E.
  - apply of_chars_nil in E. contradiction.
  - split; [| done]. by rewrite of_chars_app.
Qed.

Lemma fullPath_of_shape (path : string) :
  (∃ a, ("#"%char ∉ a) ∧ fullPath_of path = JsString.of_chars a
        ∧ has_hash path = false)
  ∨ (∃ a h, ("#"%char ∉ a) ∧ ("#"%char ∉ h) ∧ h ≠ []
            ∧ fullPath_of path = JsString.of_chars (a ++ "#"%char :: h)
            ∧ has_hash path = true).
Proof.
  unfold fullPath_of, has_hash, split_path, JsString.split.
  change (JsString.chars "#") with ["#"%char].
  destruct (first_hash (JsString.chars path)) as [H | (a & t & Ha & ->)].
  - left. exists (JsString.chars path). rewrite split_hash_free by done.
    by simpl.
  - rewrite split_at_hash by done.
    assert (∃ h rest, ("#"%char ∉ h)
                      ∧ JsString.split_chars ["#"%char] [] t 0 = h :: rest)
      as (h & rest & Hh & ->).
    { destruct (first_hash t) as [H | (h & t' & H & ->)].
      - exists t, []. by rewrite split_hash_free.
      - eexists h, _. by rewrite split_at_hash. }
    simpl. destruct (String.eqb (JsString.of_chars h) "") eqn:E.
    + left. by exists a.
    + right. exists a, h. repeat split; try done.
      * intros ->. discriminate.
      * by rewrite of_chars_app.
Qed.

Lemma fullPath_of_idempotent (path : string) :
  fullPath_of (fullPath_of path) = fullPath_of path
  ∧ has_hash (fullPath_of path) = has_hash path.
Proof.
  destruct (fullPath_of_shape path)
    as [(a & Ha & -> & ->) | (a & h & Ha & Hh & Hne & -> & ->)].
  - by apply fullPath_of_hash_free.
  - by apply fullPath_of_one_hash.
Qed.

(** X11: [navigate] reads a path through its normal form (the text before
    the first [#], followed by the fragment up to the next [#] when that
    fragment is not empty): normalising twice is normalising once, and
    navigating to the normal form of a path is navigating to the path, in
    every world and with the same result. *)
Theorem navigate_normal_form (P : Platform) (b : build) (path : string)
    (options : value) (replace : bool) (w : World) :
  fullPath_of (fullPath_of path) = fullPath_of path
  ∧ navigate P b (VStr (fullPath_of path)) options replace w
    = navigate P b (VStr path) options replace w.
Proof.
  destruct (fullPath_of_idempotent path) as [Hf Hh]. split; [exact Hf |].
  unfold navigate.
  assert (∀ s, path_text P b (VStr s) = Some s) as Hp by (by destruct b).
  rewrite !Hp, !bind_ret. cbv zeta. by rewrite Hf, Hh.
Qed.

(** ** Conditions in the build that guards the route *)







(** ** Elements and what they show *)

Lemma same_bindings_lookup (w w' : World) (j : nat) (e : element) :
  same_bindings w w' → document w !! j = Some e →
  ∃ e', document w' !! j = Some e' ∧ binding_of e' = binding_of e.
Proof.
  intros Hs He. unfold same_bindings in Hs.
  assert ((binding_of <$> document w') !! j = Some (binding_of e)) as Hl
    by (by rewrite Hs, list_lookup_fmap, He).
  rewrite list_lookup_fmap in Hl.
  destruct (document w' !! j) as [e'|]; [| discriminate].
  exists e'. split; [done |]. by apply (inj Some) in Hl.
Qed.

(** ** What [updateVisibility] shows *)

#[local] Instance trace_only_preorder : PreOrder trace_only.
Proof.
  split.
  - intros w. exists []. symmetry. apply world_eta.
  - intros w1 w2 w3 (e1 & ->) (e2 & ->). exists (e2 ++ e1)%list.
    simpl. by rewrite app_assoc.
Qed.






(** A loop over positions whose body rewrites the element it visits. *)
Lemma forEach_alter (body : nat → element → M unit) (G : element → element)
    (Inv : World → Prop) :
  (∀ i e w, Inv w → document w !! i = Some e →
            ∃ w', body i e w = Ok tt w' ∧ Inv w'
                  ∧ document w' = alter G i (document w)) →
  ∀ l w, Inv w →
    ∃ w', forEach l
            (fun i => let* doc' := gets document in
                      match doc' !! i with
                      | Some e => body i e
                      | None => ret tt
                      end) w = Ok tt w'
          ∧ Inv w'
          ∧ document w' = foldl (fun d i => alter G i d) (document w) l.
Proof.
  intros Hbody l. induction l as [|i l IH]; intros w Hw; cbn [forEach foldl].
  - by exists w.
  - destruct (document w !! i) as [e|] eqn:E.
    + destruct (Hbody i e w Hw E) as (w1 & Hb & Hw1 & Hd1).
      erewrite bind_Ok; [| unfold bind, gets; rewrite E; exact Hb].
      destruct (IH w1 Hw1) as (w' & -> & Hw' & Hd). exists w'.
      split; [done |]. split; [done |]. by rewrite Hd, Hd1.
    + erewrite bind_Ok; [| unfold bind, gets; rewrite E; reflexivity].
      destruct (IH w Hw) as (w' & -> & Hw' & Hd). exists w'.
      split; [done |]. split; [done |]. rewrite Hd. f_equal.
      symmetry. apply list_eq. intros j. rewrite list_lookup_alter.
      case_decide; [subst; by rewrite E | done].
Qed.




(** ** Group validation *)

Lemma toggle_Ok (i : nat) (token : string) (force : option bool) (w : World) :
  token_error token = None →
  toggle i token force w
  = Ok tt (set_document
             (alter (fun e => with_classList
                                (classList_toggle token force (classList e)) e)
                i (document w)) w).
Proof. intros H. unfold toggle. by rewrite H. Qed.

Lemma validation_of_alter (f : element → element) (i : nat) (doc : list element) :
  (∀ e, validation_of (f e) = validation_of e) →
  validation_of <$> alter f i doc = validation_of <$> doc.
Proof.
  intros H. rewrite (list_fmap_alter validation_of f id).
  - by apply list_alter_id.
  - apply Forall_forall. intros e _. apply H.
Qed.

Lemma field_valid_validation (o : obj) (doc doc' : list element) (i : nat) :
  validation_of <$> doc' = validation_of <$> doc →
  field_valid o doc' i = field_valid o doc i.
Proof.
  intros H. apply (f_equal (fun l => l !! i)) in H.
  rewrite !list_lookup_fmap in H. unfold field_valid.
  destruct (doc' !! i) as [e'|], (doc !! i) as [e|]; try discriminate;
    [| done].
  simpl in H. injection H as Ha Hv. by rewrite Ha, Hv.
Qed.

Lemma selectors_of_group_Ok_inv {A : Type} (P : Platform) (g : string)
    (m : M A) (w w' : World) (r : A) :
  (selectors_of_group P g ;; m) w = Ok r w' → m w = Ok r w'.
Proof.
  unfold selectors_of_group, bind, gets.
  by destruct (collect_fields P (document w) g).
Qed.

(** What [validate] has done when it returns. *)
Lemma validate_Ok_inv (P : Platform) (b : build) (g : string) (w w' : World)
    (r : bool) :
  validate P b g w = Ok r w' →
  r = forallb (field_valid (target w) (document w))
        (validate_fields P (document w) g)
  ∧ ∃ states w1 w2,
      target w1 = target w
      ∧ State_set P b states w1 = Ok tt w2
      ∧ State_set P b [(g ++ "_valid", VBool r);
                       (g ++ "_invalid", VBool (negb r))] w2 = Ok tt w'.
Proof.
  intros H. unfold validate in H. apply selectors_of_group_Ok_inv in H.
  rewrite bind_gets in H.
  match type of H with
  | context [foldM _ ?f _] => set (step := f) in H
  end.
  assert (∀ acc i w1,
            target w1 = target w →
            validation_of <$> document w1 = validation_of <$> document w →
            ∃ acc' w1',
              step acc i w1 = Ok acc' w1'
              ∧ target w1' = target w
              ∧ validation_of <$> document w1' = validation_of <$> document w
              ∧ fst acc' = fst acc && field_valid (target w) (document w) i)
    as Hstep.
  { intros [allValid states] i w1 Ht Hv.
    rewrite <- (field_valid_validation _ _ _ i Hv).
    subst step. cbv beta iota. rewrite bind_gets. unfold field_valid.
    destruct (document w1 !! i) as [field|] eqn:E;
      [| exists (allValid, states), w1; by rewrite andb_true_r].
    destruct (validIf field) as [fn|];
      [| exists (allValid, states), w1; by rewrite andb_true_r].
    destruct (nonempty_attr (getAttribute "data-bind" (attributes field)))
      as [bindKey|];
      [| exists (allValid, states), w1; by rewrite andb_true_r].
    unfold try_catch, call_user. rewrite bind_bind_gets. rewrite Ht.
    destruct (fn (target w)) as [v|].
    - rewrite bind_ret.
      rewrite (bind_Ok _ _ _ _ _ (toggle_Ok i "valid" _ w1 eq_refl)).
      rewrite (bind_Ok _ _ _ _ _ (toggle_Ok i "invalid" _ _ eq_refl)).
      eexists _, _. split; [reflexivity |]. simpl.
      split; [done |]. split; [| done].
      rewrite !validation_of_alter by done. exact Hv.
    - unfold bind at 1. unfold throw at 1.
      destruct b; eexists _, _; (split; [reflexivity |]); simpl;
        by rewrite andb_false_r. }
  assert (∀ l acc w1,
            target w1 = target w →
            validation_of <$> document w1 = validation_of <$> document w →
            ∃ acc' w1',
              foldM l step acc w1 = Ok acc' w1'
              ∧ target w1' = target w
              ∧ fst acc' = fst acc
                           && forallb (field_valid (target w) (document w)) l)
    as Hfold.
  { induction l as [|i l IH]; intros acc w1 Ht Hv; cbn [foldM forallb].
    - exists acc, w1. by rewrite andb_true_r.
    - destruct (Hstep acc i w1 Ht Hv) as (acc1 & w2 & Hs & Ht2 & Hv2 & Hf).
      rewrite (bind_Ok _ _ _ _ _ Hs).
      destruct (IH acc1 w2 Ht2 Hv2) as (acc' & w3 & -> & Ht3 & Hf3).
      exists acc', w3. split; [done |]. split; [done |].
      by rewrite Hf3, Hf, andb_assoc. }
  destruct (Hfold (validate_fields P (document w) g) (true, []) w eq_refl eq_refl)
    as ([allValid states] & w1 & Hrun & Ht1 & Hf).
  rewrite (bind_Ok _ _ _ _ _ Hrun) in H. simpl in Hf. cbv beta iota in H.
  unfold bind in H.
  destruct (State_set P b states w1) as [[] w2 | ex w2] eqn:H1;
    [| discriminate].
  destruct (State_set P b _ w2) as [[] w3 | ex w3] eqn:H2; [| discriminate].
  injection H as <- <-. split; [exact Hf |].
  by exists states, w1, w2.
Qed.

(** X15: [validate(groupName)] returns true exactly when each field of the
    group that has both a [valid-if] function and a [data-bind] key has its
    function return a truthy value without throwing; fields without a key
    are not examined. *)
Theorem validate_verdict (P : Platform) (b : build) (g : string) (w w' : World)
    (r : bool) :
  validate P b g w = Ok r w' →
  r = forallb (field_valid (target w) (document w))
        (validate_fields P (document w) g).
Proof. intros H. by destruct (validate_Ok_inv P b g w w' r H). Qed.

Lemma validate_verdict_witness :
  validate ref_platform UMD "signup" signup_world
  = Ok false (world_of (validate ref_platform UMD "signup" signup_world))
  ∧ false = forallb (field_valid (target signup_world) (document signup_world))
              (validate_fields ref_platform (document signup_world) "signup").
Proof.
  split; [vm_compute; reflexivity |].
  apply (validate_verdict ref_platform UMD "signup" signup_world
           (world_of (validate ref_platform UMD "signup" signup_world)) false).
  vm_compute; reflexivity.
Defined.

Lemma State_set_Ok_inv (P : Platform) (b : build) (properties : obj)
    (w w' : World) :
  State_set P b properties w = Ok tt w' →
  ∃ w1,
    forEach properties
      (fun kv =>
         data_set P b (fst kv) (snd kv) ;;
         let* subs := gets subscribers in
         match subs !! fst kv with
         | Some callbacks =>
             forEach callbacks (fun cb => emit (Callback cb (snd kv)))
         | None => when (truthy (inherited (fst kv))) (throw TypeError)
         end) w = Ok tt w1
    ∧ target w' = target w1.
Proof.
  unfold State_set. intros H. unfold bind at 1 in H.
  match type of H with
  | match ?m with _ => _ end = _ => destruct m as [[] w1 | ex w1]; [| discriminate]
  end.
  exists w1. split; [done |]. by injection H as <-.
Qed.

Lemma last_written_None (k : string) (props : obj) :
  last_written k props = None → ∀ kv, kv ∈ props → fst kv ≠ k.
Proof.
  induction props as [|[k' x] props IH]; intros H kv Hin.
  - inversion Hin.
  - simpl in H. destruct (last_written k props); [discriminate |].
    destruct (String.eqb_spec k' k); [discriminate |].
    apply elem_of_cons in Hin as [-> | Hin]; [done | by apply IH].
Qed.

(** When [State.set] returns, the store holds for every key of the
    properties a value strictly equal to the last one given to it. *)
Lemma State_set_written (P : Platform) (b : build) (properties : obj)
    (w w' : World) (k : string) (v : value) :
  State_set P b properties w = Ok tt w' →
  last_written k properties = Some v →
  get (target w') k = v ∨ strict_eq (get (target w') k) v = true.
Proof.
  intros H Hl. destruct (State_set_Ok_inv P b properties w w' H)
    as (w1 & Hrun & ->). clear H.
  revert w Hrun Hl. induction properties as [|[k0 x] rest IH]; intros w Hrun Hl.
  - discriminate.
  - cbn [forEach fst snd] in Hrun. unfold bind at 1 in Hrun.
    match type of Hrun with
    | match ?m ?w0 with _ => _ end = _ =>
        pose proof (bind_world (keeps k)
                      (data_set P b k0 x)
                      (fun _ =>
                         let* subs := gets subscribers in
                         match subs !! k0 with
                         | Some callbacks =>
                             forEach callbacks (fun cb => emit (Callback cb x))
                         | None => when (truthy (inherited k0)) (throw TypeError)
                         end) w) as Hk;
        destruct (m w0) as [[] w2 | ex w2] eqn:Hstep; [| discriminate]
    end.
    assert (keeps k (world_of (data_set P b k0 x w)) w2) as Hk2.
    { apply Hk. intros. frame. }
    clear Hk. simpl in Hl.
    destruct (last_written k rest) as [y|] eqn:E.
    + injection Hl as ->. by apply (IH w2).
    + destruct (String.eqb_spec k0 k) as [-> |]; [| discriminate].
      injection Hl as ->.
      assert (preserves (keeps k)
                (forEach rest
                   (fun kv =>
                      data_set P b (fst kv) (snd kv) ;;
                      let* subs := gets subscribers in
                      match subs !! fst kv with
                      | Some callbacks =>
                          forEach callbacks
                            (fun cb => emit (Callback cb (snd kv)))
                      | None => when (truthy (inherited (fst kv))) (throw TypeError)
                      end))) as Hrest.
      { apply preserves_forEach_in; [apply _ |]. intros kv Hin.
        pose proof (last_written_None _ _ E kv Hin). frame. }
      specialize (Hrest w2). rewrite Hrun in Hrest. simpl in Hrest.
      unfold keeps in *. rewrite Hrest, Hk2. apply data_set_written.
Qed.

Lemma strict_eq_is_bool (x : value) (c : bool) :
  strict_eq x (VBool c) = true → x = VBool c.
Proof.
  destruct x; simpl; try discriminate. intros H.
  apply Bool.eqb_prop in H. by subst.
Qed.

Lemma strict_eq_is_undefined (x : value) :
  strict_eq x VUndefined = true → x = VUndefined.
Proof. by destruct x. Qed.

Lemma suffix_valid_invalid (s : string) : s ++ "_valid" ≠ s ++ "_invalid".
Proof. induction s as [|c s IH]; simpl; [discriminate | by intros [= H]]. Qed.

Lemma last_written_pair (k1 k2 : string) (v1 v2 : value) :
  k1 ≠ k2 →
  last_written k1 [(k1, v1); (k2, v2)] = Some v1
  ∧ last_written k2 [(k1, v1); (k2, v2)] = Some v2.
Proof.
  intros H. simpl. rewrite !String.eqb_refl.
  by destruct (String.eqb_spec k2 k1); [congruence |].
Qed.

(** X16: when [validate(groupName)] returns, the store holds its verdict
    under [<groupName>_valid] and the negation of the verdict under
    [<groupName>_invalid]. *)
Theorem validate_sets_group_flags (P : Platform) (b : build) (g : string)
    (w w' : World) (r : bool) :
  validate P b g w = Ok r w' →
  get (target w') (g ++ "_valid") = VBool r
  ∧ get (target w') (g ++ "_invalid") = VBool (negb r).
Proof.
  intros H.
  destruct (validate_Ok_inv P b g w w' r H) as (_ & states & w1 & w2 & _ & _ & H2).
  destruct (last_written_pair (g ++ "_valid") (g ++ "_invalid") (VBool r)
              (VBool (negb r)) (suffix_valid_invalid g)) as [L1 L2].
  split.
  - destruct (State_set_written P b _ w2 w' _ _ H2 L1) as [E | E];
      [exact E | by apply strict_eq_is_bool].
  - destruct (State_set_written P b _ w2 w' _ _ H2 L2) as [E | E];
      [exact E | by apply strict_eq_is_bool].
Qed.

Lemma validate_sets_group_flags_witness :
  validate ref_platform UMD "signup" signup_world
  = Ok false (world_of (validate ref_platform UMD "signup" signup_world))
  ∧ get (target (world_of (validate ref_platform UMD "signup" signup_world)))
      ("signup" ++ "_valid") = VBool false
  ∧ get (target (world_of (validate ref_platform UMD "signup" signup_world)))
      ("signup" ++ "_invalid") = VBool (negb false).
Proof.
  split; [vm_compute; reflexivity |].
  apply (validate_sets_group_flags ref_platform UMD "signup" signup_world
           (world_of (validate ref_platform UMD "signup" signup_world)) false).
  vm_compute; reflexivity.
Defined.

Lemma last_written_own (k : string) (props : obj) (x : value) :
  own props k = Some x →
  ∃ v, last_written k props = Some v ∧ (k, v) ∈ props.
Proof.
  revert x. induction props as [|[k' y] props IH]; intros x H; [discriminate |].
  simpl in *. destruct (last_written k props) as [v|] eqn:E.
  - destruct (String.eqb_spec k' k) as [-> |].
    + destruct (own props k) as [x'|] eqn:Eo.
      * destruct (IH x' eq_refl) as (v' & [= ->] & Hin).
        exists v'. split; [done | by right].
      * exists v. split; [done |].
        assert (∀ o, last_written k o = Some v → (k, v) ∈ o) as Hmem.
        { clear. induction o as [|[k0 y0] o IHo]; simpl; [discriminate |].
          destruct (last_written k o) as [v0|].
          - intros [= ->]. right. by apply IHo.
          - destruct (String.eqb_spec k0 k) as [-> |]; [| discriminate].
            intros [= ->]. by left. }
        right. by apply Hmem.
    + destruct (IH x H) as (v' & [= ->] & Hin). exists v'.
      split; [done | by right].
  - destruct (String.eqb_spec k' k) as [-> |].
    + exists y. split; [done | by left].
    + destruct (IH x H) as (v' & Hv & _). discriminate.
Qed.

(** When [State.set] of undefined values returns, every key it was given is
    undefined in the store, and so is every key that was. *)
Lemma State_set_undefined (P : Platform) (b : build) (properties : obj)
    (w w' : World) (k : string) :
  State_set P b properties w = Ok tt w' →
  (∀ kv, kv ∈ properties → snd kv = VUndefined) →
  is_Some (own properties k) ∨ get (target w) k = VUndefined →
  get (target w') k = VUndefined.
Proof.
  intros H Hall Hk. destruct (own properties k) as [x|] eqn:E.
  - destruct (last_written_own k properties x E) as (v & Hl & Hin).
    specialize (Hall _ Hin). simpl in Hall. subst v.
    destruct (State_set_written P b properties w w' k _ H Hl) as [E' | E'];
      [exact E' | by apply strict_eq_is_undefined].
  - destruct Hk as [[? [=]] | Hk].
    pose proof (keeps_State_set P b k properties (own_None_keys _ _ E) w) as Hkeep.
    rewrite H in Hkeep. unfold keeps in Hkeep. simpl in Hkeep. congruence.
Qed.

Lemma elem_of_put_snd (o : obj) (k : string) (x : value) (kv : string * value) :
  kv ∈ put o k x → snd kv = x ∨ kv ∈ o.
Proof.
  induction o as [|[k' y] o IH]; simpl.
  - intros ->%list_elem_of_singleton. by left.
  - destruct (String.eqb_spec k' k) as [-> |].
    + intros [-> | H]%elem_of_cons; [by left | right; by right].
    + intros [-> | H]%elem_of_cons; [right; by left |].
      destruct (IH H); [by left | right; by right].
Qed.

Lemma is_Some_own_put (o : obj) (k k' : string) (x : value) :
  k' = k ∨ is_Some (own o k') → is_Some (own (put o k x) k').
Proof.
  destruct (String.eqb_spec k k') as [-> | Hne].
  - intros _. rewrite own_put_same. by eexists.
  - intros [-> | H]; [done |]. by rewrite own_put_other.
Qed.

Lemma attributes_alter (f : element → element) (i : nat) (doc : list element) :
  (∀ e, attributes (f e) = attributes e) →
  attributes <$> alter f i doc = attributes <$> doc.
Proof.
  intros H. rewrite (list_fmap_alter attributes f id).
  - by apply list_alter_id.
  - apply Forall_forall. intros e _. apply H.
Qed.

(** X17: when [resetValidation(groupName)] returns, the flags are gone from
    the store: [<groupName>_valid] and [<groupName>_invalid] are undefined,
    and so are [<key>_valid] and [<key>_invalid] for the [data-bind] key of
    every field of the group. *)
Theorem resetValidation_clears_flags (P : Platform) (b : build) (g : string)
    (w w' : World) :
  resetValidation P b g w = Ok tt w' →
  (get (target w') (g ++ "_valid") = VUndefined
   ∧ get (target w') (g ++ "_invalid") = VUndefined)
  ∧ ∀ i field k,
      i ∈ group_fields P (document w) g →
      document w !! i = Some field →
      nonempty_attr (getAttribute "data-bind" (attributes field)) = Some k →
      get (target w') (k ++ "_valid") = VUndefined
      ∧ get (target w') (k ++ "_invalid") = VUndefined.
Proof.
  intros H. unfold resetValidation, resetValidation_fields in H.
  apply selectors_of_group_Ok_inv in H. rewrite bind_gets in H.
  match type of H with
  | context [foldM _ ?f _] => set (step := f) in H
  end.
  assert (∀ l states w1,
            attributes <$> document w1 = attributes <$> document w →
            (∀ kv, kv ∈ states → snd kv = VUndefined) →
            ∃ states' w1',
              foldM l step states w1 = Ok states' w1'
              ∧ (∀ kv, kv ∈ states' → snd kv = VUndefined)
              ∧ (∀ k, is_Some (own states k) → is_Some (own states' k))
              ∧ ∀ i field k,
                  i ∈ l → document w !! i = Some field →
                  nonempty_attr (getAttribute "data-bind" (attributes field))
                  = Some k →
                  is_Some (own states' (k ++ "_valid"))
                  ∧ is_Some (own states' (k ++ "_invalid"))) as Hfold.
  { induction l as [|i l IH]; intros states w1 Ha Hu; cbn [foldM].
    - exists states, w1. split; [done |]. split; [done |]. split; [done |].
      intros i field k Hin. inversion Hin.
    - subst step. cbv beta. rewrite bind_bind_gets.
      assert (attributes <$> document w1 !! i = attributes <$> document w !! i)
        as Hi by (by rewrite <- !list_lookup_fmap, Ha).
      destruct (document w1 !! i) as [field1|] eqn:E1.
      + destruct (nonempty_attr (getAttribute "data-bind" (attributes field1)))
          as [k1|] eqn:Ek.
        * unfold update_element. rewrite bind_bind_modify, bind_ret.
          match goal with
          | |- context [foldM l ?f ?s ?w0] =>
              destruct (IH s w0) as (states' & w1' & Hrun & Hu' & Hmono & Hkeys)
          end.
          { simpl. by rewrite attributes_alter. }
          { intros kv [-> | [-> | Hin]%elem_of_put_snd]%elem_of_put_snd; auto. }
          exists states', w1'. split; [exact Hrun |]. split; [exact Hu' |].
          split.
          { intros k Hk. apply Hmono. apply is_Some_own_put. right.
            apply is_Some_own_put. by right. }
          intros j field k [-> | Hin]%elem_of_cons Hf Hb; [| by eapply Hkeys].
          rewrite Hf in Hi. simpl in Hi. injection Hi as Hi.
          rewrite Hi, Hb in Ek. injection Ek as ->.
          split; apply Hmono.
          -- apply is_Some_own_put. right. apply is_Some_own_put. by left.
          -- apply is_Some_own_put. by left.
        * rewrite bind_ret.
          destruct (IH states w1 Ha Hu) as (states' & w1' & Hrun & Hu' & Hmono & Hkeys).
          exists states', w1'. split; [exact Hrun |]. split; [exact Hu' |].
          split; [exact Hmono |].
          intros j field k [-> | Hin]%elem_of_cons Hf Hb; [| by eapply Hkeys].
          rewrite Hf in Hi. simpl in Hi. injection Hi as Hi.
          rewrite Hi, Hb in Ek. discriminate.
      + rewrite bind_ret.
        destruct (IH states w1 Ha Hu) as (states' & w1' & Hrun & Hu' & Hmono & Hkeys).
        exists states', w1'. split; [exact Hrun |]. split; [exact Hu' |].
        split; [exact Hmono |].
        intros j field k [-> | Hin]%elem_of_cons Hf Hb; [| by eapply Hkeys].
        rewrite Hf in Hi. discriminate. }
  destruct (Hfold (group_fields P (document w) g) [] w eq_refl)
    as (states & w1 & Hrun & Hu & _ & Hkeys).
  { intros kv Hin. inversion Hin. }
  rewrite (bind_Ok _ _ _ _ _ Hrun) in H. unfold bind in H.
  destruct (State_set P b states w1) as [[] w2 | ex w2] eqn:H1;
    [| discriminate].
  assert (∀ kv, kv ∈ [(g ++ "_valid", VUndefined); (g ++ "_invalid", VUndefined)]
                → snd kv = VUndefined) as Hu2.
  { intros kv [-> | [-> | Hin]%elem_of_cons]%elem_of_cons;
      [done | done | inversion Hin]. }
  assert (∀ k, is_Some (own states k) → get (target w') k = VUndefined) as Hst.
  { intros k Hk. apply (State_set_undefined P b _ w2 w' k H Hu2). right.
    apply (State_set_undefined P b states w1 w2 k H1 Hu). by left. }
  split.
  - split; apply (State_set_undefined P b _ w2 w' _ H Hu2); left; simpl.
    + rewrite String.eqb_refl. by eexists.
    + destruct (String.eqb_spec (g ++ "_valid") (g ++ "_invalid")) as [E |].
      * by apply suffix_valid_invalid in E.
      * rewrite String.eqb_refl. by eexists.
  - intros i field k Hin Hf Hb.
    destruct (Hkeys i field k Hin Hf Hb) as [Hv Hi]. split; by apply Hst.
Qed.

Lemma resetValidation_clears_flags_witness :
  resetValidation ref_platform UMD "signup" validated_world
  = Ok tt (world_of (resetValidation ref_platform UMD "signup" validated_world))
  ∧ (get (target (world_of (resetValidation ref_platform UMD "signup"
                              validated_world))) ("signup" ++ "_valid")
     = VUndefined
     ∧ get (target (world_of (resetValidation ref_platform UMD "signup"
                                validated_world))) ("signup" ++ "_invalid")
       = VUndefined)
  ∧ ∀ i field k,
      i ∈ group_fields ref_platform (document validated_world) "signup" →
      document validated_world !! i = Some field →
      nonempty_attr (getAttribute "data-bind" (attributes field)) = Some k →
      get (target (world_of (resetValidation ref_platform UMD "signup"
                               validated_world))) (k ++ "_valid") = VUndefined
      ∧ get (target (world_of (resetValidation ref_platform UMD "signup"
                                 validated_world))) (k ++ "_invalid")
        = VUndefined.
Proof.
  split; [vm_compute; reflexivity |].
  apply (resetValidation_clears_flags ref_platform UMD "signup" validated_world
           (world_of (resetValidation ref_platform UMD "signup"
                        validated_world))).
  vm_compute; reflexivity.
Defined.

(** ** The listener that clears the invalid state of a field *)

Lemma has_class_filter_out (token : string) (l : list string) :
  has_class token (List.filter (fun t => negb (String.eqb t token)) l) = false.
Proof.
  induction l as [|t l IH]; [done |]. simpl.
  destruct (String.eqb_spec t token) as [-> | Hne]; simpl; [exact IH |].
  destruct (String.eqb_spec token t) as [-> |]; [done | exact IH].
Qed.

(** X18: the listener that the element factory [h] attaches to a bound form
    control clears the flags of its own key and nothing else.  When the
    store flags the key as invalid and the listener returns, the store
    holds undefined under [<key>_invalid] and true under [<key>_valid], the
    control has lost the class [invalid], and every other key of the store,
    such as the flags of the group that [validate] had set, is as it was. *)
Theorem clearInvalidState_clears (P : Platform) (b : build) (i : nat)
    (k : string) (w w' : World) :
  truthy (get (target w) (k ++ "_invalid")) = true →
  clearInvalidState P b i k w = Ok tt w' →
  get (target w') (k ++ "_invalid") = VUndefined
  ∧ get (target w') (k ++ "_valid") = VBool true
  ∧ (∀ e, document w' !! i = Some e → has_class "invalid" (classList e) = false)
  ∧ ∀ k', k' ≠ k ++ "_invalid" → k' ≠ k ++ "_valid" →
          get (target w') k' = get (target w) k'.
Proof.
  intros Ht H. unfold clearInvalidState, State_get in H.
  rewrite bind_gets, Ht in H. unfold when, bind in H.
  destruct (State_set P b [(k ++ "_invalid", VUndefined)] w)
    as [[] w2 | ex w2] eqn:H1; [| discriminate].
  destruct (State_set P b [(k ++ "_valid", VBool true)] w2)
    as [[] w3 | ex w3] eqn:H2; [| discriminate].
  injection H as <-. cbn [target set_document document].
  assert (∀ k' (x : value), k' ≠ k ++ "_invalid" →
            ∀ kv, kv ∈ [(k ++ "_invalid", x)] → fst kv ≠ k') as Hi.
  { intros k' x Hne kv ->%list_elem_of_singleton. simpl. congruence. }
  assert (∀ k' (x : value), k' ≠ k ++ "_valid" →
            ∀ kv, kv ∈ [(k ++ "_valid", x)] → fst kv ≠ k') as Hv.
  { intros k' x Hne kv ->%list_elem_of_singleton. simpl. congruence. }
  assert (∀ k', k' ≠ k ++ "_invalid" →
            get (target w2) k' = get (target w) k') as K1.
  { intros k' Hne.
    pose proof (keeps_State_set P b k' _ (Hi k' VUndefined Hne) w) as Hk.
    by rewrite H1 in Hk. }
  assert (∀ k', k' ≠ k ++ "_valid" →
            get (target w3) k' = get (target w2) k') as K2.
  { intros k' Hne.
    pose proof (keeps_State_set P b k' _ (Hv k' (VBool true) Hne) w2) as Hk.
    by rewrite H2 in Hk. }
  split; [| split; [| split]].
  - rewrite K2 by (intros E; symmetry in E; by apply suffix_valid_invalid in E).
    destruct (State_set_written P b _ w w2 (k ++ "_invalid") VUndefined H1)
      as [E | E]; [simpl; by rewrite String.eqb_refl | exact E |].
    by apply strict_eq_is_undefined.
  - destruct (State_set_written P b _ w2 w3 (k ++ "_valid") (VBool true) H2)
      as [E | E]; [simpl; by rewrite String.eqb_refl | exact E |].
    by apply strict_eq_is_bool.
  - intros e He. rewrite list_lookup_alter_eq in He.
    destruct (document w3 !! i) as [e3|]; [| discriminate].
    simpl in He. injection He as <-. simpl. apply has_class_filter_out.
  - intros k' N1 N2. by rewrite K2, K1.
Qed.

Lemma clearInvalidState_clears_witness :
  truthy (get (target validated_world) ("email" ++ "_invalid")) = true
  ∧ clearInvalidState ref_platform UMD 1 "email" validated_world
    = Ok tt (world_of (clearInvalidState ref_platform UMD 1 "email"
                         validated_world))
  ∧ get (target (world_of (clearInvalidState ref_platform UMD 1 "email"
                             validated_world))) ("email" ++ "_invalid")
    = VUndefined
  ∧ get (target (world_of (clearInvalidState ref_platform UMD 1 "email"
                             validated_world))) ("email" ++ "_valid")
    = VBool true
  ∧ (∀ e, document (world_of (clearInvalidState ref_platform UMD 1 "email"
                                validated_world)) !! 1 = Some e →
          has_class "invalid" (classList e) = false)
  ∧ ∀ k', k' ≠ "email" ++ "_invalid" → k' ≠ "email" ++ "_valid" →
          get (target (world_of (clearInvalidState ref_platform UMD 1 "email"
                                   validated_world))) k'
          = get (target validated_world) k'.
Proof.
  split; [vm_compute; reflexivity |]. split; [vm_compute; reflexivity |].
  apply (clearInvalidState_clears ref_platform UMD 1 "email" validated_world
           (world_of (clearInvalidState ref_platform UMD 1 "email"
                        validated_world)));
    vm_compute; reflexivity.
Defined.

(** ** The installation state of a new store *)

Lemma initPWA_target (P : Platform) (b : build) (w : World) :
  get (target w) "showInstallButton" = VBool false →
  b = UMD ∨ deferredPrompt w = None →
  target (world_of (initPWA P b w)) = target w.
Proof.
  intros Hs Hb.
  assert (data_set P b "showInstallButton" (VBool false) w = Ok tt w) as Hsame.
  { unfold data_set. apply reactive_unchanged. by rewrite Hs. }
  unfold initPWA. rewrite !bind_gets. destruct b.
  - destruct Hb as [? | Hd]; [discriminate |].
    destruct (display_standalone w); [by rewrite Hsame |].
    unfold checkForExistingPrompt, checkPWAStatus, addEventListener, emit.
    destruct (serviceWorker w);
      unfold bind, modify, gets, ret; simpl; by rewrite Hd.
  - rewrite bind_gets. destruct (enablePWA w); [| done]. simpl.
    unfold when.
    destruct (display_standalone w), (serviceWorker w);
      rewrite ?(bind_Ok _ _ _ _ _ Hsame); reflexivity.
Qed.

Lemma umd_constructor_install_state (P : Platform)
    (w : World) (text : string) (id : nat) (props : obj) :
  instance w = false →
  localStorage w !! "state" = Some text →
  JSON_parse P text = Some (VObject id props) →
  get (target (world_of (StateSingleton_constructor P UMD w)))
    "showInstallButton" = VBool false
  ∧ get (target (world_of (StateSingleton_constructor P UMD w)))
      "pwaInstallPrompt" = VNull.
Proof.
  intros Hi Hl Hp. unfold StateSingleton_constructor.
  rewrite bind_gets, Hi.
  rewrite (bind_Ok _ _ _ _ _
             (initial_storedData_parsed P UMD w text _ Hl Hp eq_refl)).
  unfold writable_props, reactive_ref, bindInputs, addEventListener.
  rewrite !bind_ret, !bind_modify, !bind_gets.
  cbn [pathname hash set_instance set_subscribers set_listeners set_target
       set_trace].
  set (b := UMD).
  match goal with
  | |- context [bind (data_set P b ?k ?v) ?K ?w0] =>
      set (w2 := w0); set (rest := K);
      pose proof (keeps_data_set P b "showInstallButton" k v ltac:(done) w2) as K1;
      pose proof (keeps_data_set P b "pwaInstallPrompt" k v ltac:(done) w2) as K2;
      destruct (calm_data_set refresh_event (fun _ H => H) P b k v w2)
        as (_ & Hd & _);
      destruct (data_set P b k v w2) as [[] w3 | ex w3] eqn:Hset
  end; unfold keeps in K1, K2; simpl in Hd;
    (assert (get (target w2) "showInstallButton" = VBool false) as T1
       by (subst w2; cbn [target set_instance set_subscribers set_listeners
                          set_target set_trace]; apply get_put_same));
    (assert (get (target w2) "pwaInstallPrompt" = VNull) as T2
       by (subst w2; cbn [target set_instance set_subscribers set_listeners
                          set_target set_trace];
           rewrite get_put_other by done; apply get_put_same));
    cbn [world_of] in K1, K2; rewrite T1 in K1; rewrite T2 in K2.
  - rewrite (bind_Ok _ _ _ _ _ Hset). subst rest. cbv beta.
    assert (∀ k, keeps k (world_of (initPWA P b w3))
                   (world_of (bind (initPWA P b)
                                (fun _ =>
                                   match b with
                                   | Standalone => trackUserEngagement
                                   | UMD => ret tt
                                   end ;;
                                   requestAnimationFrame InitialRender) w3)))
      as Hk.
    { intros k. apply (bind_world (keeps k)). intros _.
      unfold trackUserEngagement. frame. }
    unfold keeps in Hk. rewrite !Hk, initPWA_target.
    + by rewrite K1, K2.
    + by rewrite K1.
    + by left.
  - unfold bind. fold w2. rewrite Hset. simpl. by rewrite K1, K2.
Qed.

(** X19: in the file whose constructor finds [reactive] defined, the
    installation state is never restored from storage.  When the record
    under [state] parses to an object and the statement that initialises
    [State] completes, the new store holds false under [showInstallButton]
    and null under [pwaInstallPrompt], whatever the record says. *)
Theorem constructor_resets_install_state (P : Platform)
    (w w' : World) (text : string) (id : nat) (props : obj) :
  instance w = false →
  localStorage w !! "state" = Some text →
  JSON_parse P text = Some (VObject id props) →
  initialise_State P UMD w = Ok tt w' →
  get (target w') "showInstallButton" = VBool false
  ∧ get (target w') "pwaInstallPrompt" = VNull.
Proof.
  intros Hi Hl Hp H. rewrite (initialise_State_Ok_inv _ _ _ _ H).
  by eapply umd_constructor_install_state.
Qed.

Lemma constructor_resets_install_state_witness :
  instance prompted_visitor = false
  ∧ localStorage prompted_visitor !! "state"
    = Some ("{" ++ q "showInstallButton" ++ ":true}")
  ∧ JSON_parse ref_platform ("{" ++ q "showInstallButton" ++ ":true}")
    = Some (VObject 26 [("showInstallButton", VBool true)])
  ∧ initialise_State ref_platform UMD prompted_visitor
    = Ok tt (world_of (initialise_State ref_platform UMD prompted_visitor))
  ∧ get (target (world_of (initialise_State ref_platform UMD
                             prompted_visitor))) "showInstallButton"
    = VBool false
  ∧ get (target (world_of (initialise_State ref_platform UMD
                             prompted_visitor))) "pwaInstallPrompt"
    = VNull.
Proof.
  split; [reflexivity |]. split; [vm_compute; reflexivity |].
  split; [vm_compute; reflexivity |]. split; [vm_compute; reflexivity |].
  apply (constructor_resets_install_state ref_platform
           prompted_visitor
           (world_of (initialise_State ref_platform UMD prompted_visitor))
           ("{" ++ q "showInstallButton" ++ ":true}")
           26 [("showInstallButton", VBool true)]);
    vm_compute; reflexivity.
Defined.

(** ** Elements bound to another key *)

#[local] Instance binding_kept_preorder (j : nat) : PreOrder (binding_kept j).
Proof.
  split.
  - intros w e He _. by exists e.
  - intros w1 w2 w3 H1 H2 e He Hr.
    destruct (H1 e He Hr) as (e2 & He2 & Hb2).
    destruct (H2 e2 He2) as (e3 & He3 & Hb3).
    + unfold is_radio in *. unfold binding_of in Hb2.
      injection Hb2 as _ -> _ -> _ _ _. exact Hr.
    + exists e3. split; [done | congruence].
Qed.

Lemma same_bindings_binding_kept (j : nat) (w w' : World) :
  same_bindings w w' → binding_kept j w w'.
Proof. intros H e He _. by apply (same_bindings_lookup w). Qed.

Lemma binding_kept_modify (j : nat) (f : World → World) :
  (∀ w, document (f w) = document w) → preserves (binding_kept j) (modify f).
Proof.
  intros H. apply preserves_modify. intros w e He _. rewrite H. by exists e.
Qed.

Lemma binding_kept_alter (j i : nat) (F : element → element) :
  i ≠ j → preserves (binding_kept j) (update_element i F).
Proof.
  intros Hne. apply preserves_modify. intros w e He _. simpl.
  rewrite list_lookup_alter_ne by done. by exists e.
Qed.

Lemma binding_kept_assign_checked (j i : nat) (x : bool) :
  i ≠ j → preserves (binding_kept j) (assign_checked i x).
Proof.
  intros Hne. apply preserves_modify. intros w e He Hr. simpl.
  unfold set_checked. destruct (document w !! i) as [a|] eqn:Ha;
    [| by exists e].
  rewrite list_lookup_imap, He. simpl.
  assert (Nat.eqb j i = false) as -> by (apply Nat.eqb_neq; congruence).
  assert (same_radio_group a e = false) as ->.
  { unfold same_radio_group. rewrite Hr. by rewrite andb_false_r. }
  rewrite andb_false_r. by exists e.
Qed.

Lemma binding_kept_updateDOM_write (P : Platform) (b : build) (v : value)
    (j i : nat) (e : element) :
  i ≠ j → preserves (binding_kept j) (updateDOM_write P b v i e).
Proof.
  intros Hne. unfold updateDOM_write, assign_value.
  frame_with ltac:(first
    [ by apply binding_kept_alter
    | by apply binding_kept_assign_checked ]).
Qed.

(** X20: a write to a key that can stand between the quotes of the
    selector does not change what an element bound to another key, or to
    no key, shows, unless the element is a radio button (which a button of
    its group unchecks when it is checked) or is nested with an element
    bound to the key (whose text is part of its own, or replaces it):
    whatever the write does, such an element keeps its value, its checked
    state and its text. *)
Theorem write_leaves_other_bindings (P : Platform) (b : build) (key : string)
    (v : value) (w : World) (j : nat) (e : element) :
  paste key = Plain →
  document w !! j = Some e →
  getAttribute "data-bind" (attributes e) ≠ Some key →
  is_radio e = false →
  apart_from_bound key e (document w) = true →
  ∃ e', document (world_of (data_set P b key v w)) !! j = Some e'
        ∧ binding_of e' = binding_of e.
Proof.
  intros Hp He Hk Hr _. destruct (strict_eq (get (target w) key) v) eqn:E.
  - rewrite data_set_same_value by done. by exists e.
  - unfold data_set.
    rewrite (reactive_effective _ _ _ _ E), updateLocalStorage_unfold.
    set (w1 := stored P (set_target (put (target w) key v) w)).
    assert (binding_kept j w1 (world_of (updateDOM P b key v w1))) as H1.
    { unfold updateDOM, pasted_query. rewrite bind_gets, Hp.
      match goal with
      | |- binding_kept j w1 (world_of (?m w1)) =>
          assert (preserves (binding_kept j) m) as Hm; [| apply Hm]
      end.
      apply preserves_bind; [apply _ | |].
      - unfold forEach_element. apply preserves_forEach_in; [apply _ |].
        intros i Hi.
        assert (i ≠ j) as Hne.
        { intros ->. apply elem_of_querySelectorAll in Hi as (e' & He' & Hm).
          change (document w1) with (document w) in He'.
          rewrite He in He'. injection He' as <-. simpl in Hm.
          destruct (getAttribute "data-bind" (attributes e)) as [x|];
            [| discriminate].
          rewrite orb_false_r in Hm. apply String.eqb_eq in Hm.
          by subst. }
        frame_with ltac:(by apply binding_kept_updateDOM_write).
      - intros _.
        frame_with ltac:(apply binding_kept_modify; reflexivity). }
    assert (binding_kept j (world_of (updateDOM P b key v w1))
              (world_of ((updateDOM P b key v ;; updateVisibility P b ;;
                          updateClasses P b) w1))) as H2.
    { apply same_bindings_binding_kept.
      apply (bind_world same_bindings). intros. frame. }
    apply (transitivity H1 H2); [| exact Hr]. exact He.
Qed.

Lemma write_leaves_other_bindings_witness :
  paste "count" = Plain
  ∧ document mirror_page !! 1 = Some name_label
  ∧ getAttribute "data-bind" (attributes name_label) ≠ Some "count"
  ∧ is_radio name_label = false
  ∧ apart_from_bound "count" name_label (document mirror_page) = true
  ∧ ∃ e', document (world_of (data_set ref_platform UMD "count" (VNum 1)
                                mirror_page)) !! 1 = Some e'
          ∧ binding_of e' = binding_of name_label.
Proof.
  split; [reflexivity |]. split; [reflexivity |]. split; [discriminate |].
  split; [reflexivity |]. split; [vm_compute; reflexivity |].
  apply (write_leaves_other_bindings ref_platform UMD "count" (VNum 1)
           mirror_page 1 name_label);
    [reflexivity | reflexivity | discriminate | reflexivity
    | vm_compute; reflexivity].
Defined.

(** ** A key that the selector cannot hold *)



(** ** Observers *)

Lemma with_onShowObserver_observed (e : element) :
  onShowObserver e = true → with_onShowObserver true e = e.
Proof. destruct e. simpl. by intros ->. Qed.

Lemma trackOnShowElements_run (w : World) :
  ∃ w', trackOnShowElements w = Ok tt w'
        ∧ trace w' = trace w
        ∧ document w' = observed <$> document w.
Proof.
  unfold trackOnShowElements, forEach_selected. rewrite bind_gets.
  destruct (forEach_alter
              (fun i e =>
                 when (negb (onShowObserver e))
                   (update_element i (with_onShowObserver true)))
              (with_onShowObserver true)
              (fun w1 => trace w1 = trace w))
    with (l := querySelectorAll (document w) [SAttr "onshow"]) (w := w)
    as (w' & Hrun & Ht & Hd); [| done |].
  { intros i e w1 Ht1 He. destruct (onShowObserver e) eqn:Eo; simpl.
    - exists w1. split; [done |]. split; [done |].
      symmetry. apply list_eq. intros j. rewrite list_lookup_alter.
      case_decide; [| done]. subst. rewrite He. simpl.
      by rewrite with_onShowObserver_observed.
    - by eexists. }
  exists w'. split; [exact Hrun |]. split; [exact Ht |].
  apply list_eq. intros j.
  rewrite Hd, lookup_foldl_alter by apply select_from_NoDup.
  rewrite list_lookup_fmap.
  destruct (document w !! j) as [e|] eqn:He; [| by case_decide].
  simpl. unfold observed.
  destruct (getAttribute "onshow" (attributes e)) as [x|] eqn:Ha.
  - rewrite decide_True; [done |].
    apply elem_of_querySelectorAll. exists e. split; [done |].
    simpl. by rewrite Ha.
  - rewrite decide_False; [done |].
    rewrite elem_of_querySelectorAll. intros (e' & He' & Hm).
    rewrite He in He'. injection He' as <-. simpl in Hm. by rewrite Ha in Hm.
Qed.

Lemma observed_idempotent (e : element) : observed (observed e) = observed e.
Proof.
  unfold observed. destruct (getAttribute "onshow" (attributes e)) eqn:E;
    simpl; rewrite E; [| done]. by destruct e.
Qed.

(** X22: [trackOnShowElements] attaches an observer to every element that
    has an [onShow] attribute and none yet, and to no other; it logs
    nothing, and running it again changes nothing at all, so that however
    often [updateVisibility] requests it, an element is observed once. *)
Theorem trackOnShowElements_once (w : World) :
  ∃ w', trackOnShowElements w = Ok tt w'
        ∧ trace w' = trace w
        ∧ document w' = observed <$> document w
        ∧ trackOnShowElements w' = Ok tt w'.
Proof.
  destruct (trackOnShowElements_run w) as (w' & Hrun & Ht & Hd).
  exists w'. split; [exact Hrun |]. split; [exact Ht |]. split; [exact Hd |].
  destruct (trackOnShowElements_run w') as (w'' & Hrun' & Ht' & Hd').
  rewrite Hrun'. f_equal.
  assert (document w'' = document w') as Hdoc.
  { rewrite Hd', Hd, <- list_fmap_compose. apply list_fmap_ext.
    intros i e _. apply observed_idempotent. }
  clear -Hrun' Ht' Hdoc.
  unfold trackOnShowElements, forEach_selected in Hrun'.
  rewrite bind_gets in Hrun'.
  assert (∀ l w1 w2,
            forEach l
              (fun i => let* doc' := gets document in
                        match doc' !! i with
                        | Some e =>
                            when (negb (onShowObserver e))
                              (update_element i (with_onShowObserver true))
                        | None => ret tt
                        end) w1 = Ok tt w2 →
            w2 = set_document (document w2) w1) as Hloop.
  { induction l as [|i l IH]; intros w1 w2 H; cbn [forEach] in H.
    - injection H as <-. by destruct w1.
    - rewrite bind_bind_gets in H.
      destruct (document w1 !! i) as [e|];
        [destruct (onShowObserver e); simpl in H |].
      + rewrite bind_ret in H. by apply IH.
      + unfold update_element in H. rewrite bind_modify in H.
        apply IH in H. rewrite H. reflexivity.
      + rewrite bind_ret in H. by apply IH. }
  apply Hloop in Hrun'. rewrite Hrun', Hdoc. by destruct w'.
Qed.

(** ** A subscriber is called *)




(** ** A reset without an initial state *)

#[local] Instance quiet_preorder : PreOrder quiet.
Proof.
  split.
  - intros w. by repeat split.
  - intros w1 w2 w3 (T1 & S1 & L1 & R1) (T2 & S2 & L2 & R2).
    repeat split; congruence.
Qed.

Lemma quiet_modify (f : World → World) :
  (∀ w, target (f w) = target w) →
  (∀ w, subscribers (f w) = subscribers w) →
  (∀ w, localStorage (f w) = localStorage w) →
  (∀ w, trace (f w) = trace w) →
  preserves quiet (modify f).
Proof. intros. apply preserves_modify. intros w. by repeat split. Qed.

(** X5: [State.reset()] without an initial state, whether it returns or
    throws (as it does when an element refuses an empty value, or names a
    function of [Object.prototype] that throws), empties the store and
    drops the subscriptions; it logs nothing and does not touch persistent
    storage, so that the record stored under [state] is the one from before
    the reset. *)
Theorem reset_without_state (P : Platform) (b : build) (w : World) :
  let w' := world_of (State_reset P b [] w) in
  target w' = []
  ∧ subscribers w' = ∅
  ∧ localStorage w' = localStorage w
  ∧ trace w' = trace w.
Proof.
  cbv zeta. unfold State_reset. rewrite bind_modify. cbn [forEach].
  rewrite bind_ret.
  match goal with
  | |- context [world_of (?m ?w0)] =>
      assert (preserves quiet m) as Hm;
        [| destruct (Hm w0) as (Ht & Hs & Hl & Htr)]
  end.
  { unfold call_function, assign_value, assign_checked, update_element.
    frame_with ltac:(apply quiet_modify; reflexivity). }
  rewrite Ht, Hs, Hl, Htr. done.
Qed.

(** ** The installation prompt *)

Lemma data_set_Ok_written (P : Platform) (b : build) (k : string) (v : value)
    (w w' : World) :
  data_set P b k v w = Ok tt w' →
  (get (target w') k = v ∨ strict_eq (get (target w') k) v = true)
  ∧ ∀ k', k ≠ k' → get (target w') k' = get (target w) k'.
Proof.
  intros H. split.
  - pose proof (data_set_written P b k v w) as Hw. by rewrite H in Hw.
  - intros k' Hne. pose proof (data_set_other_key P b k k' v w Hne) as Ho.
    by rewrite H in Ho.
Qed.

(** X26: the two listeners that [initPWA] installs undo each other.  When
    the [beforeinstallprompt] listener returns, the store holds the event
    (a value strictly equal to it) under [pwaInstallPrompt] and true under
    [showInstallButton]; when the [appinstalled] listener then returns, it
    holds null and false again. *)
Theorem install_prompt_round_trip (P : Platform) (b : build) (e : value)
    (w w1 w2 : World) :
  on_beforeinstallprompt P b e w = Ok tt w1 →
  on_appinstalled P b w1 = Ok tt w2 →
  ((get (target w1) "pwaInstallPrompt" = e
    ∨ strict_eq (get (target w1) "pwaInstallPrompt") e = true)
   ∧ get (target w1) "showInstallButton" = VBool true)
  ∧ get (target w2) "pwaInstallPrompt" = VNull
  ∧ get (target w2) "showInstallButton" = VBool false.
Proof.
  intros H1 H2. unfold on_beforeinstallprompt, emit in H1.
  rewrite bind_modify in H1. unfold bind at 1 in H1.
  destruct (data_set P b "pwaInstallPrompt" e _) as [[] wa | ex wa] eqn:Ha;
    [| discriminate].
  unfold bind at 1 in H1.
  destruct (data_set P b "showInstallButton" (VBool true) wa)
    as [[] wb | ex wb] eqn:Hb; [| discriminate].
  assert (target w1 = target wb) as ->.
  { destruct b; injection H1 as <-; reflexivity. }
  destruct (data_set_Ok_written P b _ _ _ _ Ha) as (Wa & _).
  destruct (data_set_Ok_written P b _ _ _ _ Hb) as (Wb & Ob).
  unfold on_appinstalled, bind in H2.
  destruct (data_set P b "pwaInstallPrompt" VNull w1) as [[] wc | ex wc] eqn:Hc;
    [| discriminate].
  destruct (data_set_Ok_written P b _ _ _ _ Hc) as (Wc & _).
  destruct (data_set_Ok_written P b _ _ _ _ H2) as (Wd & Od).
  split; [split |]; [| | split].
  - by rewrite Ob.
  - destruct Wb as [E | E]; [exact E | by apply strict_eq_is_bool].
  - rewrite Od by done. destruct Wc as [E | E]; [exact E |].
    by destruct (get (target wc) "pwaInstallPrompt").
  - destruct Wd as [E | E]; [exact E | by apply strict_eq_is_bool].
Qed.

Lemma install_prompt_round_trip_witness :
  on_beforeinstallprompt ref_platform UMD install_event first_visit
  = Ok tt (world_of (on_beforeinstallprompt ref_platform UMD install_event
                       first_visit))
  ∧ on_appinstalled ref_platform UMD
      (world_of (on_beforeinstallprompt ref_platform UMD install_event
                   first_visit))
    = Ok tt (world_of
               (on_appinstalled ref_platform UMD
                  (world_of (on_beforeinstallprompt ref_platform UMD
                               install_event first_visit))))
  ∧ ((get (target (world_of (on_beforeinstallprompt ref_platform UMD
                               install_event first_visit)))
        "pwaInstallPrompt" = install_event
      ∨ strict_eq
          (get (target (world_of (on_beforeinstallprompt ref_platform UMD
                                    install_event first_visit)))
             "pwaInstallPrompt") install_event = true)
     ∧ get (target (world_of (on_beforeinstallprompt ref_platform UMD
                                install_event first_visit)))
         "showInstallButton" = VBool true)
  ∧ get (target (world_of
                   (on_appinstalled ref_platform UMD
                      (world_of (on_beforeinstallprompt ref_platform UMD
                                   install_event first_visit)))))
      "pwaInstallPrompt" = VNull
  ∧ get (target (world_of
                   (on_appinstalled ref_platform UMD
                      (world_of (on_beforeinstallprompt ref_platform UMD
                                   install_event first_visit)))))
      "showInstallButton" = VBool false.
Proof.
  split; [vm_compute; reflexivity |]. split; [vm_compute; reflexivity |].
  apply (install_prompt_round_trip ref_platform UMD install_event first_visit
           (world_of (on_beforeinstallprompt ref_platform UMD install_event
                        first_visit))
           (world_of
              (on_appinstalled ref_platform UMD
                 (world_of (on_beforeinstallprompt ref_platform UMD
                              install_event first_visit)))));
    vm_compute; reflexivity.
Defined.

(** ** The two route comparisons *)

Lemma replace_route_eq (x : string) :
  JsString.replace_first ("route==" ++ x) "route==" "" = x.
Proof.
  change (JsString.replace_first ("route==" ++ x) "route==" "")
    with (JsString.of_chars (JsString.chars x)).
  apply of_chars_chars.
Qed.

Lemma replace_route_ne (x : string) :
  JsString.replace_first ("route!=" ++ x) "route!=" "" = x.
Proof.
  change (JsString.replace_first ("route!=" ++ x) "route!=" "")
    with (JsString.of_chars (JsString.chars x)).
  apply of_chars_chars.
Qed.

(** X27: the condition [route!=x] is the negation of [route==x]: in every
    store and in both builds, the first evaluates to the negation of what
    the second evaluates to, and throws when the second throws. *)
Theorem route_ne_is_negation (P : Platform) (b : build) (x : string)
    (w : World) :
  outcome_value (evaluateSingleCondition P b ("route!=" ++ x) w)
  = match outcome_value (evaluateSingleCondition P b ("route==" ++ x) w) with
    | inr r => inr (negb r)
    | inl e => inl e
    end.
Proof.
  unfold evaluateSingleCondition.
  change (JsString.startsWith ("route!=" ++ x) "!") with false.
  change (JsString.startsWith ("route!=" ++ x) "route~=") with false.
  change (JsString.startsWith ("route!=" ++ x) "route==") with false.
  change (JsString.startsWith ("route!=" ++ x) "route!=") with true.
  change (JsString.startsWith ("route==" ++ x) "!") with false.
  change (JsString.startsWith ("route==" ++ x) "route~=") with false.
  change (JsString.startsWith ("route==" ++ x) "route==") with true.
  cbv iota. rewrite replace_route_eq, replace_route_ne.
  unfold bind.
  destruct (State_const w) eqn:Hw.
  - rewrite (checked_State_get_initialised _ _ Hw).
    destruct b; [unfold route_method; destruct (get (target w) "route") |];
      simpl; try reflexivity; by rewrite negb_orb.
  - by rewrite (checked_State_get_early _ _ Hw).
Qed.

(** ** The file that constructs the store before it defines [reactive] *)

#[local] Instance same_script_preorder : PreOrder same_script.
Proof.
  split.
  - intros w. reflexivity.
  - intros w1 w2 w3 H1 H2. unfold same_script in *. congruence.
Qed.

Lemma same_script_modify (f : World → World) :
  (∀ w, script_state (f w) = script_state w) →
  preserves same_script (modify f).
Proof. intros H. apply preserves_modify. intros w. apply H. Qed.

Lemma same_script_run_frame (P : Platform) (b : build) (t : frame_task) :
  preserves same_script (run_frame P b t).
Proof.
  unfold run_frame, updateDOM, updateDOM_write, assign_value, assign_checked,
    updateVisibility, updateClasses, apply_class_rule, toggle,
    trackOnShowElements, evaluateCondition, evaluateSingleCondition,
    route_method, update_element, requestAnimationFrame, emit.
  frame_with ltac:(apply same_script_modify; reflexivity).
Qed.

Lemma standalone_constructor_throws (P : Platform) (w : World) :
  instance w = false →
  ∃ e, StateSingleton_constructor P Standalone w
       = Throw e (set_trace (GetItem "state" :: trace w) w).
Proof.
  intros Hi. unfold StateSingleton_constructor. rewrite bind_gets, Hi.
  unfold initial_storedData, parse_stored, getItem, writable_props,
    reactive_ref.
  unfold bind, emit, modify, gets, ret, throw. simpl.
  destruct (JSON_parse P _) as [v|]; [| by eexists].
  destruct (truthy v); [destruct v |]; by eexists.
Qed.

Lemma no_store_step (P : Platform) (o : op) (w : World) :
  no_store w → same_script w (step P Standalone o w).
Proof.
  intros (Hi & Hc & Hl). destruct o; simpl; rewrite ?Hc; try reflexivity.
  - unfold initialise_State, bind.
    destruct (standalone_constructor_throws P w Hi) as (e & ->). reflexivity.
  - unfold dispatchEvent. rewrite Hl. reflexivity.
  - apply same_script_run_frame.
Qed.

(** X28: the file that is included by a script tag never has a store.  Its
    constructor calls [reactive] before the file has defined it, so that
    the statement [const State = new StateSingleton()] throws on every page
    and whatever storage holds; and whatever the page and the browser do
    next, there is no instance, the constant [State] stays uninitialised,
    no listener is installed, and the store and persistent storage are as
    the script found them. *)
Theorem standalone_store_never_exists (P : Platform) (w : World) :
  no_store w →
  (∃ e w1, initialise_State P Standalone w = Throw e w1)
  ∧ ∀ ops, let w' := steps P Standalone ops w in
           no_store w'
           ∧ target w' = target w
           ∧ localStorage w' = localStorage w.
Proof.
  intros Hn. split.
  - destruct Hn as (Hi & _).
    destruct (standalone_constructor_throws P w Hi) as (e & He).
    exists e. eexists. unfold initialise_State, bind. by rewrite He.
  - intros ops. cbv zeta.
    assert (same_script w (steps P Standalone ops w)
            ∧ no_store (steps P Standalone ops w)) as [Hs Hn'].
    { unfold steps. revert w Hn.
      induction ops as [|o ops IH]; intros w Hn; simpl.
      - split; [reflexivity | done].
      - pose proof (no_store_step P o w Hn) as H1.
        assert (no_store (step P Standalone o w)) as Hn1.
        { destruct Hn as (Hi & Hc & Hl). unfold same_script, script_state in H1.
          injection H1 as E1 E2 E3 _ _. unfold no_store. by rewrite E1, E2, E3. }
        destruct (IH _ Hn1) as [H2 Hn2]. split; [| done].
        by transitivity (step P Standalone o w). }
    split; [done |]. unfold same_script, script_state in Hs.
    by injection Hs as _ _ _ -> ->.
Qed.

Lemma standalone_store_never_exists_witness :
  no_store empty_world
  ∧ (∃ e w1, initialise_State ref_platform Standalone empty_world = Throw e w1)
  ∧ ∀ ops, let w' := steps ref_platform Standalone ops empty_world in
           no_store w'
           ∧ target w' = target empty_world
           ∧ localStorage w' = localStorage empty_world.
Proof.
  split; [by repeat split |].
  apply (standalone_store_never_exists ref_platform empty_world).
  by repeat split.
Defined.

(** ** A page that has a condition when the script runs *)

#[local] Instance conditions_kept_preorder : PreOrder conditions_kept.
Proof.
  split.
  - intros w. by split.
  - intros w1 w2 w3 (C1 & D1) (C2 & D2). split; congruence.
Qed.

Lemma conditions_kept_modify (f : World → World) :
  (∀ w, State_const (f w) = State_const w) →
  (∀ w, document (f w) = document w) →
  preserves conditions_kept (modify f).
Proof.
  intros Hc Hd. apply preserves_modify. intros w. split; [apply Hc |].
  by rewrite Hd.
Qed.

Lemma conditions_kept_update_element (i : nat) (f : element → element) :
  (∀ e, condition_of (f e) = condition_of e) →
  preserves conditions_kept (update_element i f).
Proof.
  intros H. apply preserves_modify. intros w. split; [done |]. simpl.
  rewrite (list_fmap_alter condition_of f id).
  - by apply list_alter_id.
  - apply Forall_forall. intros e _. apply H.
Qed.

Lemma conditions_kept_assign_checked (i : nat) (x : bool) :
  preserves conditions_kept (assign_checked i x).
Proof.
  apply preserves_modify. intros w. split; [done |]. simpl.
  unfold set_checked. destruct (document w !! i) as [e|]; [| done].
  apply list_eq. intros j. rewrite !list_lookup_fmap, list_lookup_imap.
  destruct (document w !! j) as [a|]; [| done]. simpl.
  by repeat case_match.
Qed.

Lemma conditions_kept_refresh (P : Platform) (b : build) :
  (∀ key v, preserves conditions_kept (updateDOM P b key v))
  ∧ ∀ c, preserves conditions_kept (evaluateCondition P b c).
Proof.
  split; intros;
    unfold updateDOM, updateDOM_write, assign_value, evaluateCondition,
      evaluateSingleCondition, route_method;
    frame_with ltac:(first
      [ apply conditions_kept_assign_checked
      | apply conditions_kept_update_element; reflexivity
      | apply conditions_kept_modify; reflexivity ]).
Qed.

Lemma conditions_kept_lookup (w w' : World) (i : nat) (e : element) :
  conditions_kept w w' → document w !! i = Some e →
  ∃ e', document w' !! i = Some e' ∧ condition_of e' = condition_of e.
Proof.
  intros (_ & H) He.
  assert ((condition_of <$> document w') !! i = Some (condition_of e)) as Hl
    by (by rewrite H, list_lookup_fmap, He).
  rewrite list_lookup_fmap in Hl.
  destruct (document w' !! i) as [e'|]; [| discriminate].
  exists e'. split; [done |]. by apply (inj Some) in Hl.
Qed.

(** Before [State] is initialised, [updateVisibility] does not get past an
    element that has a condition to evaluate. *)
Lemma updateVisibility_early (P : Platform) (b : build) (w : World) (i : nat)
    (e : element) (c : string) :
  State_const w = false →
  document w !! i = Some e →
  nonempty_attr (getAttribute "show-if" (attributes e)) = Some c →
  showIf e = None →
  ∃ ex w', updateVisibility P b w = Throw ex w' ∧ State_const w' = false.
Proof.
  intros Hw He Hc Hs.
  assert (i ∈ querySelectorAll (document w) [SAttr "show-if"]) as Hin.
  { apply elem_of_querySelectorAll. exists e. split; [done |]. simpl.
    unfold nonempty_attr in Hc.
    by destruct (getAttribute "show-if" (attributes e)). }
  unfold updateVisibility, forEach_selected. rewrite bind_bind_gets.
  set (body := fun (j : nat) (a : element) =>
         let* shouldShow :=
           match showIf a with
           | Some f => let* r := call_user f in ret (truthy r)
           | None =>
               match nonempty_attr (getAttribute "show-if" (attributes a)) with
               | Some c0 => evaluateCondition P b (JsString.trim c0)
               | None => ret false
               end
           end in
         update_element j (with_display (if shouldShow then "" else "none"))).
  assert (∀ j a, preserves conditions_kept (body j a)) as Hbody.
  { intros j a. subst body. cbv beta.
    frame_with ltac:(first
      [ apply (proj2 (conditions_kept_refresh P b))
      | apply conditions_kept_update_element; reflexivity ]). }
  assert (∀ l w1, i ∈ l → conditions_kept w w1 →
            ∃ ex w',
              forEach l
                (fun j => let* doc' := gets document in
                          match doc' !! j with
                          | Some a => body j a
                          | None => ret tt
                          end) w1 = Throw ex w'
              ∧ conditions_kept w w') as Hloop.
  { induction l as [|j l IH]; intros w1 Hl Hk; [inversion Hl |].
    cbn [forEach]. unfold bind at 1. rewrite bind_gets.
    destruct (decide (j = i)) as [-> | Hne].
    - destruct (conditions_kept_lookup w w1 i e Hk He) as (e1 & He1 & Hc1).
      rewrite He1. injection Hc1 as Ha1 Hs1.
      subst body. cbv beta. rewrite Hs1, Hs, Ha1, Hc. unfold bind at 1.
      rewrite evaluateCondition_early
        by (destruct Hk as (-> & _); exact Hw).
      by eexists _, _.
    - apply elem_of_cons in Hl as [-> | Hl]; [done |].
      assert (conditions_kept w1
                (world_of (match document w1 !! j with
                           | Some a => body j a
                           | None => ret tt
                           end w1))) as Hstep.
      { destruct (document w1 !! j) as [a|]; [apply Hbody | reflexivity]. }
      destruct (match document w1 !! j with
                | Some a => body j a
                | None => ret tt
                end w1) as [[] w2 | ex w2]; simpl in Hstep.
      + apply IH; [done | by transitivity w1].
      + eexists _, _. split; [reflexivity | by transitivity w1]. }
  destruct (Hloop _ w Hin (reflexivity w)) as (ex & w' & Hrun & Hk).
  exists ex, w'. unfold bind at 1. subst body. cbv beta zeta in Hrun |- *.
  rewrite Hrun.
  split; [done |]. destruct Hk as (-> & _). exact Hw.
Qed.

Lemma refresh_early (P : Platform) (b : build) (key : string) (v : value)
    (w : World) (i : nat) (e : element) (c : string) :
  State_const w = false →
  document w !! i = Some e →
  nonempty_attr (getAttribute "show-if" (attributes e)) = Some c →
  showIf e = None →
  ∃ ex w', (updateDOM P b key v ;; updateVisibility P b ;; updateClasses P b) w
           = Throw ex w'
           ∧ State_const w' = false.
Proof.
  intros Hw He Hc Hs.
  pose proof (proj1 (conditions_kept_refresh P b) key v w) as Hk.
  unfold bind at 1.
  destruct (updateDOM P b key v w) as [[] w1 | ex w1]; simpl in Hk.
  - destruct (conditions_kept_lookup w w1 i e Hk He) as (e1 & He1 & Hc1).
    injection Hc1 as Ha1 Hs1.
    destruct (updateVisibility_early P b w1 i e1 c) as (ex & w' & Hrun & Hw');
      [by destruct Hk as (-> & _) | done | by rewrite Ha1 | congruence |].
    exists ex, w'. unfold bind. by rewrite Hrun.
  - exists ex, w1. split; [done |]. by destruct Hk as (-> & _).
Qed.

(** X30: in the build whose constructor finds [reactive] defined, the
    statement [const State = new StateSingleton()] does not complete on a
    page that has a condition to evaluate when the script runs.  When the
    stored record parses to an object whose route is not the location of
    the page, and the document has an element with a non-empty [show-if]
    attribute and no [showIf] function (outside the elements that show the
    route as their text), the constructor's own write of [route] refreshes
    the document, and the evaluation of the condition reads [State] before
    it is initialised: the statement throws, and [State] stays
    uninitialised. *)
Theorem umd_constructor_throws_on_condition (P : Platform) (w : World)
    (text : string) (id : nat) (props : obj) (i : nat) (e : element)
    (c : string) :
  instance w = false →
  State_const w = false →
  localStorage w !! "state" = Some text →
  JSON_parse P text = Some (VObject id props) →
  strict_eq (get props "route") (VStr (pathname w ++ hash w)) = false →
  document w !! i = Some e →
  nonempty_attr (getAttribute "show-if" (attributes e)) = Some c →
  showIf e = None →
  outside_route_text e (document w) = true →
  ∃ ex w', initialise_State P UMD w = Throw ex w' ∧ State_const w' = false.
Proof.
  intros Hi Hw Hl Hp Hr He Hc Hs _.
  unfold initialise_State, StateSingleton_constructor.
  rewrite bind_bind_gets, Hi.
  unfold bind at 1.
  rewrite (bind_Ok _ _ _ _ _
             (initial_storedData_parsed P UMD w text _ Hl Hp eq_refl)).
  unfold writable_props, reactive_ref, bindInputs, addEventListener.
  rewrite !bind_ret, !bind_modify, !bind_gets.
  cbn [pathname hash set_instance set_subscribers set_listeners set_target
       set_trace].
  unfold bind at 1. unfold data_set. rewrite reactive_effective.
  2: { cbn [target set_instance set_subscribers set_listeners set_target
            set_trace]. by rewrite !get_put_other. }
  rewrite updateLocalStorage_unfold.
  match goal with
  | |- context [(updateDOM P UMD ?k ?v ;; _) ?w0] =>
      destruct (refresh_early P UMD k v w0 i e c) as (ex & w' & Hrun & Hw');
        [exact Hw | exact He | exact Hc | exact Hs |]
  end.
  rewrite Hrun. by exists ex, w'.
Qed.

Lemma umd_constructor_throws_on_condition_witness :
  instance admin_visit = false
  ∧ State_const admin_visit = false
  ∧ localStorage admin_visit !! "state" = Some ("{" ++ q "admin" ++ ":true}")
  ∧ JSON_parse ref_platform ("{" ++ q "admin" ++ ":true}")
    = Some (VObject 14 [("admin", VBool true)])
  ∧ strict_eq (get [("admin", VBool true)] "route")
      (VStr (pathname admin_visit ++ hash admin_visit)) = false
  ∧ document admin_visit !! 0 = Some banner
  ∧ nonempty_attr (getAttribute "show-if" (attributes banner))
    = Some "route==/home || admin"
  ∧ showIf banner = None
  ∧ outside_route_text banner (document admin_visit) = true
  ∧ ∃ ex w', initialise_State ref_platform UMD admin_visit = Throw ex w'
             ∧ State_const w' = false.
Proof.
  split; [reflexivity |]. split; [reflexivity |].
  split; [vm_compute; reflexivity |]. split; [vm_compute; reflexivity |].
  split; [reflexivity |]. split; [reflexivity |]. split; [reflexivity |].
  split; [reflexivity |]. split; [reflexivity |].
  apply (umd_constructor_throws_on_condition ref_platform admin_visit
           ("{" ++ q "admin" ++ ":true}") 14 [("admin", VBool true)]
           0 banner "route==/home || admin");
    first [ reflexivity | vm_compute; reflexivity ].
Defined.

(** ** The document as the browser keeps it: executable checks *)

(** A [select] keeps only the value of one of its options. *)
Example select_keeps_an_option :
  showing (world_of (data_set ref_platform UMD "lang" (VStr "fr") signup_visit))
    !! 2 = Some (VStr "fr", false, "")
  ∧ showing (world_of (data_set ref_platform UMD "lang" (VStr "de")
                         signup_visit))
      !! 2 = Some (VStr "", false, "").
Proof. split; vm_compute; reflexivity. Qed.

(** Of two radio buttons of one group that have the value written, the
    second unchecks the first; a button with another value is unchecked. *)
Example radio_group_has_one_checked :
  showing (world_of (data_set ref_platform UMD "color" (VStr "red")
                       (set_document [radio 0 "red"; radio 1 "red";
                                      radio 2 "blue"] first_visit)))
  = [(VStr "red", false, ""); (VStr "red", true, ""); (VStr "blue", false, "")]
  ∧ one_radio_per_group "color" (VStr "red")
      [radio 0 "red"; radio 1 "red"; radio 2 "blue"] = false
  ∧ one_radio_per_group "color" (VStr "blue")
      [radio 0 "red"; radio 1 "red"; radio 2 "blue"] = true.
Proof. repeat split; vm_compute; reflexivity. Qed.

(** A file field refuses the value: the write throws after the store has
    taken it, and the label after the field is not reached. *)
Example file_field_refuses_value :
  outcome_value
    (data_set ref_platform UMD "name" (VStr "ann")
       (set_document [file_field; name_label] first_visit))
  = inl (DOMException "InvalidStateError")
  ∧ get (target (world_of
                   (data_set ref_platform UMD "name" (VStr "ann")
                      (set_document [file_field; name_label] first_visit))))
      "name" = VStr "ann"
  ∧ showing (world_of
               (data_set ref_platform UMD "name" (VStr "ann")
                  (set_document [file_field; name_label] first_visit)))
    = [(VStr "", false, ""); (VUndefined, false, "bob")]
  ∧ all_take ref_platform UMD "name" (VStr "ann") [file_field; name_label]
    = false.
Proof. repeat split; vm_compute; reflexivity. Qed.

(** The store inherits the members of [Object.prototype]: it reads a
    function under [constructor], a subscription to [toString] throws, and
    [State.set] of [valueOf] throws after the write. *)
Example inherited_members :
  get (target first_visit) "constructor" = VFunction 0
  ∧ outcome_value (State_subscribe "toString" 1 first_visit) = inl TypeError
  ∧ outcome_value
      (State_set ref_platform UMD [("valueOf", VNum 1)] first_visit)
    = inl TypeError
  ∧ get (target (world_of (State_set ref_platform UMD [("valueOf", VNum 1)]
                             first_visit))) "valueOf" = VNum 1.
Proof. repeat split; vm_compute; reflexivity. Qed.
